(** * SoftJS: a shallow embedding of the software renderer

    Sources embedded here: [src/Math.ts] (the vector and matrix helpers, the
    vertex projector, the clip test and the grid snap), [src/Renderer.ts]
    (depth buffer, pixel store, line and scanline rasterisers, triangle
    pipeline) and [src/Camera.ts].

    Numbers.  A JavaScript [number] is modelled by [num]: a rational, one of
    the two infinities, or NaN.  The arithmetic operators of [num] are exact
    on finite values; the special values follow ECMAScript, because the code
    relies on them: [clearZ] fills the depth buffer with [+Infinity], [vlen]
    uses [||] to replace a zero length, and a typed-array read outside the
    array yields [undefined], which every use in this code coerces to NaN.
    The sign of zero is not modelled.

    Rounding.  The program computes in binary64 and stores depths in a
    [Float32Array].  The store is modelled: [depthTest] writes
    [Math_fround z], the binary32 value nearest to [z].  The rounding of the
    arithmetic operators is modelled where a statement is about its size:
    the module [Binary64] holds the operators rounded to binary64 and the
    projection functions written with them.  The statements about the exact
    operators are those that rounding keeps: comparisons of values the code
    has computed, control flow, operations that are exact in binary64
    (products and sums with 0 and 1, integers below [2^53]), and orders kept
    by a monotone rounding; where overflow has to be excluded a bound on the
    magnitudes is a hypothesis. *)

From Stdlib Require Import ZArith QArith Qround Qabs Qpower Lia Lqa Bool.
From stdpp Require Import base list.

Local Open Scope Z_scope.

(** ** JavaScript numbers *)

Inductive num : Type :=
| NaN
| PInf
| NInf
| Fin (q : Q).

Declare Scope num_scope.
Delimit Scope num_scope with num.
Bind Scope num_scope with num.

Definition ofZ (z : Z) : num := Fin (inject_Z z).

(** The infinity (or NaN) whose sign is that of a comparison with zero. *)
Definition signed_inf (c : comparison) : num :=
  match c with
  | Gt => PInf
  | Lt => NInf
  | Eq => NaN
  end.

Definition num_neg (a : num) : num :=
  match a with
  | NaN => NaN
  | PInf => NInf
  | NInf => PInf
  | Fin q => Fin (- q)
  end.

Definition num_add (a b : num) : num :=
  match a, b with
  | NaN, _ | _, NaN => NaN
  | PInf, NInf | NInf, PInf => NaN
  | PInf, _ | _, PInf => PInf
  | NInf, _ | _, NInf => NInf
  | Fin p, Fin q => Fin (p + q)
  end.

Definition num_sub (a b : num) : num := num_add a (num_neg b).

Definition num_mul (a b : num) : num :=
  match a, b with
  | NaN, _ | _, NaN => NaN
  | PInf, PInf | NInf, NInf => PInf
  | PInf, NInf | NInf, PInf => NInf
  | Fin p, PInf | PInf, Fin p => signed_inf (p ?= 0)%Q
  | Fin p, NInf | NInf, Fin p => signed_inf (0 ?= p)%Q
  | Fin p, Fin q => Fin (p * q)
  end.

(** Division.  A finite divisor equal to zero gives an infinity of the sign
    of the dividend (zero is taken as [+0]), and [0/0] is NaN. *)
Definition num_div (a b : num) : num :=
  match a, b with
  | NaN, _ | _, NaN => NaN
  | (PInf | NInf), (PInf | NInf) => NaN
  | Fin _, (PInf | NInf) => Fin 0
  | PInf, Fin q => if Qle_bool 0 q then PInf else NInf
  | NInf, Fin q => if Qle_bool 0 q then NInf else PInf
  | Fin p, Fin q => if Qeq_bool q 0 then signed_inf (p ?= 0)%Q else Fin (p / q)
  end.

Infix "+" := num_add : num_scope.
Infix "-" := num_sub : num_scope.
Infix "*" := num_mul : num_scope.
Infix "/" := num_div : num_scope.
Notation "- a" := (num_neg a) : num_scope.

(** Relational operators: every comparison with NaN is [false]. *)
Definition num_lt (a b : num) : bool :=
  match a, b with
  | NaN, _ | _, NaN => false
  | _, NInf => false
  | NInf, _ => true
  | PInf, _ => false
  | Fin _, PInf => true
  | Fin p, Fin q => negb (Qle_bool q p)
  end.

Definition num_le (a b : num) : bool :=
  match a, b with
  | NaN, _ | _, NaN => false
  | NInf, _ => true
  | _, PInf => true
  | _, NInf => false
  | PInf, _ => false
  | Fin p, Fin q => Qle_bool p q
  end.

Definition num_gt (a b : num) : bool := num_lt b a.
Definition num_ge (a b : num) : bool := num_le b a.

(** Strict equality [===] on numbers. *)
Definition num_eqb (a b : num) : bool :=
  match a, b with
  | PInf, PInf | NInf, NInf => true
  | Fin p, Fin q => Qeq_bool p q
  | _, _ => false
  end.

Infix "<?" := num_lt : num_scope.
Infix "<=?" := num_le : num_scope.
Infix ">?" := num_gt : num_scope.
Infix ">=?" := num_ge : num_scope.
Infix "=?" := num_eqb : num_scope.

Definition is_nan (a : num) : bool :=
  match a with NaN => true | _ => false end.

(** Truthiness of a number: [0] and NaN are falsy. *)
Definition truthy (a : num) : bool :=
  match a with
  | NaN => false
  | Fin q => negb (Qeq_bool q 0)
  | _ => true
  end.

(** [a || b] on numbers. *)
Definition num_or (a b : num) : num := if truthy a then a else b.

(** ** The parts of [Math] that are exact on rationals *)

Definition Math_abs (a : num) : num :=
  match a with
  | NaN => NaN
  | PInf | NInf => PInf
  | Fin q => Fin (Qabs q)
  end.

Definition Math_max (a b : num) : num :=
  match a, b with
  | NaN, _ | _, NaN => NaN
  | _, _ => if num_lt a b then b else a
  end.

Definition Math_min (a b : num) : num :=
  match a, b with
  | NaN, _ | _, NaN => NaN
  | _, _ => if num_lt b a then b else a
  end.

Definition Math_max3 (a b c : num) : num := Math_max (Math_max a b) c.
Definition Math_min3 (a b c : num) : num := Math_min (Math_min a b) c.

Definition Math_floor (a : num) : num :=
  match a with
  | Fin q => ofZ (Qfloor q)
  | _ => a
  end.

Definition Math_ceil (a : num) : num :=
  match a with
  | Fin q => ofZ (Qceiling q)
  | _ => a
  end.

(** [Math.round] rounds half-way cases towards [+Infinity]. *)
Definition Math_round (a : num) : num :=
  match a with
  | Fin q => ofZ (Qfloor (q + (1 # 2)))
  | _ => a
  end.

(** [Math.pow] at a natural-number exponent. *)
Fixpoint Math_pow (a : num) (n : nat) : num :=
  match n with
  | O => Fin 1
  | S n' => num_mul a (Math_pow a n')
  end.

(** ** Binary floating-point formats

    Rounding a rational to the nearest value of a binary format with [prec]
    significand bits, least normal exponent [emin] and exponents below
    [emax], ties to even; a result of magnitude [2^emax] or more is an
    infinity.  binary32 has [prec = 24], [emin = -126], [emax = 128];
    binary64 has [prec = 53], [emin = -1022], [emax = 1024]. *)

Definition pow2 (e : Z) : Q := (2 ^ e)%Q.

(** For a positive [q], the exponent [e] with [2^e <= q < 2^(e+1)]. *)
Definition Qlog2 (q : Q) : Z :=
  let e := Z.log2 (Qnum q) - Z.log2 (Z.pos (Qden q)) in
  if Qle_bool (pow2 e) q then e else e - 1.

(** The integer nearest to [x], the even one of two that are equally near. *)
Definition round_even (x : Q) : Z :=
  let f := Qfloor x in
  match (x - inject_Z f ?= 1 # 2)%Q with
  | Lt => f
  | Gt => f + 1
  | Eq => if Z.even f then f else f + 1
  end.

(** The magnitude [a > 0] rounded to a multiple of the unit in the last
    place of its binade (of the least binade below the normal range). *)
Definition round_mag (prec emin : Z) (a : Q) : Q :=
  let e := Z.max (Qlog2 a) emin in
  let ulp := pow2 (e - prec + 1) in
  (inject_Z (round_even (a / ulp)) * ulp)%Q.

Definition round_binary (prec emin emax : Z) (q : Q) : num :=
  if Qeq_bool q 0 then Fin 0
  else
    let r := Qred (round_mag prec emin (Qabs q)) in
    if Qle_bool (pow2 emax) r
    then (if Qle_bool 0 q then PInf else NInf)
    else Fin (if Qle_bool 0 q then r else - r).

(** [Math.fround], which is also what a store into a [Float32Array] does
    to a number. *)
Definition Math_fround (a : num) : num :=
  match a with
  | Fin q => round_binary 24 (-126) 128 q
  | _ => a
  end.

(** The values a [Float32Array] cell can hold. *)
Definition binary32 (v : num) : bool :=
  match v with
  | Fin _ => num_eqb (Math_fround v) v
  | _ => true
  end.

(** ** 32-bit integer conversions and bit operators *)

Definition wrap_int32 (z : Z) : Z := (z + 2 ^ 31) mod 2 ^ 32 - 2 ^ 31.
Definition wrap_uint32 (z : Z) : Z := z mod 2 ^ 32.

(** [ToInt32]: NaN and the infinities give 0, a finite value is truncated
    towards zero and wrapped. *)
Definition toInt32 (a : num) : Z :=
  match a with
  | Fin q => wrap_int32 (Z.quot (Qnum q) (Z.pos (Qden q)))
  | _ => 0
  end.

Definition int32_shl (a : Z) (n : Z) : Z := wrap_int32 (Z.shiftl a (n mod 32)).
Definition int32_sar (a : Z) (n : Z) : Z := Z.shiftr a (n mod 32).
Definition int32_or (a b : Z) : Z := Z.lor a b.
Definition int32_and (a b : Z) : Z := Z.land a b.

(** ** Typed arrays *)

(** The element index denoted by a number used as a property key of a typed
    array: a non-negative integer below the length, or nothing. *)
Definition ta_index (len : nat) (i : num) : option nat :=
  match i with
  | Fin q =>
      let k := Qfloor q in
      if Qeq_bool (inject_Z k) q && (0 <=? k) && (k <? Z.of_nat len)
      then Some (Z.to_nat k) else None
  | _ => None
  end.

(** Reading a [Float32Array] (or [Uint32Array]) cell in a numeric context:
    [undefined] outside the array, which coerces to NaN. *)
Definition ta_get (buf : list num) (i : num) : num :=
  match ta_index (length buf) i with
  | Some k => default NaN (buf !! k)
  | None => NaN
  end.

(** Writing a cell; a write outside the array is ignored. *)
Definition ta_set {A : Type} (buf : list A) (i : num) (v : A) : list A :=
  match ta_index (length buf) i with
  | Some k => <[k := v]> buf
  | None => buf
  end.

Definition ta_fill {A : Type} (buf : list A) (v : A) : list A :=
  replicate (length buf) v.

(** ** Data model of [Math.ts] *)

Module Vec3.
Record t : Type := mk { x : num; y : num; z : num }.
End Vec3.

Module Vec4.
Record t : Type := mk { x : num; y : num; z : num; w : num }.
End Vec4.

Abbreviation Vec3 := Vec3.t.
Abbreviation Vec4 := Vec4.t.

(** [number[]] of length 16, row-major; an entry that is missing reads as
    [undefined], NaN in arithmetic. *)
Definition Mat4 : Type := list num.

Definition mget (m : Mat4) (k : nat) : num := default NaN (m !! k).

Module ScreenVertex.
Record t : Type := mk {
    x : num; y : num; z : num;
    recipW : num;
    color : option (num * num * num);
    normal : option Vec3;
    uv : option (num * num)
  }.

  (** A [ScreenVertex] passed where a [Vec3] is expected. *)
Definition toVec3 (v : t) : Vec3 := Vec3.mk (x v) (y v) (z v).
End ScreenVertex.

Abbreviation ScreenVertex := ScreenVertex.t.

Module Projected.
Record t : Type := mk {
    screenX : num; screenY : num; screenZ : num;
    ndc : Vec3;
    clipW : num
  }.
End Projected.

Module DirectionalLight.
Record t : Type := mk { direction : Vec3; color : Vec3; intensity : num }.
End DirectionalLight.

Abbreviation DirectionalLight := DirectionalLight.t.

(** Of the camera only the fields read by the renderer are kept. *)
Module Camera.
Record t : Type := mk { position : Vec3; up : Vec3 }.
End Camera.

Abbreviation Camera := Camera.t.

Definition half : num := Fin (1 # 2).
Definition one : num := Fin 1.
Definition zero : num := Fin 0.

(** ** [Math.ts] *)

Section MathTs.

Local Open Scope num_scope.

(** [Math.hypot] and [Math.tan] are not rational functions; the functions
    below are parametric in them. *)
Variable Math_hypot : num -> num -> num -> num.
Variable Math_tan : num -> num.

Definition mat4Identity : Mat4 :=
  [ one; zero; zero; zero;
    zero; one; zero; zero;
    zero; zero; one; zero;
    zero; zero; zero; one ].

Definition mat4MulVec4 (m : Mat4) (v : Vec4) : Vec4 :=
  Vec4.mk
    (mget m 0 * Vec4.x v + mget m 1 * Vec4.y v + mget m 2 * Vec4.z v + mget m 3 * Vec4.w v)
    (mget m 4 * Vec4.x v + mget m 5 * Vec4.y v + mget m 6 * Vec4.z v + mget m 7 * Vec4.w v)
    (mget m 8 * Vec4.x v + mget m 9 * Vec4.y v + mget m 10 * Vec4.z v + mget m 11 * Vec4.w v)
    (mget m 12 * Vec4.x v + mget m 13 * Vec4.y v + mget m 14 * Vec4.z v + mget m 15 * Vec4.w v).

Definition mat4Perspective (fovy aspect near far : num) : Mat4 :=
  let f := Fin 1 / Math_tan (fovy / Fin 2) in
  let nf := Fin 1 / (near - far) in
  [ f / aspect; zero; zero; zero;
    zero; f; zero; zero;
    zero; zero; (far + near) * nf; (Fin 2 * far * near) * nf;
    zero; zero; Fin (-1); zero ].

Definition projectVertex (pos : Vec3) (mvp : Mat4) (width height : num)
  : option Projected.t :=
  let v4 := Vec4.mk (Vec3.x pos) (Vec3.y pos) (Vec3.z pos) one in
  let clip := mat4MulVec4 mvp v4 in
  if Vec4.w clip =? zero then None
  else
    let ndc := Vec3.mk (Vec4.x clip / Vec4.w clip)
                       (Vec4.y clip / Vec4.w clip)
                       (Vec4.z clip / Vec4.w clip) in
    let screenX := (Vec3.x ndc * half + half) * width in
    let screenY := (one - (Vec3.y ndc * half + half)) * height in
    let screenZ := Vec3.z ndc * half + half in
    Some (Projected.mk screenX screenY screenZ ndc (Vec4.w clip)).

Definition toScreenVertex (p : Projected.t) : ScreenVertex :=
  ScreenVertex.mk (Projected.screenX p) (Projected.screenY p)
                  (Projected.screenZ p) (one / Projected.clipW p)
                  None None None.

Definition transformTriangleToScreen (a b c : Vec3) (mvp : Mat4)
           (width height : num)
  : option (ScreenVertex * ScreenVertex * ScreenVertex) :=
  let pa := projectVertex a mvp width height in
  let pb := projectVertex b mvp width height in
  let pc := projectVertex c mvp width height in
  match pa, pb, pc with
  | Some pa, Some pb, Some pc =>
      Some (toScreenVertex pa, toScreenVertex pb, toScreenVertex pc)
  | _, _, _ => None
  end.

Definition outOfBounds (width height : num) (v : Vec3) : bool :=
  (Vec3.x v <? zero) || (Vec3.x v >=? width)
  || (Vec3.y v <? zero) || (Vec3.y v >=? height).

Definition isTriangleClipped (v0 v1 v2 : Vec3) (width height : num) : bool :=
  if outOfBounds width height v0 && outOfBounds width height v1
     && outOfBounds width height v2
  then true else false.

Definition getScreenVertex (svert : ScreenVertex) (vi uvIdx : num)
           (normals : option (list num)) (uvs : option (list num))
  : ScreenVertex :=
  let normal :=
    match normals with
    | Some ns =>
        if ofZ (Z.of_nat (length ns)) >? vi + Fin 2
        then Some (Vec3.mk (ta_get ns vi) (ta_get ns (vi + Fin 1))
                           (ta_get ns (vi + Fin 2)))
        else None
    | None => None
    end in
  let uv :=
    match uvs with
    | Some us =>
        if ofZ (Z.of_nat (length us)) >? uvIdx + Fin 1
        then Some (ta_get us uvIdx, ta_get us (uvIdx + Fin 1))
        else None
    | None => None
    end in
  ScreenVertex.mk (ScreenVertex.x svert) (ScreenVertex.y svert)
                  (ScreenVertex.z svert) (ScreenVertex.recipW svert)
                  None normal uv.

Definition vsub (a b : Vec3) : Vec3 :=
  Vec3.mk (Vec3.x a - Vec3.x b) (Vec3.y a - Vec3.y b) (Vec3.z a - Vec3.z b).

Definition vcross (a b : Vec3) : Vec3 :=
  Vec3.mk (Vec3.y a * Vec3.z b - Vec3.z a * Vec3.y b)
          (Vec3.z a * Vec3.x b - Vec3.x a * Vec3.z b)
          (Vec3.x a * Vec3.y b - Vec3.y a * Vec3.x b).

Definition vlen (a : Vec3) : num :=
  num_or (Math_hypot (Vec3.x a) (Vec3.y a) (Vec3.z a)) one.

Definition vnorm (a : Vec3) : Vec3 :=
  let L := vlen a in
  Vec3.mk (Vec3.x a / L) (Vec3.y a / L) (Vec3.z a / L).

Definition vdot (a b : Vec3) : num :=
  Vec3.x a * Vec3.x b + Vec3.y a * Vec3.y b + Vec3.z a * Vec3.z b.

Definition clamp255 (c : num) : num := Math_max zero (Math_min (Fin 255) c).

Definition computeBlinnPhongLighting (vertex normal viewDir : Vec3)
           (light : option DirectionalLight) : Vec3 :=
  let ambient := Fin (15 # 100) in
  let '(diffuseIntensity, specularIntensity) :=
    match light with
    | Some light =>
        let ldir := vnorm (DirectionalLight.direction light) in
        let toLight := Vec3.mk (- Vec3.x ldir) (- Vec3.y ldir) (- Vec3.z ldir) in
        let normalizedNormal := vnorm normal in
        let diffuseIntensity :=
          Math_max zero (vdot normalizedNormal toLight)
          * DirectionalLight.intensity light in
        let halfwayDir :=
          vnorm (Vec3.mk (Vec3.x viewDir + Vec3.x toLight)
                         (Vec3.y viewDir + Vec3.y toLight)
                         (Vec3.z viewDir + Vec3.z toLight)) in
        let specAngle := Math_max zero (vdot normalizedNormal halfwayDir) in
        let specularIntensity :=
          Math_pow specAngle 16 * DirectionalLight.intensity light in
        (diffuseIntensity, specularIntensity)
    | None => (zero, zero)
    end in
  let baseColor := Vec3.mk (Fin 200) (Fin 120) (Fin 60) in
  let diff := one - ambient in
  Vec3.mk
    (clamp255 (Vec3.x baseColor * (ambient + diff * diffuseIntensity + specularIntensity)))
    (clamp255 (Vec3.y baseColor * (ambient + diff * diffuseIntensity + specularIntensity)))
    (clamp255 (Vec3.z baseColor * (ambient + diff * diffuseIntensity + specularIntensity))).

Definition snapVertexToGrid (svert : ScreenVertex) (gridSize : num)
  : ScreenVertex :=
  ScreenVertex.mk
    (Math_round (ScreenVertex.x svert / gridSize) * gridSize)
    (Math_round (ScreenVertex.y svert / gridSize) * gridSize)
    (ScreenVertex.z svert)
    (ScreenVertex.recipW svert)
    None
    (ScreenVertex.normal svert)
    (ScreenVertex.uv svert).

End MathTs.

(** ** The projection in binary64

    The operators of the program proper: the exact result of each operation
    rounded to binary64.  [mat4MulVec4], [mat4Perspective] and
    [projectVertex] are the functions above with these operators in place of
    the exact ones. *)

Module Binary64.

Definition rnd (a : num) : num :=
  match a with
  | Fin q => round_binary 53 (-1022) 1024 q
  | _ => a
  end.

Definition add (a b : num) : num := rnd (a + b).
Definition sub (a b : num) : num := rnd (a - b).
Definition mul (a b : num) : num := rnd (a * b).
Definition div (a b : num) : num := rnd (a / b).

Notation "a [+] b" := (add a b) (at level 50, left associativity).
Notation "a [-] b" := (sub a b) (at level 50, left associativity).
Notation "a [*] b" := (mul a b) (at level 40, left associativity).
Notation "a [/] b" := (div a b) (at level 40, left associativity).

Section Projection.

Variable Math_tan : num -> num.

Definition mat4MulVec4 (m : Mat4) (v : Vec4) : Vec4 :=
  Vec4.mk
    (mget m 0 [*] Vec4.x v [+] mget m 1 [*] Vec4.y v [+] mget m 2 [*] Vec4.z v
     [+] mget m 3 [*] Vec4.w v)
    (mget m 4 [*] Vec4.x v [+] mget m 5 [*] Vec4.y v [+] mget m 6 [*] Vec4.z v
     [+] mget m 7 [*] Vec4.w v)
    (mget m 8 [*] Vec4.x v [+] mget m 9 [*] Vec4.y v [+] mget m 10 [*] Vec4.z v
     [+] mget m 11 [*] Vec4.w v)
    (mget m 12 [*] Vec4.x v [+] mget m 13 [*] Vec4.y v
     [+] mget m 14 [*] Vec4.z v [+] mget m 15 [*] Vec4.w v).

Definition mat4Perspective (fovy aspect near far : num) : Mat4 :=
  let f := Fin 1 [/] Math_tan (fovy [/] Fin 2) in
  let nf := Fin 1 [/] (near [-] far) in
  [ f [/] aspect; zero; zero; zero;
    zero; f; zero; zero;
    zero; zero; (far [+] near) [*] nf; (Fin 2 [*] far [*] near) [*] nf;
    zero; zero; Fin (-1); zero ].

Definition projectVertex (pos : Vec3) (mvp : Mat4) (width height : num)
  : option Projected.t :=
  let v4 := Vec4.mk (Vec3.x pos) (Vec3.y pos) (Vec3.z pos) one in
  let clip := mat4MulVec4 mvp v4 in
  if (Vec4.w clip =? zero)%num then None
  else
    let ndc := Vec3.mk (Vec4.x clip [/] Vec4.w clip)
                       (Vec4.y clip [/] Vec4.w clip)
                       (Vec4.z clip [/] Vec4.w clip) in
    let screenX := (Vec3.x ndc [*] half [+] half) [*] width in
    let screenY := (one [-] (Vec3.y ndc [*] half [+] half)) [*] height in
    let screenZ := Vec3.z ndc [*] half [+] half in
    Some (Projected.mk screenX screenY screenZ ndc (Vec4.w clip)).

End Projection.

End Binary64.

(** ** Data model of [Renderer.ts] *)

Inductive Shading : Type := flat | blinn_phong | wireframe.

Record RendererOptions : Type := mkOptions {
  shading : option Shading;
  snapVertices : bool
}.

(** The renderer object, restricted to the fields that the rasterising
    methods read or write.  [width] and [height] are the canvas dimensions
    (integers); [data32] is the [Uint32Array] view of the pixel store and
    [zBuffer] the [Float32Array] depth store. *)
Record Renderer : Type := mkRenderer {
  width : Z;
  height : Z;
  littleEndian : bool;
  data32 : list Z;
  zBuffer : list num;
  options : RendererOptions;
  mainCamera : option Camera;
  mainDirectionalLight : option DirectionalLight
}.

Definition set_zBuffer (r : Renderer) (zb : list num) : Renderer :=
  mkRenderer (width r) (height r) (littleEndian r) (data32 r) zb
             (options r) (mainCamera r) (mainDirectionalLight r).

Definition set_data32 (r : Renderer) (d : list Z) : Renderer :=
  mkRenderer (width r) (height r) (littleEndian r) d (zBuffer r)
             (options r) (mainCamera r) (mainDirectionalLight r).

Definition set_options (r : Renderer) (o : RendererOptions) : Renderer :=
  mkRenderer (width r) (height r) (littleEndian r) (data32 r) (zBuffer r)
             o (mainCamera r) (mainDirectionalLight r).

(** Outcome of a method that can throw: dereferencing a camera or light that
    was never set raises a [TypeError]. *)
Inductive result (A : Type) : Type :=
| Ok (a : A)
| TypeError.

Arguments Ok {A} a.
Arguments TypeError {A}.

Definition bind {A B : Type} (m : result A) (k : A -> result B) : result B :=
  match m with
  | Ok a => k a
  | TypeError => TypeError
  end.

Notation "'let*' x ':=' m 'in' k" := (bind m (fun x => k))
  (at level 10, x name, m at level 100, k at level 200).

(** The receiver of a non-null assertion [e!] followed by a property read. *)
Definition deref {A : Type} (o : option A) : result A :=
  match o with
  | Some a => Ok a
  | None => TypeError
  end.

(** ** Buffers: [clearZ], [packRGBA], [setPixel], [depthTest] *)

Section Buffers.

Local Open Scope num_scope.

Definition clearZ (r : Renderer) : Renderer :=
  set_zBuffer r (ta_fill (zBuffer r) PInf).

Definition packRGBA (this : Renderer) (r g b a : num) : Z :=
  if littleEndian this then
    int32_or (int32_or (int32_or (int32_shl (toInt32 a) 24)
                                 (int32_shl (toInt32 b) 16))
                       (int32_shl (toInt32 g) 8))
             (toInt32 r)
  else
    int32_or (int32_or (int32_or (int32_shl (toInt32 r) 24)
                                 (int32_shl (toInt32 g) 16))
                       (int32_shl (toInt32 b) 8))
             (toInt32 a).

Definition clear (this : Renderer) (r g b a : num) : Renderer :=
  let packed := packRGBA this r g b a in
  set_data32 this (ta_fill (data32 this) (wrap_uint32 packed)).

(** [v | 0] *)
Definition or0 (v : num) : num := ofZ (int32_or (toInt32 v) 0).

Definition setPixel (this : Renderer) (x y r g b a : num) : Renderer :=
  if (x <? zero) || (x >=? ofZ (width this))
     || (y <? zero) || (y >=? ofZ (height this))
  then this
  else
    let idx := y * ofZ (width this) + x in
    set_data32 this
      (ta_set (data32 this) idx
              (wrap_uint32 (packRGBA this (or0 r) (or0 g) (or0 b) (or0 a)))).

(** [zBuffer] is a [Float32Array]: the assignment stores the binary32 value
    nearest to [z]. *)
Definition depthTest (this : Renderer) (x y z : num) : bool * Renderer :=
  let idx := y * ofZ (width this) + x in
  if z >=? ta_get (zBuffer this) idx then (false, this)
  else (true, set_zBuffer this (ta_set (zBuffer this) idx (Math_fround z))).

End Buffers.

(** ** The scanline rasteriser: [drawTriangleScanline] *)

Section Rasterisers.

Local Open Scope num_scope.

(** Values taken by the variable of [for (let v = lo; v <= hi; v++)].  The
    loop does not run when a bound is NaN.  In [drawTriangleScanline] the
    lower bound is a [Math.max(0, _)] and the upper bound a
    [Math.min(size - 1, _)], so a lower bound [-Infinity] or an upper bound
    [+Infinity], with which the loop would not end, cannot occur. *)
Fixpoint count_up (n : nat) (v : num) : list num :=
  match n with
  | O => []
  | S n' => v :: count_up n' (v + one)
  end.

Definition for_range (lo hi : num) : list num :=
  match lo, hi with
  | Fin a, Fin b =>
      if Qle_bool a b then count_up (Z.to_nat (Qfloor (b - a) + 1)) lo else []
  | _, _ => []
  end.

(** [Array.prototype.sort] with the comparator [(v1, v2) => v1.y - v2.y]: a
    stable sort; a comparator result NaN counts as 0.  For keys that the
    comparator orders consistently every stable sort gives this result. *)
Definition cmp_y_pos (v1 v2 : ScreenVertex) : bool :=
  ScreenVertex.y v1 - ScreenVertex.y v2 >? zero.

Fixpoint sort_insert (v : ScreenVertex) (l : list ScreenVertex)
  : list ScreenVertex :=
  match l with
  | [] => [v]
  | h :: t => if cmp_y_pos h v then v :: h :: t else h :: sort_insert v t
  end.

Definition sort_by_y (l : list ScreenVertex) : list ScreenVertex :=
  fold_left (fun acc v => sort_insert v acc) l [].

Record Edge : Type := mkEdge {
  vStart : ScreenVertex;
  vEnd : ScreenVertex;
  dx : num;
  dy : num;
  dz : num
}.

Definition precomputeEdge (vStart vEnd : ScreenVertex) : Edge :=
  let dy := ScreenVertex.y vEnd - ScreenVertex.y vStart in
  let dx := ScreenVertex.x vEnd - ScreenVertex.x vStart in
  let dz := ScreenVertex.z vEnd - ScreenVertex.z vStart in
  mkEdge vStart vEnd dx dy dz.

Definition interpolateEdge (edge : Edge) (y : num) : num :=
  if dy edge =? zero then ScreenVertex.x (vStart edge)
  else ScreenVertex.x (vStart edge)
       + dx edge * ((y - ScreenVertex.y (vStart edge)) / dy edge).

Definition interpolateZ (edgeAC edgeAB edgeBC : Edge) (x y t : num) : num :=
  ScreenVertex.z (vStart edgeAC)
  + (ScreenVertex.z (vEnd edgeAC) - ScreenVertex.z (vStart edgeAC)) * t.

(** The pixels visited by the inner loop on scanline [y], each with its
    interpolated depth. *)
Definition scanline (w : Z) (b : ScreenVertex) (edgeAC edgeAB edgeBC : Edge)
           (y : num) : list (num * num * num) :=
  let x1 := interpolateEdge edgeAC y in
  let x2 := if y <? ScreenVertex.y b then interpolateEdge edgeAB y
            else interpolateEdge edgeBC y in
  let '(x1, x2) := if x1 >? x2 then (x2, x1) else (x1, x2) in
  let startX := Math_max zero (Math_ceil x1) in
  let endX := Math_min (ofZ w - one) (Math_floor x2) in
  map (fun x =>
         let t := if x2 =? x1 then zero else (x - x1) / (x2 - x1) in
         let z := interpolateZ edgeAC edgeAB edgeBC x y t in
         (x, y, z))
      (for_range startX endX).

(** All pixels visited by the two nested loops, in order. *)
Definition fragments (w h : Z) (v0 v1 v2 : ScreenVertex)
  : list (num * num * num) :=
  match sort_by_y [v0; v1; v2] with
  | [a; b; c] =>
      let minY :=
        Math_max zero
          (Math_ceil (Math_min3 (ScreenVertex.y a) (ScreenVertex.y b)
                                (ScreenVertex.y c))) in
      let maxY :=
        Math_min (ofZ h - one)
          (Math_floor (Math_max3 (ScreenVertex.y a) (ScreenVertex.y b)
                                 (ScreenVertex.y c))) in
      let edgeAC := precomputeEdge a c in
      let edgeAB := precomputeEdge a b in
      let edgeBC := precomputeEdge b c in
      flat_map (scanline w b edgeAC edgeAB edgeBC) (for_range minY maxY)
  | _ => []
  end.

(** The body of the inner loop. *)
Definition plot (color : Vec3) (this : Renderer) (f : num * num * num)
  : Renderer :=
  let '(x, y, z) := f in
  let '(pass, this) := depthTest this x y z in
  if pass
  then setPixel this x y (Vec3.x color) (Vec3.y color) (Vec3.z color) (Fin 255)
  else this.

Definition defaultColor : Vec3 := Vec3.mk (Fin 200) (Fin 120) (Fin 60).

(** [color] is the optional fourth argument. *)
Definition drawTriangleScanline (this : Renderer) (v0 v1 v2 : ScreenVertex)
           (color : option Vec3) : Renderer :=
  let color := default defaultColor color in
  fold_left (plot color) (fragments (width this) (height this) v0 v1 v2) this.

End Rasterisers.

(** ** The line rasteriser: [drawLine3DEFLA] *)

Section Line.

Local Open Scope num_scope.

(** The mutable locals of the loop of [drawLine3DEFLA], with the renderer. *)
Record LineState : Type := mkLineState {
  ls_x0 : num; ls_y0 : num; ls_z0 : num;
  ls_j1 : num; ls_j2 : num;
  ls_this : Renderer
}.

(** [v >> 16] and [v & 0xFFFF] on a number. *)
Definition sar16 (v : num) : num := ofZ (int32_sar (toInt32 v) 16).
Definition and_FFFF (v : num) : num := ofZ (int32_and (toInt32 v) 65535).
Definition shl16 (v : num) : num := ofZ (int32_shl (toInt32 v) 16).

Definition efla_body (longLen dx dy xs ys zs decInc1 decInc2 r g b a : num)
           (s : LineState) : LineState :=
  let '(pass, this) := depthTest (ls_this s) (ls_x0 s) (ls_y0 s) (ls_z0 s) in
  let this :=
    if pass then setPixel this (ls_x0 s) (ls_y0 s) r g b a else this in
  let j1 := ls_j1 s + decInc1 in
  let j2 := ls_j2 s + decInc2 in
  if longLen =? dx then
    mkLineState (ls_x0 s + xs) (ls_y0 s + sar16 j1 * ys)
                (ls_z0 s + sar16 j2 * zs) (and_FFFF j1) (and_FFFF j2) this
  else if longLen =? dy then
    mkLineState (ls_x0 s + sar16 j1 * xs) (ls_y0 s + ys)
                (ls_z0 s + sar16 j2 * zs) (and_FFFF j1) (and_FFFF j2) this
  else
    mkLineState (ls_x0 s + sar16 j1 * xs) (ls_y0 s + sar16 j2 * ys)
                (ls_z0 s + zs) (and_FFFF j1) (and_FFFF j2) this.

(** Number of iterations of [for (let i = 0; i <= longLen; i++)].  The
    counter is a binary64 number: below [2^53] it counts exactly, and at
    [2^53] the increment [i++] no longer changes it.  So the loop does not
    end when [longLen] is [2^53] or more, [+Infinity] included. *)
Definition efla_iterations (longLen : num) : option nat :=
  match longLen with
  | Fin q =>
      if Qle_bool (inject_Z (2 ^ 53)) q then None
      else Some (if Qle_bool 0 q then Z.to_nat (Qfloor q + 1) else O)
  | PInf => None
  | _ => Some O
  end.

Definition drawLine3DEFLA (this : Renderer)
           (x0 y0 z0 x1 y1 z1 r g b a : num) : option Renderer :=
  let dx := Math_abs (x1 - x0) in
  let dy := Math_abs (y1 - y0) in
  let dz := Math_abs (z1 - z0) in
  let xs := if x0 <? x1 then Fin 1 else Fin (-1) in
  let ys := if y0 <? y1 then Fin 1 else Fin (-1) in
  let zs := if z0 <? z1 then Fin 1 else Fin (-1) in
  let longLen := Math_max3 dx dy dz in
  let '(shortLen1, shortLen2) :=
    if longLen =? dx then (dy, dz)
    else if longLen =? dy then (dx, dz)
    else (dx, dy) in
  let decInc1 := if shortLen1 =? zero then zero else shl16 shortLen1 / longLen in
  let decInc2 := if shortLen2 =? zero then zero else shl16 shortLen2 / longLen in
  match efla_iterations longLen with
  | Some n =>
      Some (ls_this
              (Nat.iter n
                 (efla_body longLen dx dy xs ys zs decInc1 decInc2 r g b a)
                 (mkLineState x0 y0 z0 zero zero this)))
  | None => None
  end.

End Line.

(** ** The triangle pipeline: [renderFlatShading],
    [renderBlinnPhongShading], [renderTriangle] *)

Section Pipeline.

Local Open Scope num_scope.

Variable Math_hypot : num -> num -> num -> num.

Definition renderFlatShading (this : Renderer) (sv0 sv1 sv2 : ScreenVertex)
           (e1 e2 : Vec3) : result Renderer :=
  let ambient := Fin (15 # 100) in
  let* light := deref (mainDirectionalLight this) in
  let ld := DirectionalLight.direction light in
  let ldir := vnorm Math_hypot ld in
  let base := Vec3.mk (Fin 200) (Fin 120) (Fin 60) in
  let diff := Fin 1 - ambient in
  let faceNormal := vnorm Math_hypot (vcross e1 e2) in
  let lightIntensity :=
    Math_max zero
      (vdot faceNormal (Vec3.mk (- Vec3.x ldir) (- Vec3.y ldir) (- Vec3.z ldir)))
    * DirectionalLight.intensity light in
  let finalColor :=
    Vec3.mk
      (Math_max zero (Math_min (Fin 255) (Vec3.x base * (ambient + diff * lightIntensity))))
      (Math_max zero (Math_min (Fin 255) (Vec3.y base * (ambient + diff * lightIntensity))))
      (Math_max zero (Math_min (Fin 255) (Vec3.z base * (ambient + diff * lightIntensity)))) in
  Ok (drawTriangleScanline this sv0 sv1 sv2 (Some finalColor)).

Definition with_color (sv : ScreenVertex) (c : Vec3) : ScreenVertex :=
  ScreenVertex.mk (ScreenVertex.x sv) (ScreenVertex.y sv) (ScreenVertex.z sv)
                  (ScreenVertex.recipW sv)
                  (Some (Vec3.x c, Vec3.y c, Vec3.z c))
                  (ScreenVertex.normal sv) (ScreenVertex.uv sv).

Definition renderBlinnPhongShading (this : Renderer)
           (sv0 sv1 sv2 : ScreenVertex) (v0 v1 v2 : Vec3)
           (normals : list num) : result Renderer :=
  let* camera := deref (mainCamera this) in
  let viewDir :=
    vnorm Math_hypot
      (Vec3.mk (- Vec3.x (Camera.position camera))
               (- Vec3.y (Camera.position camera))
               (- Vec3.z (Camera.position camera))) in
  let n k := ta_get normals (ofZ k) in
  let light := mainDirectionalLight this in
  let c0 := computeBlinnPhongLighting Math_hypot v0
              (Vec3.mk (n 0%Z) (n 1%Z) (n 2%Z)) viewDir light in
  let c1 := computeBlinnPhongLighting Math_hypot v1
              (Vec3.mk (n 3%Z) (n 4%Z) (n 5%Z)) viewDir light in
  let c2 := computeBlinnPhongLighting Math_hypot v2
              (Vec3.mk (n 6%Z) (n 7%Z) (n 8%Z)) viewDir light in
  let sv0 := with_color sv0 c0 in
  let sv1 := with_color sv1 c1 in
  let sv2 := with_color sv2 c2 in
  Ok (drawTriangleScanline this sv0 sv1 sv2 None).

(** The vertex read from the position array at offset [vi]. *)
Definition vertex_at (pos : list num) (vi : num) : Vec3 :=
  Vec3.mk (ta_get pos vi) (ta_get pos (vi + Fin 1)) (ta_get pos (vi + Fin 2)).

Definition area2 (a b c : ScreenVertex) : num :=
  (ScreenVertex.x b - ScreenVertex.x a) * (ScreenVertex.y c - ScreenVertex.y a)
  - (ScreenVertex.y b - ScreenVertex.y a) * (ScreenVertex.x c - ScreenVertex.x a).

(** The screen vertices after the optional snap. *)
Definition snapped (this : Renderer)
           (sverts : ScreenVertex * ScreenVertex * ScreenVertex)
  : ScreenVertex * ScreenVertex * ScreenVertex :=
  let '(s0, s1, s2) := sverts in
  if snapVertices (options this)
  then (snapVertexToGrid s0 (Fin 5), snapVertexToGrid s1 (Fin 5),
        snapVertexToGrid s2 (Fin 5))
  else (s0, s1, s2).

(** What follows the clip and cull tests in [renderTriangle]. *)
Definition shadeTriangle (this : Renderer)
           (sverts : ScreenVertex * ScreenVertex * ScreenVertex)
           (idx : list num) (i : num) (v0 v1 v2 : Vec3)
           (normals : list num) (uvs : option (list num)) (modelMat : Mat4)
  : result Renderer :=
  let '(s0, s1, s2) := sverts in
  let vi0 := ta_get idx i * Fin 3 in
  let vi1 := ta_get idx (i + Fin 1) * Fin 3 in
  let vi2 := ta_get idx (i + Fin 2) * Fin 3 in
  let p0w := mat4MulVec4 modelMat (Vec4.mk (Vec3.x v0) (Vec3.y v0) (Vec3.z v0) one) in
  let p1w := mat4MulVec4 modelMat (Vec4.mk (Vec3.x v1) (Vec3.y v1) (Vec3.z v1) one) in
  let p2w := mat4MulVec4 modelMat (Vec4.mk (Vec3.x v2) (Vec3.y v2) (Vec3.z v2) one) in
  let e1 := vsub (Vec3.mk (Vec4.x p1w) (Vec4.y p1w) (Vec4.z p1w))
                 (Vec3.mk (Vec4.x p0w) (Vec4.y p0w) (Vec4.z p0w)) in
  let e2 := vsub (Vec3.mk (Vec4.x p2w) (Vec4.y p2w) (Vec4.z p2w))
                 (Vec3.mk (Vec4.x p0w) (Vec4.y p0w) (Vec4.z p0w)) in
  let sv0 := getScreenVertex s0 vi0 (ta_get idx i * Fin 2) (Some normals) uvs in
  let sv1 := getScreenVertex s1 vi1 (ta_get idx (i + Fin 1) * Fin 2) (Some normals) uvs in
  let sv2 := getScreenVertex s2 vi2 (ta_get idx (i + Fin 2) * Fin 2) (Some normals) uvs in
  match shading (options this) with
  | Some flat => renderFlatShading this sv0 sv1 sv2 e1 e2
  | Some blinn_phong => renderBlinnPhongShading this sv0 sv1 sv2 v0 v1 v2 normals
  | Some wireframe => Ok this
  | None => Ok this
  end.

Definition renderTriangle (this : Renderer) (idx : list num) (i : num)
           (pos normals : list num) (uvs : option (list num))
           (mvp modelMat : Mat4) : result Renderer :=
  let vi0 := ta_get idx i * Fin 3 in
  let vi1 := ta_get idx (i + Fin 1) * Fin 3 in
  let vi2 := ta_get idx (i + Fin 2) * Fin 3 in
  let v0 := vertex_at pos vi0 in
  let v1 := vertex_at pos vi1 in
  let v2 := vertex_at pos vi2 in
  match transformTriangleToScreen v0 v1 v2 mvp
          (ofZ (width this)) (ofZ (height this)) with
  | None => Ok this
  | Some sverts =>
      let '(s0, s1, s2) := snapped this sverts in
      if isTriangleClipped (ScreenVertex.toVec3 s0) (ScreenVertex.toVec3 s1)
                           (ScreenVertex.toVec3 s2)
                           (ofZ (width this)) (ofZ (height this))
      then Ok this
      else if area2 s0 s1 s2 >? zero then Ok this
      else shadeTriangle this (s0, s1, s2) idx i v0 v1 v2 normals uvs modelMat
  end.

End Pipeline.

(** ** Executable stand-ins for [Math.hypot] and [Math.tan]

    They are used only to run the model on concrete scenes; every theorem
    below that depends on [Math.hypot] or [Math.tan] holds for any function
    in their place. *)

(** Square root of a non-negative rational, rounded down to a multiple of
    [1 / (den * 2^32)]; exact on squares of such multiples. *)
Definition Qsqrt_down (q : Q) : Q :=
  Qred (Z.sqrt (Qnum q * Z.pos (Qden q) * 2 ^ 64) # (Qden q * 2 ^ 32)).

Definition hypot_run (x y z : num) : num :=
  match Math_abs x, Math_abs y, Math_abs z with
  | PInf, _, _ | _, PInf, _ | _, _, PInf => PInf
  | Fin a, Fin b, Fin c => Fin (Qsqrt_down (a * a + b * b + c * c))
  | _, _, _ => NaN
  end.

(** First terms of the series of the tangent. *)
Definition tan_run (a : num) : num :=
  (a + a * a * a / Fin 3)%num.

(** ** Vocabulary of the statements *)

(** The stored depth of pixel [(x, y)]. *)
Definition depth_at (r : Renderer) (x y : Z) : num :=
  ta_get (zBuffer r) (ofZ y * ofZ (width r) + ofZ x)%num.

(** The stored colour word of pixel [(x, y)]. *)
Definition pixel_at (r : Renderer) (x y : Z) : option Z :=
  data32 r !! Z.to_nat (y * width r + x).

(** A sequence of [depthTest] calls, results dropped.  The coordinates and
    the depths are any numbers. *)
Definition depthTests (r : Renderer) (calls : list (num * num * num))
  : Renderer :=
  fold_left (fun r c => snd (depthTest r c.1.1 c.1.2 c.2)) calls r.

(** No call passes NaN as its depth. *)
Definition depths_defined (calls : list (num * num * num)) : Prop :=
  Forall (fun c => is_nan c.2 = false) calls.

(** The buffers have one cell per pixel, as the constructor allocates
    them. *)
Definition sized (r : Renderer) : Prop :=
  0 < width r /\ 0 < height r
  /\ length (zBuffer r) = Z.to_nat (width r * height r)
  /\ length (data32 r) = Z.to_nat (width r * height r).

(** The constructor's buffers for a [w] by [h] canvas. *)
Definition newRenderer (w h : Z) (o : RendererOptions)
           (cam : option Camera) (light : option DirectionalLight) : Renderer :=
  clearZ (mkRenderer w h true
                     (replicate (Z.to_nat (w * h)) 0)
                     (replicate (Z.to_nat (w * h)) zero)
                     o cam light).

(** No cell of the depth buffer holds NaN. *)
Definition depth_defined (r : Renderer) : Prop :=
  Forall (fun v => is_nan v = false) (zBuffer r).

(** Every cell of the depth buffer holds a binary32 value, as the cells of
    a [Float32Array] do. *)
Definition depth_binary32 (r : Renderer) : Prop :=
  Forall (fun v => binary32 v = true) (zBuffer r).

(** One [depthTest] call on pixel [(x, y)] in state [st], whatever the
    numbers: it fails exactly when [z >= stored]; a pass stores
    [Math.fround(z)] at that pixel and touches neither another pixel's depth
    nor the pixel store; a failure changes nothing. *)
Definition depthTest_spec (st : Renderer) (x y : Z) (z : num) : Prop :=
  let res := depthTest st (ofZ x) (ofZ y) z in
  res.1 = negb (z >=? depth_at st x y)%num
  /\ (res.1 = true ->
      depth_at res.2 x y = Math_fround z
      /\ data32 res.2 = data32 st
      /\ forall x' y', 0 <= x' < width st -> 0 <= y' < height st ->
           (x', y') <> (x, y) -> depth_at res.2 x' y' = depth_at st x' y')
  /\ (res.1 = false -> res.2 = st).

(** The same call when neither [z] nor the stored depth is NaN: it passes
    exactly when [z] is strictly below the stored depth; a pass never raises
    the stored depth; and when [z] is a binary32 value a pass stores [z]
    itself, strictly below the former depth. *)
Definition depthTest_ordered (st : Renderer) (x y : Z) (z : num) : Prop :=
  let res := depthTest st (ofZ x) (ofZ y) z in
  (res.1 = true <-> (z <? depth_at st x y)%num = true)
  /\ (res.1 = true ->
      (depth_at res.2 x y <=? depth_at st x y)%num = true)
  /\ (binary32 z = true -> res.1 = true ->
      (depth_at res.2 x y =? z)%num = true
      /\ (depth_at res.2 x y <? depth_at st x y)%num = true).

(** ** Concrete scenes *)

Definition flatOptions : RendererOptions := mkOptions (Some flat) false.

(** A one-pixel canvas and a four by four canvas, freshly constructed. *)
Definition canvas1 : Renderer := newRenderer 1 1 flatOptions None None.
Definition canvas4 : Renderer := newRenderer 4 4 flatOptions None None.

(** Component-wise [===] of two vectors. *)
Definition vec3_eqb (a b : Vec3) : bool :=
  ((Vec3.x a =? Vec3.x b) && (Vec3.y a =? Vec3.y b)
   && (Vec3.z a =? Vec3.z b))%num.

Definition zeroVec : Vec3 := Vec3.mk zero zero zero.


(** [lo <= a <= hi], and the normalised device range [-1 <= a <= 1]. *)
Definition between (lo a hi : num) : bool := ((lo <=? a) && (a <=? hi))%num.

Definition lightDown : DirectionalLight :=
  DirectionalLight.mk (Vec3.mk zero zero (Fin (-1))) (Vec3.mk one one one)
                      (Fin (6 # 10)).

Definition cameraZ10 : Camera :=
  Camera.mk (Vec3.mk zero zero (Fin 10)) (Vec3.mk zero one zero).

(** A four by four canvas with camera and light, in either shading mode. *)
Definition phongCanvas4 : Renderer :=
  newRenderer 4 4 (mkOptions (Some blinn_phong) false)
              (Some cameraZ10) (Some lightDown).

Definition flatCanvas4 : Renderer :=
  newRenderer 4 4 flatOptions (Some cameraZ10) (Some lightDown).

(** A bare screen vertex. *)
Definition sv (x y z : Q) : ScreenVertex :=
  ScreenVertex.mk (Fin x) (Fin y) (Fin z) one None None None.

(** Three normals facing away from the light of [lightDown]. *)
Definition normalsAway : list num :=
  [zero; zero; Fin (-1); zero; zero; Fin (-1); zero; zero; Fin (-1)].

(** The three model-space vertices of the triangle at index [i]. *)
Definition triangleVertices (idx : list num) (i : num) (pos : list num)
  : Vec3 * Vec3 * Vec3 :=
  (vertex_at pos (ta_get idx i * Fin 3)%num,
   vertex_at pos (ta_get idx (i + Fin 1) * Fin 3)%num,
   vertex_at pos (ta_get idx (i + Fin 2) * Fin 3)%num).

(** The projected screen vertices of that triangle, before the snap. *)
Definition projectedTriangle (this : Renderer) (idx : list num) (i : num)
           (pos : list num) (mvp : Mat4)
  : option (ScreenVertex * ScreenVertex * ScreenVertex) :=
  let '(v0, v1, v2) := triangleVertices idx i pos in
  transformTriangleToScreen v0 v1 v2 mvp (ofZ (width this)) (ofZ (height this)).

(** The screen vertices on which [renderTriangle] runs its clip and cull
    tests and which it hands to the shading stage. *)
Definition screenTriangle (this : Renderer) (idx : list num) (i : num)
           (pos : list num) (mvp : Mat4)
  : option (ScreenVertex * ScreenVertex * ScreenVertex) :=
  match projectedTriangle this idx i pos mvp with
  | Some sverts => Some (snapped this sverts)
  | None => None
  end.

Definition clipped (this : Renderer)
           (t : ScreenVertex * ScreenVertex * ScreenVertex) : bool :=
  let '(s0, s1, s2) := t in
  isTriangleClipped (ScreenVertex.toVec3 s0) (ScreenVertex.toVec3 s1)
                    (ScreenVertex.toVec3 s2)
                    (ofZ (width this)) (ofZ (height this)).

Definition backFacing (t : ScreenVertex * ScreenVertex * ScreenVertex) : bool :=
  let '(s0, s1, s2) := t in (area2 s0 s1 s2 >? zero)%num.


(** A mesh of one triangle: index buffer and the three positions. *)
Definition idx012 : list num := [ofZ 0; ofZ 1; ofZ 2].

Definition positions (a b c : Q * Q * Q) : list num :=
  [Fin a.1.1; Fin a.1.2; Fin a.2;
   Fin b.1.1; Fin b.1.2; Fin b.2;
   Fin c.1.1; Fin c.1.2; Fin c.2].





(** The word stored by [setPixel] for a colour, with alpha 255. *)
Definition packedColor (this : Renderer) (c : Vec3) : Z :=
  wrap_uint32 (packRGBA this (or0 (Vec3.x c)) (or0 (Vec3.y c))
                        (or0 (Vec3.z c)) (or0 (Fin 255))).


(** A front-facing triangle covering the upper left of [flatCanvas4]: its
    screen vertices are (0, 0), (0, 3) and (3, 0). *)
Definition cornerTriangle : list num :=
  positions (-1 # 1, 1 # 1, 0%Q) (-1 # 1, -1 # 2, 0%Q) (1 # 2, 1 # 1, 0%Q).


(** * Further functions of [Math.ts], [Renderer.ts] and [Camera.ts] *)

(** A number that is neither NaN nor an infinity. *)
Definition finite (a : num) : bool :=
  match a with Fin _ => true | _ => false end.

Section MathTsMore.

Local Open Scope num_scope.

Variable Math_hypot : num -> num -> num -> num.
Variable Math_cos : num -> num.
Variable Math_sin : num -> num.

(** The three nested loops of [mat4Mul]; entry [row * 4 + col] is the sum,
    started at 0, of the four products. *)
Definition mat4Mul (a b : Mat4) : Mat4 :=
  flat_map
    (fun row : nat =>
       map (fun col : nat =>
              fold_left
                (fun sum k => sum + mget a (row * 4 + k) * mget b (k * 4 + col))
                [0; 1; 2; 3]%nat zero)
           [0; 1; 2; 3]%nat)
    [0; 1; 2; 3]%nat.

Definition mat4LookAt (eye target up : Vec3) : Mat4 :=
  let zx := Vec3.x eye - Vec3.x target in
  let zy := Vec3.y eye - Vec3.y target in
  let zz := Vec3.z eye - Vec3.z target in
  let zlen := Math_hypot zx zy zz in
  let zlen := if zlen =? zero then one else zlen in
  let zxn := zx / zlen in
  let zyn := zy / zlen in
  let zzn := zz / zlen in
  let xx := Vec3.y up * zzn - Vec3.z up * zyn in
  let xy := Vec3.z up * zxn - Vec3.x up * zzn in
  let xz := Vec3.x up * zyn - Vec3.y up * zxn in
  let xlen := Math_hypot xx xy xz in
  let xlen := if xlen =? zero then one else xlen in
  let xxn := xx / xlen in
  let xyn := xy / xlen in
  let xzn := xz / xlen in
  let yx := zyn * xzn - zzn * xyn in
  let yy := zzn * xxn - zxn * xzn in
  let yz := zxn * xyn - zyn * xxn in
  [ xxn; xyn; xzn; - (xxn * Vec3.x eye + xyn * Vec3.y eye + xzn * Vec3.z eye);
    yx; yy; yz; - (yx * Vec3.x eye + yy * Vec3.y eye + yz * Vec3.z eye);
    zxn; zyn; zzn; - (zxn * Vec3.x eye + zyn * Vec3.y eye + zzn * Vec3.z eye);
    zero; zero; zero; one ].

Definition mat4RotateY (angle : num) : Mat4 :=
  let c := Math_cos angle in
  let s := Math_sin angle in
  [ c; zero; s; zero;
    zero; one; zero; zero;
    - s; zero; c; zero;
    zero; zero; zero; one ].

(** The object returned by [interpolateAttrs]. *)
Record Attrs : Type := mkAttrs {
  at_z : num;
  at_recipW : num;
  at_color : num * num * num;
  at_normal : option Vec3;
  at_uv : option (num * num)
}.

Definition white : num * num * num := (Fin 255, Fin 255, Fin 255).

Definition interpolateAttrs (vStart vEnd : ScreenVertex) (y : num) : Attrs :=
  if ScreenVertex.y vEnd =? ScreenVertex.y vStart then
    mkAttrs (ScreenVertex.z vStart) (ScreenVertex.recipW vStart)
            (default white (ScreenVertex.color vStart))
            (ScreenVertex.normal vStart) (ScreenVertex.uv vStart)
  else
    let t := (y - ScreenVertex.y vStart)
             / (ScreenVertex.y vEnd - ScreenVertex.y vStart) in
    let lerp a b := a + (b - a) * t in
    let z := lerp (ScreenVertex.z vStart) (ScreenVertex.z vEnd) in
    let recipW := lerp (ScreenVertex.recipW vStart) (ScreenVertex.recipW vEnd) in
    let color :=
      match ScreenVertex.color vStart, ScreenVertex.color vEnd with
      | Some (r0, g0, b0), Some (r1, g1, b1) =>
          (lerp r0 r1, lerp g0 g1, lerp b0 b1)
      | _, _ => white
      end in
    let normal :=
      match ScreenVertex.normal vStart, ScreenVertex.normal vEnd with
      | Some n0, Some n1 =>
          Some (Vec3.mk (lerp (Vec3.x n0) (Vec3.x n1))
                        (lerp (Vec3.y n0) (Vec3.y n1))
                        (lerp (Vec3.z n0) (Vec3.z n1)))
      | _, _ => None
      end in
    let uv :=
      match ScreenVertex.uv vStart, ScreenVertex.uv vEnd with
      | Some (u0, w0), Some (u1, w1) => Some (lerp u0 u1, lerp w0 w1)
      | _, _ => None
      end in
    mkAttrs z recipW color normal uv.

Definition boundingBoxCenter (bmin bmax : Vec3) : Vec3 :=
  Vec3.mk ((Vec3.x bmin + Vec3.x bmax) / Fin 2)
          ((Vec3.y bmin + Vec3.y bmax) / Fin 2)
          ((Vec3.z bmin + Vec3.z bmax) / Fin 2).

Definition vadd (a b : Vec3) : Vec3 :=
  Vec3.mk (Vec3.x a + Vec3.x b) (Vec3.y a + Vec3.y b) (Vec3.z a + Vec3.z b).

Definition vscale (a : Vec3) (s : num) : Vec3 :=
  Vec3.mk (Vec3.x a * s) (Vec3.y a * s) (Vec3.z a * s).

End MathTsMore.

(** ** [Camera.ts] *)

Module CameraClass.

Record t : Type := mk {
  position : Vec3;
  up : Vec3;
  speed : num;
  yaw : num;
  pitch : num
}.

(** The part of the camera object that the renderer reads. *)
Definition toCamera (c : t) : Camera := Camera.mk (position c) (up c).

Definition set_position (c : t) (p : Vec3) : t :=
  mk p (up c) (speed c) (yaw c) (pitch c).

Section Methods.

Local Open Scope num_scope.

Variable Math_hypot : num -> num -> num -> num.
Variable Math_cos : num -> num.
Variable Math_sin : num -> num.

Definition getForwardVector (this : t) : Vec3 :=
  let cosPitch := Math_cos (pitch this) in
  Vec3.mk (Math_cos (yaw this) * cosPitch)
          (Math_sin (pitch this))
          (Math_sin (yaw this) * cosPitch).

Definition getRightVector (this : t) : Vec3 :=
  let forward := getForwardVector this in
  vnorm Math_hypot (vcross forward (up this)).

Definition moveForward (this : t) : t :=
  let forward := getForwardVector this in
  set_position this (vadd (position this) (vscale forward (speed this))).

Definition moveBackward (this : t) : t :=
  let forward := getForwardVector this in
  set_position this (vsub (position this) (vscale forward (speed this))).

Definition moveLeft (this : t) : t :=
  let right := getRightVector this in
  set_position this (vsub (position this) (vscale right (speed this))).

Definition moveRight (this : t) : t :=
  let right := getRightVector this in
  set_position this (vadd (position this) (vscale right (speed this))).

Definition rotateY (this : t) (angle : num) : t :=
  mk (position this) (up this) (speed this) (yaw this + angle) (pitch this).

End Methods.

End CameraClass.

(** ** [renderMesh] *)

(** A mesh as [renderMesh] reads it. *)
Record MeshData : Type := mkMesh {
  positions_of : list num;
  normals_of : list num;
  uvs_of : option (list num);
  indices_of : list num
}.

Section Mesh.

Variable Math_hypot : num -> num -> num -> num.

(** The values of [i] in [for (let i = 0; i < idx.length; i += 3)]. *)
Definition triangleStarts (n : nat) : list num :=
  map (fun k : nat => ofZ (Z.of_nat (3 * k))) (seq 0 (Nat.div (n + 2) 3)).

(** The second loop of [renderMesh]; the first only collects the values of
    [i].  An exception leaves the loop. *)
Definition renderMesh (this : Renderer) (mesh : MeshData) (mvp modelMat : Mat4)
  : result Renderer :=
  fold_left
    (fun acc i =>
       bind acc (fun this =>
         renderTriangle Math_hypot this (indices_of mesh) i (positions_of mesh)
                        (normals_of mesh) (uvs_of mesh) mvp modelMat))
    (triangleStarts (length (indices_of mesh)))
    (Ok this).

End Mesh.

(** ** Vocabulary of the further statements *)

(** Entry-wise [===] of two arrays of numbers of the same length. *)
Fixpoint nums_eqb (a b : list num) : bool :=
  match a, b with
  | [], [] => true
  | x :: a', y :: b' => (x =? y)%num && nums_eqb a' b'
  | _, _ => false
  end.

Definition vec4_eqb (a b : Vec4) : bool :=
  ((Vec4.x a =? Vec4.x b) && (Vec4.y a =? Vec4.y b)
   && (Vec4.z a =? Vec4.z b) && (Vec4.w a =? Vec4.w b))%num.

(** Sixteen finite entries. *)
Definition finiteMat (m : Mat4) : bool :=
  (length m =? 16)%nat && forallb finite m.

Definition finiteVec3 (v : Vec3) : bool :=
  finite (Vec3.x v) && finite (Vec3.y v) && finite (Vec3.z v).

Definition finiteVec4 (v : Vec4) : bool :=
  finite (Vec4.x v) && finite (Vec4.y v) && finite (Vec4.z v)
  && finite (Vec4.w v).

(** A finite sample matrix: the projection of a square screen with
    [f = 2], [near = 1], [far = 3]. *)
Definition sampleProj : Mat4 :=
  map Fin [2; 0; 0; 0;  0; 2; 0; 0;  0; 0; -2; -3;  0; 0; -1; 0]%Q.

(** Executable stand-ins for [Math.cos] and [Math.sin] (first terms of
    their series), used only to run the model on concrete inputs. *)
Definition cos_run (a : num) : num := (Fin 1 - a * a / Fin 2)%num.
Definition sin_run (a : num) : num := (a - a * a * a / Fin 6)%num.

(** Byte [n / 8] of a 32-bit word, counted from the least significant. *)
Definition byte_at (w n : Z) : Z := Z.land (Z.shiftr w n) 255.

(** The bytes of one [Uint32Array] cell in memory order, which is how the
    [Uint8ClampedArray] view [buf8] over the same buffer shows it, on a
    little-endian ([le = true]) or big-endian platform. *)
Definition word_bytes (le : bool) (w : Z) : list Z :=
  if le then [byte_at w 0; byte_at w 8; byte_at w 16; byte_at w 24]
  else [byte_at w 24; byte_at w 16; byte_at w 8; byte_at w 0].

(** The constructor's probe of the byte order: [tmp8[0] === 0x0d] for the
    word [0x0a0b0c0d]. *)
Definition detectLittleEndian (le : bool) : bool :=
  match word_bytes le 0x0a0b0c0d with
  | b0 :: _ => b0 =? 0x0d
  | [] => false
  end.

(** [buf8], the byte view of the pixel store. *)
Definition buf8 (le : bool) (this : Renderer) : list Z :=
  flat_map (word_bytes le) (data32 this).

(** The four shifted channels of [packRGBA] each occupy one byte. *)
Definition channel_layout (c : Z) : bool :=
  let v := toInt32 (ofZ c) in
  forallb (fun s =>
             forallb (fun n => byte_at (if s =? 0 then v else int32_shl v s) n
                               =? (if n =? s then c else 0))
                     [0; 8; 16; 24])
          [0; 8; 16; 24].

(** [r'] is the renderer [r] with possibly other contents of its two
    buffers: dimensions, byte order, options, camera, light and the buffer
    sizes are those of [r]. *)
Definition same_canvas (r r' : Renderer) : Prop :=
  width r' = width r /\ height r' = height r
  /\ littleEndian r' = littleEndian r /\ options r' = options r
  /\ mainCamera r' = mainCamera r
  /\ mainDirectionalLight r' = mainDirectionalLight r
  /\ length (zBuffer r') = length (zBuffer r)
  /\ length (data32 r') = length (data32 r).

(** Pixel [(x, y)] has in [r'] a depth that is not above the one it has in
    [r]. *)
Definition not_raised (r r' : Renderer) (x y : Z) : Prop :=
  (depth_at r' x y <=? depth_at r x y)%num = true.

(** Pixel [(x, y)] has in [r'] the depth and colour it has in [r], or the
    colour word [c] and a depth that is not above the one it has in [r]. *)
Definition kept_or_painted (c : Z) (r r' : Renderer) (x y : Z) : Prop :=
  (depth_at r' x y = depth_at r x y /\ pixel_at r' x y = pixel_at r x y)
  \/ ((depth_at r' x y <=? depth_at r x y)%num = true
      /\ pixel_at r' x y = Some c).

(** A finite number of magnitude at most [2^e]. *)
Definition within (e : Z) (a : num) : bool :=
  match a with
  | Fin q => Qle_bool (Qabs q) (pow2 e)
  | _ => false
  end.

(** A screen vertex whose position and depth are finite and of magnitude at
    most [2^1000]: the differences and products that the fill forms of such
    vertices do not overflow in binary64. *)
Definition boundedSV (s : ScreenVertex) : bool :=
  within 1000 (ScreenVertex.x s) && within 1000 (ScreenVertex.y s)
  && within 1000 (ScreenVertex.z s).

(** Zero, or a finite number of magnitude between [2^-100] and [2^100]:
    from such entries and coordinates the projection forms neither an
    infinity nor, by a quotient that underflows, a zero divisor. *)
Definition moderate (a : num) : bool :=
  match a with
  | Fin q =>
      Qeq_bool q 0
      || (Qle_bool (pow2 (-100)) (Qabs q) && Qle_bool (Qabs q) (pow2 100))
  | _ => false
  end.

(** A matrix of sixteen such entries. *)
Definition moderateMat (m : Mat4) : bool :=
  (length m =? 16)%nat && forallb moderate m.

(** A screen vertex with finite position and depth. *)
Definition finiteSV (s : ScreenVertex) : bool :=
  finite (ScreenVertex.x s) && finite (ScreenVertex.y s)
  && finite (ScreenVertex.z s).

(** The unit roundoff of binary64, the factor that [k] roundings can
    contribute to a product or quotient, a value [x] that is the number [y]
    up to such a factor, and a number of magnitude between [2^a] and
    [2^b]. *)
Definition roundoff : Q := pow2 (-53).

Definition growth (k : Z) : Q := ((/ (1 - roundoff)) ^ k)%Q.

Definition approx (k : Z) (x y : Q) : Prop :=
  exists t : Q, (x == y * t)%Q /\ (growth (- k) <= t)%Q /\ (t <= growth k)%Q.

Definition magnitude (a b : Z) (y : Q) : Prop :=
  (pow2 a <= Qabs y)%Q /\ (Qabs y <= pow2 b)%Q.

(** The binary64 number nearest to 0.1, the near plane of the renderer's
    own camera. *)
Definition tenth64 : Q := 3602879701896397 # 36028797018963968.







(** The point [(x, y)] lies in the triangle of the screen positions of
    three vertices, edges included: it is a combination of the three
    positions with non-negative weights of sum 1. *)
Definition insideTriangle (v0 v1 v2 : ScreenVertex) (x y : Q) : Prop :=
  exists x0 y0 x1 y1 x2 y2 w0 w1 w2 : Q,
    ScreenVertex.x v0 = Fin x0 /\ ScreenVertex.y v0 = Fin y0
    /\ ScreenVertex.x v1 = Fin x1 /\ ScreenVertex.y v1 = Fin y1
    /\ ScreenVertex.x v2 = Fin x2 /\ ScreenVertex.y v2 = Fin y2
    /\ (0 <= w0)%Q /\ (0 <= w1)%Q /\ (0 <= w2)%Q /\ (w0 + w1 + w2 == 1)%Q
    /\ (x == w0 * x0 + w1 * x1 + w2 * x2)%Q
    /\ (y == w0 * y0 + w1 * y1 + w2 * y2)%Q.

(** A vertex whose [x] is finite and of magnitude at most [X]. *)
Definition xWithin (X : Q) (s : ScreenVertex) : bool :=
  match ScreenVertex.x s with
  | Fin q => Qle_bool (Qabs q) X
  | _ => false
  end.

(** The pixel [(kx, ky)] lies in the triangle, and so do the points at the
    distance [m] to its left and to its right, where [m] is at least the
    fraction [2^-40] of [1 + X] and [X] bounds the [x] of the vertices.
    The rounding of an edge intersection in binary64 is far below [m]. *)
Definition insideBy (m X : Q) (a b c : ScreenVertex) (kx ky : Z) : Prop :=
  xWithin X a = true /\ xWithin X b = true /\ xWithin X c = true
  /\ (pow2 (-40) * (1 + X) <= m)%Q
  /\ insideTriangle a b c (inject_Z kx - m) (inject_Z ky)
  /\ insideTriangle a b c (inject_Z kx + m) (inject_Z ky).

(** A screen vertex with another depth. *)
Definition with_z (s : ScreenVertex) (z : num) : ScreenVertex :=
  ScreenVertex.mk (ScreenVertex.x s) (ScreenVertex.y s) z
                  (ScreenVertex.recipW s) (ScreenVertex.color s)
                  (ScreenVertex.normal s) (ScreenVertex.uv s).

(** A pixel visit of a fill at an on-screen integer position with a depth
    other than NaN. *)
Definition plottable (w h : Z) (f : num * num * num) : Prop :=
  exists (qx qy : Q) (kx ky : Z),
    f.1.1 = Fin qx /\ f.1.2 = Fin qy
    /\ (qx == inject_Z kx)%Q /\ (qy == inject_Z ky)%Q
    /\ 0 <= kx < w /\ 0 <= ky < h /\ is_nan f.2 = false.

(** The scene object that the shading mode dereferences is set: the light
    for flat shading, the camera for Blinn-Phong shading. *)
Definition sceneSet (this : Renderer) : bool :=
  match shading (options this) with
  | Some flat => bool_decide (is_Some (mainDirectionalLight this))
  | Some blinn_phong => bool_decide (is_Some (mainCamera this))
  | _ => true
  end.

(** An entry of the index buffer that names a vertex of the position
    array [pos]. *)
Definition validIndex (pos : list num) (j : num) : Prop :=
  exists n : Z, j = ofZ n /\ 0 <= n /\ 3 * n + 2 < Z.of_nat (length pos).

(** A screen vertex that is finite, or whose [y] is NaN. *)
Definition fillable (s : ScreenVertex) : Prop :=
  finiteSV s = true \/ ScreenVertex.y s = NaN.

(** The mesh of the one triangle [cornerTriangle]. *)
Definition cornerMesh : MeshData :=
  mkMesh cornerTriangle normalsAway None idx012.

(** A colour channel as the lighting functions return it: NaN, or a number
    from 0 to 255. *)
Definition channel_ok (c : num) : bool :=
  is_nan c || between zero c (Fin 255).

(** ** The keyboard listener of [Camera.ts] *)

From Stdlib Require String.
Import String.StringSyntax.
Delimit Scope string_scope with string.

Section Keyboard.

Variable Math_hypot : num -> num -> num -> num.
Variable Math_cos : num -> num.
Variable Math_sin : num -> num.

(** The [keydown] listener installed by [initKeyboardControls], as a
    function of [event.key]. *)
Definition keydown (key : String.string) (this : CameraClass.t)
  : CameraClass.t :=
  if String.eqb key "w"%string then
    CameraClass.moveForward Math_cos Math_sin this
  else if String.eqb key "s"%string then
    CameraClass.moveBackward Math_cos Math_sin this
  else if String.eqb key "a"%string then
    CameraClass.moveLeft Math_hypot Math_cos Math_sin this
  else if String.eqb key "d"%string then
    CameraClass.moveRight Math_hypot Math_cos Math_sin this
  else if String.eqb key "ArrowRight"%string then
    CameraClass.rotateY this (Fin (1 # 10))
  else if String.eqb key "ArrowLeft"%string then
    CameraClass.rotateY this (Fin (-1 # 10))
  else this.

End Keyboard.

(** The camera of the example page, looking along [x]. *)
Definition sampleCamera : CameraClass.t :=
  CameraClass.mk (Vec3.mk (Fin (-50)) zero zero) (Vec3.mk zero one zero)
                 one zero zero.

(** A vector with a NaN among its coordinates. *)
Definition hasNaN (v : Vec3) : bool :=
  is_nan (Vec3.x v) || is_nan (Vec3.y v) || is_nan (Vec3.z v).

(** A mesh whose index buffer lacks the third index of its triangle. *)
Definition shortMesh : MeshData :=
  mkMesh cornerTriangle normalsAway None [ofZ 0; ofZ 1].

(** A fill visits pixel [(x, y)]. *)
Definition visits (fs : list (num * num * num)) (x y : Z) : Prop :=
  exists (qx qy : Q) (z : num),
    In (Fin qx, Fin qy, z) fs
    /\ (qx == inject_Z x)%Q /\ (qy == inject_Z y)%Q.

(** ** [renderPixel] *)

(** The fields that [renderPixel] reads besides those of [Renderer]: the
    camera object with its angles, the projection matrix precomputed by the
    constructor, and the loaded models, each a list of meshes. *)
Record Scene : Type := mkScene {
  sc_renderer : Renderer;
  sc_camera : option CameraClass.t;
  sc_projMatrix : Mat4;
  sc_objModels : list (list MeshData)
}.

(** The renderer of a scene; its camera field is the camera object of the
    scene. *)
Definition rendererOf (sc : Scene) : Renderer :=
  mkRenderer (width (sc_renderer sc)) (height (sc_renderer sc))
             (littleEndian (sc_renderer sc)) (data32 (sc_renderer sc))
             (zBuffer (sc_renderer sc)) (options (sc_renderer sc))
             (option_map CameraClass.toCamera (sc_camera sc))
             (mainDirectionalLight (sc_renderer sc)).

Section Frame.

Variable Math_hypot : num -> num -> num -> num.
Variable Math_cos : num -> num.
Variable Math_sin : num -> num.

Local Open Scope num_scope.

(** The matrix [mvp] that [renderPixel] computes for a camera. *)
Definition frameMvp (proj : Mat4) (cam : CameraClass.t) (time : num) : Mat4 :=
  let modelMat := mat4RotateY Math_cos Math_sin time in
  let forward := CameraClass.getForwardVector Math_cos Math_sin cam in
  let target :=
    Vec3.mk (Vec3.x (CameraClass.position cam) + Vec3.x forward)
            (Vec3.y (CameraClass.position cam) + Vec3.y forward)
            (Vec3.z (CameraClass.position cam) + Vec3.z forward) in
  let view := mat4LookAt Math_hypot (CameraClass.position cam) target
                         (CameraClass.up cam) in
  let mv := mat4Mul view modelMat in
  mat4Mul proj mv.

(** [renderPixel]: the two nested loops run over the meshes of all models
    in order; an exception leaves them.  The copy of the pixel store to the
    canvas at the end does not change the renderer. *)
Definition renderPixel (sc : Scene) (time : num) : result Renderer :=
  let this := rendererOf sc in
  let modelMat := mat4RotateY Math_cos Math_sin time in
  let* cam := deref (sc_camera sc) in
  let mvp := frameMvp (sc_projMatrix sc) cam time in
  fold_left
    (fun acc mesh =>
       bind acc (fun this => renderMesh Math_hypot this mesh mvp modelMat))
    (concat (sc_objModels sc))
    (Ok this).

End Frame.

(** The scene of the example page on a four by four canvas: the camera of
    [sampleCamera], the light of [lightDown], flat shading, the projection
    [sampleProj] and one model with the mesh [cornerMesh]. *)
Definition sampleScene : Scene :=
  mkScene (newRenderer 4 4 flatOptions None (Some lightDown))
          (Some sampleCamera) sampleProj [[cornerMesh]].

(** * Properties *)

(** ** Numbers *)

(** The number model on values where JavaScript is easy to run by hand. *)
Example round_half_up :
  Math_round (Fin (5 # 2)) = ofZ 3 /\ Math_round (Fin (-5 # 2)) = ofZ (-2)
  /\ Math_round (Fin (-1 # 5)) = ofZ 0.
Proof. repeat split. Qed.

Example toInt32_wraps :
  toInt32 (ofZ (2 ^ 31)) = - 2 ^ 31 /\ toInt32 (Fin (-7 # 2)) = -3
  /\ toInt32 NaN = 0 /\ toInt32 PInf = 0.
Proof. repeat split. Qed.

Example special_values :
  (Fin 1 / Fin 0)%num = PInf /\ (Fin 0 / Fin 0)%num = NaN
  /\ (PInf - PInf)%num = NaN /\ (Fin 0 * PInf)%num = NaN
  /\ (NaN >=? PInf)%num = false /\ Math_max zero NaN = NaN
  /\ num_or NaN one = one.
Proof. repeat split. Qed.

Example pack_little_endian :
  wrap_uint32 (packRGBA canvas1 (Fin 200) (Fin 120) (Fin 60) (Fin 255))
  = 0xFF3C78C8.
Proof. reflexivity. Qed.

Example typed_array_access :
  ta_get [Fin 7; Fin 8] (Fin 1) = Fin 8
  /\ ta_get [Fin 7; Fin 8] (Fin 2) = NaN
  /\ ta_get [Fin 7; Fin 8] (Fin (1 # 2)) = NaN
  /\ ta_set [Fin 7; Fin 8] (Fin (-1)) zero = [Fin 7; Fin 8].
Proof. repeat split. Qed.

Lemma num_ge_not_lt (a b : num) :
  is_nan a = false -> is_nan b = false -> (a >=? b)%num = negb (a <? b)%num.
Proof.
  destruct a, b; simpl; try reflexivity; try discriminate.
  intros _ _. now rewrite negb_involutive.
Qed.

Lemma Qle_bool_total (p q : Q) : Qle_bool p q = false -> Qle_bool q p = true.
Proof.
  unfold Qle_bool. intros H. apply Z.leb_gt in H. apply Z.leb_le. lia.
Qed.


Lemma ta_index_int (len : nat) (q : Q) (k : Z) :
  (q == inject_Z k)%Q -> 0 <= k < Z.of_nat len ->
  ta_index len (Fin q) = Some (Z.to_nat k).
Proof.
  intros Hq Hk. unfold ta_index.
  assert (Hf : Qfloor q = k) by (rewrite Hq; apply Qfloor_Z).
  rewrite Hf.
  assert (H1 : Qeq_bool (inject_Z k) q = true)
    by (apply Qeq_bool_iff; symmetry; exact Hq).
  rewrite H1.
  destruct (Z.leb_spec 0 k); [|lia].
  destruct (Z.ltb_spec k (Z.of_nat len)); [|lia].
  reflexivity.
Qed.

Lemma pixel_index_eq (x y w : Z) :
  (ofZ y * ofZ w + ofZ x)%num = Fin (inject_Z y * inject_Z w + inject_Z x).
Proof. reflexivity. Qed.

Lemma pixel_index_Qeq (x y w : Z) :
  (inject_Z y * inject_Z w + inject_Z x == inject_Z (y * w + x))%Q.
Proof. rewrite inject_Z_plus, inject_Z_mult. reflexivity. Qed.

Lemma pixel_in_buffer (w h x y : Z) :
  0 <= x < w -> 0 <= y < h -> 0 <= y * w + x < w * h.
Proof. nia. Qed.

(** ** Rounding to a binary format *)

Section Rounding.

Local Open Scope Q_scope.

Lemma pow2_pos e : 0 < pow2 e.
Proof. apply Qpower_0_lt. reflexivity. Qed.

Lemma pow2_add a b : pow2 (a + b) == pow2 a * pow2 b.
Proof. apply Qpower_plus. discriminate. Qed.

Lemma pow2_le a b : (a <= b)%Z -> pow2 a <= pow2 b.
Proof. intros H. apply Qpower_le_compat_l; [exact H | discriminate]. Qed.

Lemma pow2_lt a b : (a < b)%Z -> pow2 a < pow2 b.
Proof. intros H. apply Qpower_lt_compat_l; [exact H | reflexivity]. Qed.

Lemma pow2_lt_inv a b : pow2 a < pow2 b -> (a < b)%Z.
Proof. intros H. apply (Qpower_lt_compat_l_inv 2); [exact H | reflexivity]. Qed.

Lemma pow2_Z e : (0 <= e)%Z -> pow2 e == inject_Z (2 ^ e).
Proof. intros H. unfold pow2. rewrite Zpower_Qpower by exact H. reflexivity. Qed.

Lemma pow2_succ e : pow2 (e + 1) == 2 * pow2 e.
Proof. rewrite pow2_add. unfold pow2 at 2. rewrite Qpower_1_r. ring. Qed.

Lemma pow2_sub a b : pow2 (a - b) == pow2 a / pow2 b.
Proof. apply Qpower_minus. discriminate. Qed.

Lemma Qlog2_spec q : 0 < q -> pow2 (Qlog2 q) <= q /\ q < pow2 (Qlog2 q + 1).
Proof.
  intros Hq. destruct q as [n d]. unfold Qlog2. cbn [Qnum Qden].
  assert (Hn : (0 < n)%Z).
  { unfold Qlt in Hq. simpl in Hq. lia. }
  set (a := Z.log2 n). set (b := Z.log2 (Z.pos d)).
  destruct (Z.log2_spec n Hn) as [Ha1 Ha2]. fold a in Ha1, Ha2.
  destruct (Z.log2_spec (Z.pos d) ltac:(lia)) as [Hb1 Hb2]. fold b in Hb1, Hb2.
  assert (Ha0 : (0 <= a)%Z) by apply Z.log2_nonneg.
  assert (Hb0 : (0 <= b)%Z) by apply Z.log2_nonneg.
  assert (Hq' : n # d == inject_Z n / inject_Z (Z.pos d)) by apply Qmake_Qdiv.
  assert (Hd : 0 < inject_Z (Z.pos d)) by (unfold Qlt; simpl; lia).
  assert (Hlow : pow2 (a - b - 1) <= n # d).
  { rewrite Hq'. apply Qle_shift_div_l; [exact Hd|].
    assert (E : pow2 (a - b - 1) == pow2 a / pow2 (b + 1)).
    { replace (a - b - 1)%Z with (a - (b + 1))%Z by lia. apply pow2_sub. }
    rewrite E, (pow2_Z a), (pow2_Z (b + 1)) by lia.
    unfold Qdiv. rewrite <- Qmult_assoc, (Qmult_comm (/ _)), Qmult_assoc.
    apply Qle_shift_div_r.
    { unfold Qlt; simpl. assert (0 < 2 ^ (b + 1))%Z by (apply Z.pow_pos_nonneg; lia). lia. }
    rewrite <- !inject_Z_mult, <- Zle_Qle.
    replace (Z.succ b) with (b + 1)%Z in Hb2 by lia. nia. }
  assert (Hup : n # d < pow2 (a - b + 1)).
  { rewrite Hq'. apply Qlt_shift_div_r; [exact Hd|].
    assert (E : pow2 (a - b + 1) == pow2 (a + 1) / pow2 b).
    { replace (a - b + 1)%Z with (a + 1 - b)%Z by lia. apply pow2_sub. }
    rewrite E, (pow2_Z (a + 1)), (pow2_Z b) by lia.
    unfold Qdiv. rewrite <- Qmult_assoc, (Qmult_comm (/ _)), Qmult_assoc.
    apply Qlt_shift_div_l.
    { unfold Qlt; simpl. assert (0 < 2 ^ b)%Z by (apply Z.pow_pos_nonneg; lia). lia. }
    rewrite <- !inject_Z_mult, <- Zlt_Qlt.
    replace (Z.succ a) with (a + 1)%Z in Ha2 by lia.
    assert (0 < 2 ^ b)%Z by (apply Z.pow_pos_nonneg; lia). nia. }
  destruct (Qle_bool (pow2 (a - b)) (n # d)) eqn:E.
  - apply Qle_bool_iff in E. split; [exact E | exact Hup].
  - split; [exact Hlow|].
    replace (a - b - 1 + 1)%Z with (a - b)%Z by lia.
    apply Qnot_le_lt. intros H. apply Qle_bool_iff in H. congruence.
Qed.

Lemma Qlog2_unique q k : pow2 k <= q -> q < pow2 (k + 1) -> Qlog2 q = k.
Proof.
  intros H1 H2.
  assert (Hq : 0 < q) by (eapply Qlt_le_trans; [apply (pow2_pos k) | exact H1]).
  destruct (Qlog2_spec q Hq) as [L1 L2].
  assert (A : (Qlog2 q < k + 1)%Z).
  { apply pow2_lt_inv. eapply Qle_lt_trans; eassumption. }
  assert (B : (k < Qlog2 q + 1)%Z).
  { apply pow2_lt_inv. eapply Qle_lt_trans; eassumption. }
  lia.
Qed.

Lemma Qlog2_mono x y : 0 < x -> x <= y -> (Qlog2 x <= Qlog2 y)%Z.
Proof.
  intros Hx Hxy.
  assert (Hy : 0 < y) by (eapply Qlt_le_trans; eassumption).
  destruct (Qlog2_spec x Hx) as [L1 _]. destruct (Qlog2_spec y Hy) as [_ L2].
  assert (A : (Qlog2 x < Qlog2 y + 1)%Z).
  { apply pow2_lt_inv. eapply Qle_lt_trans; [exact L1|].
    eapply Qle_lt_trans; eassumption. }
  lia.
Qed.

Lemma Qlog2_comp x y : x == y -> 0 < x -> Qlog2 x = Qlog2 y.
Proof.
  intros E Hx. symmetry. destruct (Qlog2_spec x Hx) as [L1 L2].
  apply Qlog2_unique; rewrite <- E; assumption.
Qed.

(** round_even *)

Lemma round_even_cases x :
  let f := Qfloor x in
  (round_even x = f /\ x - inject_Z f <= 1 # 2
   /\ (x - inject_Z f == 1 # 2 -> Z.even f = true))
  \/ (round_even x = (f + 1)%Z /\ 1 # 2 <= x - inject_Z f
      /\ (x - inject_Z f == 1 # 2 -> Z.even f = false)).
Proof.
  cbv zeta. unfold round_even.
  destruct (Qcompare_spec (x - inject_Z (Qfloor x)) (1 # 2)) as [E|E|E].
  - destruct (Z.even (Qfloor x)) eqn:Ev.
    + left. split; [reflexivity|]. split; [rewrite E; apply Qle_refl | auto].
    + right. split; [reflexivity|]. split; [rewrite E; apply Qle_refl | auto].
  - left. split; [reflexivity|]. split; [apply Qlt_le_weak; exact E|].
    intros E'. rewrite E' in E. discriminate.
  - right. split; [reflexivity|]. split; [apply Qlt_le_weak; exact E|].
    intros E'. rewrite E' in E. discriminate.
Qed.

Lemma round_even_error x :
  - (1 # 2) <= inject_Z (round_even x) - x <= 1 # 2.
Proof.
  pose proof (Qfloor_le x) as F1. pose proof (Qlt_floor x) as F2.
  rewrite inject_Z_plus in F2. change (inject_Z 1) with 1 in F2.
  destruct (round_even_cases x) as [(-> & H & _) | (-> & H & _)].
  - split; lra.
  - rewrite inject_Z_plus. change (inject_Z 1) with 1. split; lra.
Qed.

Lemma round_even_Z x k : x == inject_Z k -> round_even x = k.
Proof.
  intros E.
  assert (F : Qfloor x = k) by (rewrite E; apply Qfloor_Z).
  destruct (round_even_cases x) as [(-> & _) | (_ & H & _)].
  - exact F.
  - rewrite F, E in H. lra.
Qed.

Lemma round_even_mono x y : x <= y -> (round_even x <= round_even y)%Z.
Proof.
  intros Hxy.
  assert (Hf : (Qfloor x <= Qfloor y)%Z) by (apply Qfloor_resp_le; exact Hxy).
  destruct (round_even_cases x) as [(-> & Hx & Ex) | (-> & Hx & Ex)];
    destruct (round_even_cases y) as [(-> & Hy & Ey) | (-> & Hy & Ey)];
    try lia.
  (* round x = fx + 1, round y = fy *)
  destruct (Z.eq_dec (Qfloor x) (Qfloor y)) as [E|N]; [|lia].
  exfalso. rewrite E in *.
  assert (Hx' : x - inject_Z (Qfloor y) == 1 # 2) by lra.
  assert (Hy' : y - inject_Z (Qfloor y) == 1 # 2) by lra.
  rewrite (Ex Hx') in Ey. specialize (Ey Hy'). discriminate.
Qed.

Lemma round_even_comp x y : x == y -> round_even x = round_even y.
Proof.
  intros E. apply Z.le_antisymm; apply round_even_mono; rewrite E; apply Qle_refl.
Qed.

Section RoundMag.

Variables prec emin : Z.
Hypothesis Hprec : (1 <= prec)%Z.

Let ulp_of (a : Q) : Q := pow2 (Z.max (Qlog2 a) emin - prec + 1).

Lemma round_mag_eq a :
  round_mag prec emin a = inject_Z (round_even (a / ulp_of a)) * ulp_of a.
Proof. reflexivity. Qed.

Lemma scaled_round_bounds (u x : Q) (a b : Z) :
  0 < u -> inject_Z a * u <= x -> x <= inject_Z b * u ->
  (a <= round_even (x / u) <= b)%Z.
Proof.
  intros Hu H1 H2. split.
  - assert (M : inject_Z a <= x / u) by (apply Qle_shift_div_l; assumption).
    apply round_even_mono in M.
    rewrite (round_even_Z (inject_Z a) a) in M by reflexivity. exact M.
  - assert (M : x / u <= inject_Z b) by (apply Qle_shift_div_r; assumption).
    apply round_even_mono in M.
    rewrite (round_even_Z (inject_Z b) b) in M by reflexivity. exact M.
Qed.

Lemma pow2_ulp e : pow2 e == inject_Z (2 ^ (prec - 1)) * pow2 (e - prec + 1).
Proof.
  rewrite <- pow2_Z by lia. rewrite <- pow2_add.
  replace (prec - 1 + (e - prec + 1))%Z with e by lia. reflexivity.
Qed.

Lemma pow2_ulp_succ e :
  pow2 (e + 1) == inject_Z (2 ^ prec) * pow2 (e - prec + 1).
Proof.
  rewrite <- pow2_Z by lia. rewrite <- pow2_add.
  replace (prec + (e - prec + 1))%Z with (e + 1)%Z by lia. reflexivity.
Qed.

(** The significand of a value in the normal range. *)
Lemma round_mag_normal a :
  0 < a -> (emin <= Qlog2 a)%Z ->
  let e := Qlog2 a in
  let m := round_even (a / pow2 (e - prec + 1)) in
  round_mag prec emin a = inject_Z m * pow2 (e - prec + 1)
  /\ (2 ^ (prec - 1) <= m <= 2 ^ prec)%Z.
Proof.
  intros Ha He. cbv zeta. unfold round_mag.
  rewrite Z.max_l by exact He. split; [reflexivity|].
  destruct (Qlog2_spec a Ha) as [L1 L2].
  apply scaled_round_bounds.
  - apply pow2_pos.
  - rewrite <- (pow2_ulp (Qlog2 a)). exact L1.
  - rewrite <- (pow2_ulp_succ (Qlog2 a)). apply Qlt_le_weak. exact L2.
Qed.

(** The significand of a value below the normal range. *)
Lemma round_mag_subnormal a :
  0 < a -> (Qlog2 a < emin)%Z ->
  let m := round_even (a / pow2 (emin - prec + 1)) in
  round_mag prec emin a = inject_Z m * pow2 (emin - prec + 1)
  /\ (0 <= m <= 2 ^ (prec - 1))%Z.
Proof.
  intros Ha He. cbv zeta. unfold round_mag.
  rewrite Z.max_r by lia. split; [reflexivity|].
  destruct (Qlog2_spec a Ha) as [L1 L2].
  apply scaled_round_bounds.
  - apply pow2_pos.
  - change (inject_Z 0) with 0. rewrite Qmult_0_l. apply Qlt_le_weak. exact Ha.
  - rewrite <- (pow2_ulp emin). apply Qlt_le_weak. eapply Qlt_le_trans; [exact L2|].
    apply pow2_le. lia.
Qed.

Lemma round_mag_range a :
  0 < a ->
  let e := Z.max (Qlog2 a) emin in
  0 <= round_mag prec emin a <= pow2 (e + 1)
  /\ ((emin <= Qlog2 a)%Z -> pow2 e <= round_mag prec emin a).
Proof.
  intros Ha. cbv zeta.
  destruct (Z_le_gt_dec emin (Qlog2 a)) as [He|He].
  - destruct (round_mag_normal a Ha He) as [-> [M1 M2]].
    rewrite Z.max_l by exact He.
    set (m := round_even _) in *. set (u := pow2 (Qlog2 a - prec + 1)).
    assert (Hu : 0 < u) by apply pow2_pos.
    assert (L : pow2 (Qlog2 a) <= inject_Z m * u).
    { rewrite (pow2_ulp (Qlog2 a)). fold u. apply Qmult_le_compat_r; [|lra].
      rewrite <- Zle_Qle. exact M1. }
    split; [split|].
    + eapply Qle_trans; [|exact L]. apply Qlt_le_weak, pow2_pos.
    + rewrite (pow2_ulp_succ (Qlog2 a)). fold u. apply Qmult_le_compat_r; [|lra].
      rewrite <- Zle_Qle. exact M2.
    + intros _. exact L.
  - destruct (round_mag_subnormal a Ha ltac:(lia)) as [-> [M1 M2]].
    rewrite Z.max_r by lia.
    set (m := round_even _) in *. set (u := pow2 (emin - prec + 1)).
    assert (Hu : 0 < u) by apply pow2_pos.
    split; [split|].
    + apply Qmult_le_0_compat; [|lra]. change 0 with (inject_Z 0).
      rewrite <- Zle_Qle. exact M1.
    + eapply Qle_trans; [|apply pow2_le; apply Z.le_succ_diag_r].
      rewrite (pow2_ulp emin). fold u. apply Qmult_le_compat_r; [|lra].
      rewrite <- Zle_Qle. exact M2.
    + intros H. lia.
Qed.

Lemma round_mag_mono x y :
  0 < x -> x <= y -> round_mag prec emin x <= round_mag prec emin y.
Proof.
  intros Hx Hxy.
  assert (Hy : 0 < y) by (eapply Qlt_le_trans; eassumption).
  pose proof (Qlog2_mono x y Hx Hxy) as Hl.
  destruct (Z.eq_dec (Z.max (Qlog2 x) emin) (Z.max (Qlog2 y) emin)) as [E|N].
  - unfold round_mag. rewrite E.
    set (u := pow2 _). assert (Hu : 0 < u) by apply pow2_pos.
    apply Qmult_le_compat_r; [|lra]. rewrite <- Zle_Qle.
    apply round_even_mono. apply Qmult_le_compat_r; [exact Hxy|].
    apply Qlt_le_weak, Qinv_lt_0_compat, Hu.
  - assert (Hlt : (Z.max (Qlog2 x) emin < Qlog2 y)%Z) by lia.
    destruct (round_mag_range x Hx) as [[_ U] _].
    destruct (round_mag_range y Hy) as [_ L].
    specialize (L ltac:(lia)). rewrite Z.max_l in L by lia.
    eapply Qle_trans; [exact U|]. eapply Qle_trans; [|exact L].
    apply pow2_le. lia.
Qed.

Lemma round_mag_comp x y :
  0 < x -> x == y -> round_mag prec emin x == round_mag prec emin y.
Proof.
  intros Hx E. assert (Hy : 0 < y) by (rewrite <- E; exact Hx).
  apply Qle_antisym; apply round_mag_mono; try assumption;
    rewrite E; apply Qle_refl.
Qed.

(** A value of the format rounds to itself. *)
Lemma round_mag_fixed (m e : Z) :
  (0 < m <= 2 ^ prec)%Z -> (emin <= e)%Z ->
  ((2 ^ (prec - 1) <= m)%Z \/ e = emin) ->
  let a := inject_Z m * pow2 (e - prec + 1) in
  round_mag prec emin a == a.
Proof.
  intros Hm He Hn a.
  assert (Hu : 0 < pow2 (e - prec + 1)) by apply pow2_pos.
  assert (Ha : 0 < a).
  { unfold a. apply Qmult_lt_0_compat; [|exact Hu].
    change 0 with (inject_Z 0). rewrite <- Zlt_Qlt. lia. }
  assert (Hup : a <= pow2 (e + 1)).
  { unfold a. rewrite (pow2_ulp_succ e). apply Qmult_le_compat_r; [|lra].
    rewrite <- Zle_Qle. lia. }
  destruct (Z.eq_dec m (2 ^ prec)%Z) as [Em|Nm].
  - (* the significand 2^prec is that of the next binade *)
    assert (Ea : a == pow2 (e + 1)).
    { unfold a. rewrite Em. symmetry. apply (pow2_ulp_succ e). }
    assert (El : Qlog2 a = (e + 1)%Z).
    { apply Qlog2_unique; rewrite Ea; [apply Qle_refl | apply pow2_lt; lia]. }
    unfold round_mag. rewrite El, Z.max_l by lia.
    rewrite (round_even_Z _ (2 ^ (prec - 1))%Z).
    + rewrite Ea. symmetry. apply (pow2_ulp (e + 1)).
    + rewrite Ea. rewrite (pow2_ulp (e + 1)) at 1.
      field. apply Qnot_eq_sym, Qlt_not_eq, pow2_pos.
  - assert (Hlt : a < pow2 (e + 1)).
    { unfold a. rewrite (pow2_ulp_succ e). apply Qmult_lt_compat_r; [exact Hu|].
      rewrite <- Zlt_Qlt. lia. }
    assert (Emax : Z.max (Qlog2 a) emin = e).
    { destruct Hn as [Hn| ->].
      - assert (El : Qlog2 a = e).
        { apply Qlog2_unique; [|exact Hlt]. unfold a. rewrite (pow2_ulp e).
          apply Qmult_le_compat_r; [|lra]. rewrite <- Zle_Qle. exact Hn. }
        rewrite El. lia.
      - destruct (Qlog2_spec a Ha) as [L1 _].
        assert (Qlog2 a < emin + 1)%Z.
        { apply pow2_lt_inv. eapply Qle_lt_trans; eassumption. }
        lia. }
    unfold round_mag. rewrite Emax.
    rewrite (round_even_Z _ m); [reflexivity|].
    unfold a. field. apply Qnot_eq_sym, Qlt_not_eq, Hu.
Qed.

Lemma round_mag_idem a :
  0 < a -> 0 < round_mag prec emin a ->
  round_mag prec emin (round_mag prec emin a) == round_mag prec emin a.
Proof.
  intros Ha Hr.
  destruct (Z_le_gt_dec emin (Qlog2 a)) as [He|He].
  - destruct (round_mag_normal a Ha He) as [E [M1 M2]].
    rewrite E in *. apply round_mag_fixed; [|exact He|left; exact M1].
    assert (0 < 2 ^ (prec - 1))%Z by (apply Z.pow_pos_nonneg; lia). lia.
  - destruct (round_mag_subnormal a Ha ltac:(lia)) as [E [M1 M2]].
    rewrite E in *. set (m := round_even _) in *.
    assert (Hm : (0 < m)%Z).
    { destruct (Z.eq_dec m 0%Z) as [Z0|]; [|lia]. exfalso.
      rewrite Z0 in Hr. change (inject_Z 0) with 0 in Hr.
      rewrite Qmult_0_l in Hr. discriminate. }
    apply round_mag_fixed; [|lia|right; reflexivity].
    split; [exact Hm|]. eapply Z.le_trans; [exact M2|].
    apply Z.pow_le_mono_r; lia.
Qed.

(** Relative error of a value in the normal range. *)
Lemma round_mag_error a :
  0 < a -> (emin <= Qlog2 a)%Z ->
  Qabs (round_mag prec emin a - a) <= pow2 (- prec) * a.
Proof.
  intros Ha He. destruct (Qlog2_spec a Ha) as [L1 _].
  unfold round_mag. rewrite Z.max_l by exact He.
  set (u := pow2 (Qlog2 a - prec + 1)).
  assert (Hu : 0 < u) by apply pow2_pos.
  pose proof (round_even_error (a / u)) as [E1 E2].
  set (m := inject_Z (round_even (a / u))) in *.
  assert (Eu : pow2 (- prec) * pow2 (Qlog2 a) == u * (1 # 2)).
  { rewrite <- pow2_add. unfold u.
    replace (Qlog2 a - prec + 1)%Z with ((- prec + Qlog2 a) + 1)%Z by lia.
    rewrite pow2_succ. field. }
  assert (Hp : 0 < pow2 (- prec)) by apply pow2_pos.
  assert (B : u * (1 # 2) <= pow2 (- prec) * a).
  { rewrite <- Eu. apply Qmult_le_l; assumption. }
  assert (Em : m * u - a == (m - a / u) * u).
  { field. apply Qnot_eq_sym, Qlt_not_eq, Hu. }
  rewrite Em. rewrite Qabs_Qmult. rewrite (Qabs_pos u) by lra.
  eapply Qle_trans; [|exact B]. rewrite (Qmult_comm u).
  apply Qmult_le_compat_r; [|lra]. apply Qabs_Qle_condition. split; lra.
Qed.

End RoundMag.

End Rounding.


(** *** The rounded number *)

Section RoundBinary.

Variables prec emin emax : Z.
Hypothesis Hprec : (1 <= prec)%Z.

Local Open Scope Q_scope.

Lemma Qeq_bool_false (a b : Q) : ~ a == b -> Qeq_bool a b = false.
Proof.
  intros H. destruct (Qeq_bool a b) eqn:E; [|reflexivity].
  exfalso. apply H. apply Qeq_bool_iff. exact E.
Qed.

Lemma Qabs_pos_lt (q : Q) : ~ q == 0 -> 0 < Qabs q.
Proof.
  intros Hq. destruct (Qlt_le_dec 0 (Qabs q)) as [H|H]; [exact H|].
  exfalso. apply Hq. pose proof (Qabs_nonneg q) as N.
  assert (E : Qabs q == 0) by (apply Qle_antisym; assumption).
  destruct (Qlt_le_dec q 0) as [L|L].
  - rewrite (Qabs_neg q) in E by (apply Qlt_le_weak; exact L). lra.
  - rewrite (Qabs_pos q) in E by exact L. exact E.
Qed.

(** The value of [round_binary] away from zero: an infinity when the
    rounded magnitude reaches [2^emax], the signed rounded magnitude
    otherwise. *)
Lemma round_binary_view (q : Q) :
  ~ q == 0 ->
  let r := round_mag prec emin (Qabs q) in
  (pow2 emax <= r
   /\ round_binary prec emin emax q = (if Qle_bool 0 q then PInf else NInf))
  \/ (r < pow2 emax
      /\ exists v, round_binary prec emin emax q = Fin v
                   /\ v == (if Qle_bool 0 q then r else - r)).
Proof.
  intros Hq. cbv zeta. unfold round_binary.
  rewrite (Qeq_bool_false q 0 Hq). cbv zeta.
  destruct (Qle_bool (pow2 emax) (Qred (round_mag prec emin (Qabs q)))) eqn:E.
  - left. apply Qle_bool_iff in E. rewrite Qred_correct in E. auto.
  - right. split.
    + apply Qnot_le_lt. intros H. rewrite <- (Qred_correct (round_mag _ _ _)) in H.
      apply Qle_bool_iff in H. congruence.
    + eexists. split; [reflexivity|].
      destruct (Qle_bool 0 q); rewrite Qred_correct; reflexivity.
Qed.

Lemma Qle_bool_pos (q : Q) : 0 < q -> Qle_bool 0 q = true.
Proof. intros H. apply Qle_bool_iff, Qlt_le_weak, H. Qed.

Lemma Qle_bool_neg (q : Q) : q < 0 -> Qle_bool 0 q = false.
Proof.
  intros H. apply not_true_iff_false. intros E. apply Qle_bool_iff in E. lra.
Qed.

Lemma round_mag_nonneg (a : Q) : 0 < a -> 0 <= round_mag prec emin a.
Proof. intros Ha. apply (round_mag_range prec emin Hprec a Ha). Qed.

(** Rounding is monotone. *)
Lemma round_binary_mono (p q : Q) :
  p <= q ->
  num_le (round_binary prec emin emax p) (round_binary prec emin emax q)
  = true.
Proof.
  intros Hpq.
  destruct (Qeq_dec p 0) as [Ep|Np].
  - (* p is zero *)
    unfold round_binary at 1. rewrite (proj2 (Qeq_bool_iff p 0) Ep).
    destruct (Qeq_dec q 0) as [Eq|Nq].
    + unfold round_binary. rewrite (proj2 (Qeq_bool_iff q 0) Eq). reflexivity.
    + assert (Hq : 0 < q) by (destruct (Qlt_le_dec 0 q) as [H|H];
        [exact H | exfalso; apply Nq; lra]).
      destruct (round_binary_view q Nq) as [[_ ->] | (_ & v & -> & Ev)];
        rewrite (Qle_bool_pos q Hq) in *; [reflexivity|].
      apply Qle_bool_iff. rewrite Ev. apply round_mag_nonneg.
      rewrite Qabs_pos by lra. exact Hq.
  - destruct (Qlt_le_dec p 0) as [Lp|Lp].
    + (* p is negative *)
      destruct (round_binary_view p Np) as [[_ ->] | (Bp & vp & -> & Evp)];
        rewrite (Qle_bool_neg p Lp) in *.
      { destruct (round_binary prec emin emax q) eqn:E; try reflexivity.
        exfalso. unfold round_binary in E.
        destruct (Qeq_bool q 0); [discriminate|]. cbv zeta in E.
        destruct (Qle_bool (pow2 emax) _); destruct (Qle_bool 0 q);
          discriminate. }
      assert (Hrp : 0 <= round_mag prec emin (Qabs p)).
      { apply round_mag_nonneg. apply Qabs_pos_lt. exact Np. }
      destruct (Qeq_dec q 0) as [Eq|Nq].
      { unfold round_binary. rewrite (proj2 (Qeq_bool_iff q 0) Eq).
        apply Qle_bool_iff. rewrite Evp. lra. }
      destruct (Qlt_le_dec q 0) as [Lq|Lq].
      * (* both negative *)
        assert (Hm : round_mag prec emin (Qabs q)
                     <= round_mag prec emin (Qabs p)).
        { apply (round_mag_mono prec emin Hprec).
          - apply Qabs_pos_lt. exact Nq.
          - rewrite !Qabs_neg by lra. lra. }
        destruct (round_binary_view q Nq) as [[Bq _] | (Bq & vq & -> & Evq)];
          rewrite ?(Qle_bool_neg q Lq) in *.
        -- exfalso. lra.
        -- apply Qle_bool_iff. rewrite Evp, Evq. lra.
      * (* q is positive *)
        assert (Hq : 0 < q) by (destruct (Qlt_le_dec 0 q) as [H|H];
          [exact H | exfalso; apply Nq; lra]).
        destruct (round_binary_view q Nq) as [[_ ->] | (_ & vq & -> & Evq)];
          rewrite (Qle_bool_pos q Hq) in *; [reflexivity|].
        apply Qle_bool_iff. rewrite Evp, Evq.
        assert (0 <= round_mag prec emin (Qabs q)).
        { apply round_mag_nonneg. apply Qabs_pos_lt. exact Nq. }
        lra.
    + (* p is positive *)
      assert (Hp : 0 < p) by (destruct (Qlt_le_dec 0 p) as [H|H];
        [exact H | exfalso; apply Np; lra]).
      assert (Hq : 0 < q) by lra.
      assert (Nq : ~ q == 0) by lra.
      assert (Hm : round_mag prec emin (Qabs p)
                   <= round_mag prec emin (Qabs q)).
      { apply (round_mag_mono prec emin Hprec).
        - apply Qabs_pos_lt. exact Np.
        - rewrite !Qabs_pos by lra. exact Hpq. }
      destruct (round_binary_view q Nq) as [[_ ->] | (Bq & vq & -> & Evq)];
        rewrite (Qle_bool_pos q Hq) in *.
      { destruct (round_binary prec emin emax p) eqn:E; try reflexivity.
        exfalso. unfold round_binary in E.
        destruct (Qeq_bool p 0); [discriminate|]. cbv zeta in E.
        rewrite (Qle_bool_pos p Hp) in E.
        destruct (Qle_bool (pow2 emax) _); discriminate. }
      destruct (round_binary_view p Np) as [[Bp _] | (Bp & vp & -> & Evp)];
        rewrite ?(Qle_bool_pos p Hp) in *.
      * exfalso. lra.
      * apply Qle_bool_iff. rewrite Evp, Evq. exact Hm.
Qed.

(** Rounding respects the equality of rationals. *)
Lemma round_binary_comp (p q : Q) :
  p == q ->
  num_eqb (round_binary prec emin emax p) (round_binary prec emin emax q)
  = true.
Proof.
  intros E.
  assert (H1 : num_le (round_binary prec emin emax p)
                      (round_binary prec emin emax q) = true)
    by (apply round_binary_mono; rewrite E; apply Qle_refl).
  assert (H2 : num_le (round_binary prec emin emax q)
                      (round_binary prec emin emax p) = true)
    by (apply round_binary_mono; rewrite E; apply Qle_refl).
  destruct (round_binary prec emin emax p), (round_binary prec emin emax q);
    try discriminate; try reflexivity.
  cbn [num_le num_eqb] in *. apply Qle_bool_iff in H1, H2.
  apply Qeq_bool_iff. apply Qle_antisym; assumption.
Qed.

(** A rounded value rounds to itself. *)
Lemma round_binary_idem (q v : Q) :
  round_binary prec emin emax q = Fin v ->
  num_eqb (round_binary prec emin emax v) (Fin v) = true.
Proof.
  intros E.
  destruct (Qeq_dec q 0) as [Eq|Nq].
  { unfold round_binary in E. rewrite (proj2 (Qeq_bool_iff q 0) Eq) in E.
    injection E as <-. reflexivity. }
  destruct (round_binary_view q Nq) as [[_ E'] | (Bq & v' & E' & Ev)];
    rewrite E' in E; [destruct (Qle_bool 0 q); discriminate|].
  injection E as <-.
  set (a := Qabs q) in *.
  assert (Ha : 0 < a) by (apply Qabs_pos_lt; exact Nq).
  set (r := round_mag prec emin a) in *.
  assert (Hr : 0 <= r) by (apply round_mag_nonneg; exact Ha).
  destruct (Qeq_dec r 0) as [Er|Nr].
  { assert (Ev0 : v' == 0) by (destruct (Qle_bool 0 q); rewrite Ev, Er; reflexivity).
    unfold round_binary. rewrite (proj2 (Qeq_bool_iff v' 0) Ev0).
    cbn [num_eqb]. apply Qeq_bool_iff. symmetry. exact Ev0. }
  assert (Hr' : 0 < r) by lra.
  assert (Nv : ~ v' == 0) by (destruct (Qle_bool 0 q); rewrite Ev; lra).
  assert (Eabs : Qabs v' == r).
  { destruct (Qle_bool 0 q); rewrite Ev.
    - apply Qabs_pos. exact Hr.
    - rewrite Qabs_opp. apply Qabs_pos. exact Hr. }
  assert (Eid : round_mag prec emin (Qabs v') == r).
  { rewrite (round_mag_comp prec emin Hprec (Qabs v') r);
      [| rewrite Eabs; exact Hr' | exact Eabs].
    apply (round_mag_idem prec emin Hprec a Ha Hr'). }
  destruct (round_binary_view v' Nv) as [[B _] | (_ & w & -> & Ew)].
  { exfalso. rewrite Eid in B. lra. }
  cbn [num_eqb]. apply Qeq_bool_iff. rewrite Ew.
  destruct (Qle_bool 0 q) eqn:Sq.
  - rewrite (Qle_bool_pos v') by (rewrite Ev; exact Hr').
    rewrite Eid, Ev. reflexivity.
  - rewrite (Qle_bool_neg v') by (rewrite Ev; lra).
    rewrite Eid, Ev. reflexivity.
Qed.

(** A value of the normal range that does not overflow is rounded with a
    relative error of at most [2^-prec]. *)
Lemma round_binary_error (q : Q) (k : Z) :
  pow2 emin <= Qabs q -> Qabs q < pow2 k -> (k < emax)%Z ->
  exists v, round_binary prec emin emax q = Fin v
            /\ Qabs (v - q) <= pow2 (- prec) * Qabs q
            /\ Qabs v <= pow2 k.
Proof.
  intros Hlo Hhi Hk.
  assert (Ha : 0 < Qabs q).
  { eapply Qlt_le_trans; [apply (pow2_pos emin) | exact Hlo]. }
  assert (Nq : ~ q == 0).
  { intros E. rewrite E in Ha. discriminate. }
  assert (Hl : (emin <= Qlog2 (Qabs q))%Z).
  { destruct (Qlog2_spec _ Ha) as [_ L2].
    assert (emin < Qlog2 (Qabs q) + 1)%Z; [|lia].
    apply pow2_lt_inv. eapply Qle_lt_trans; eassumption. }
  assert (Hl' : (Qlog2 (Qabs q) < k)%Z).
  { destruct (Qlog2_spec _ Ha) as [L1 _].
    apply pow2_lt_inv. eapply Qle_lt_trans; eassumption. }
  pose proof (round_mag_error prec emin _ Ha Hl) as Herr.
  destruct (round_mag_range prec emin Hprec _ Ha) as [[R0 R1] _].
  rewrite Z.max_l in R1 by exact Hl.
  assert (R2 : round_mag prec emin (Qabs q) <= pow2 k).
  { eapply Qle_trans; [exact R1|]. apply pow2_le. lia. }
  assert (R3 : pow2 k < pow2 emax) by (apply pow2_lt; exact Hk).
  destruct (round_binary_view q Nq) as [[B _] | (_ & v & -> & Ev)].
  { exfalso. lra. }
  exists v. split; [reflexivity|].
  set (r := round_mag prec emin (Qabs q)) in *.
  destruct (Qlt_le_dec q 0) as [Lq|Lq].
  - rewrite (Qle_bool_neg q Lq) in Ev. rewrite Ev.
    rewrite (Qabs_neg q) in * by lra. split.
    + assert (E : - r - q == - (r - - q)) by ring.
      rewrite E, Qabs_opp. exact Herr.
    + rewrite Qabs_opp, Qabs_pos by exact R0. exact R2.
  - assert (Hq : 0 < q) by (destruct (Qlt_le_dec 0 q) as [H|H];
      [exact H | exfalso; apply Nq; lra]).
    rewrite (Qle_bool_pos q Hq) in Ev. rewrite Ev.
    rewrite (Qabs_pos q) in * by lra. split; [exact Herr|].
    rewrite Qabs_pos by exact R0. exact R2.
Qed.

End RoundBinary.

(** *** [Math.fround] *)

Lemma Math_fround_nan (z : num) : is_nan (Math_fround z) = is_nan z.
Proof.
  destruct z as [| | |q]; try reflexivity. cbn [Math_fround is_nan].
  unfold round_binary. destruct (Qeq_bool q 0); [reflexivity|]. cbv zeta.
  destruct (Qle_bool _ _); [destruct (Qle_bool 0 q)|]; reflexivity.
Qed.

Lemma Math_fround_mono (a b : num) :
  (a <=? b)%num = true -> (Math_fround a <=? Math_fround b)%num = true.
Proof.
  destruct a as [| | |p], b as [| | |q]; try discriminate; try reflexivity;
    cbn [Math_fround num_le].
  - intros _. destruct (round_binary 24 (-126) 128 q) eqn:E; try reflexivity.
    exfalso. unfold round_binary in E. destruct (Qeq_bool q 0); [discriminate|].
    cbv zeta in E.
    destruct (Qle_bool _ _); [destruct (Qle_bool 0 q)|]; discriminate.
  - intros _. destruct (round_binary 24 (-126) 128 p) eqn:E; try reflexivity.
    exfalso. unfold round_binary in E. destruct (Qeq_bool p 0); [discriminate|].
    cbv zeta in E.
    destruct (Qle_bool _ _); [destruct (Qle_bool 0 p)|]; discriminate.
  - intros H. apply Qle_bool_iff in H. apply round_binary_mono; [lia | exact H].
Qed.

(** What [Math.fround] returns is a binary32 value. *)
Lemma Math_fround_binary32 (z : num) : binary32 (Math_fround z) = true.
Proof.
  destruct (Math_fround z) as [| | |v] eqn:E; try reflexivity.
  destruct z as [| | |q]; try discriminate. cbn [Math_fround] in E.
  unfold binary32. cbn [Math_fround].
  apply (round_binary_idem 24 (-126) 128 ltac:(lia) q v E).
Qed.

(** A depth below a binary32 value is not rounded above it. *)
Lemma Math_fround_below (z c : num) :
  binary32 c = true -> (z <? c)%num = true ->
  (Math_fround z <=? c)%num = true.
Proof.
  intros Hc Hlt.
  assert (Hle : (z <=? c)%num = true).
  { destruct z, c; try discriminate; try reflexivity.
    cbn [num_lt num_le] in *. apply negb_true_iff in Hlt.
    apply Qle_bool_iff. apply Qlt_le_weak, Qnot_le_lt.
    intros H. apply Qle_bool_iff in H. congruence. }
  apply Math_fround_mono in Hle.
  destruct c as [| | |qc]; try exact Hle; try discriminate.
  unfold binary32 in Hc.
  destruct (Math_fround (Fin qc)) as [| | |v]; try discriminate.
  destruct (Math_fround z) as [| | |w]; try discriminate; try reflexivity.
  cbn [num_le num_eqb] in *. apply Qle_bool_iff. apply Qle_bool_iff in Hle.
  apply Qeq_bool_iff in Hc. rewrite <- Hc. exact Hle.
Qed.

(** A binary32 value is stored as it is. *)
Lemma Math_fround_fixed (z : num) :
  binary32 z = true -> is_nan z = false -> (Math_fround z =? z)%num = true.
Proof.
  destruct z; try discriminate; try reflexivity. intros H _. exact H.
Qed.

(** ** The depth buffer *)

Lemma ta_set_length {A : Type} (buf : list A) (i : num) (v : A) :
  length (ta_set buf i v) = length buf.
Proof.
  unfold ta_set. destruct (ta_index (length buf) i); [apply length_insert | reflexivity].
Qed.

Lemma ta_get_pixel (zb : list num) (w h x y : Z) :
  length zb = Z.to_nat (w * h) -> 0 <= x < w -> 0 <= y < h ->
  ta_get zb (ofZ y * ofZ w + ofZ x)%num
  = default NaN (zb !! Z.to_nat (y * w + x)).
Proof.
  intros Hlen Hx Hy. unfold ta_get. rewrite pixel_index_eq.
  rewrite (ta_index_int _ _ (y * w + x)); [reflexivity | apply pixel_index_Qeq |].
  rewrite Hlen. pose proof (pixel_in_buffer w h x y Hx Hy). lia.
Qed.

Lemma ta_set_pixel {A : Type} (buf : list A) (w h x y : Z) (v : A) :
  length buf = Z.to_nat (w * h) -> 0 <= x < w -> 0 <= y < h ->
  ta_set buf (ofZ y * ofZ w + ofZ x)%num v
  = <[Z.to_nat (y * w + x) := v]> buf.
Proof.
  intros Hlen Hx Hy. unfold ta_set. rewrite pixel_index_eq.
  rewrite (ta_index_int _ _ (y * w + x)); [reflexivity | apply pixel_index_Qeq |].
  rewrite Hlen. pose proof (pixel_in_buffer w h x y Hx Hy). lia.
Qed.

Lemma ta_set_Forall (P : num -> Prop) (zb : list num) (i v : num) :
  Forall P zb -> P v -> Forall P (ta_set zb i v).
Proof.
  intros Hzb Hv. unfold ta_set.
  destruct (ta_index (length zb) i); [|exact Hzb].
  apply Forall_insert; assumption.
Qed.

Lemma clearZ_defined (r : Renderer) : depth_defined (clearZ r).
Proof.
  unfold depth_defined, clearZ, ta_fill. simpl.
  apply Forall_replicate. reflexivity.
Qed.

Lemma clearZ_binary32 (r : Renderer) : depth_binary32 (clearZ r).
Proof.
  unfold depth_binary32, clearZ, ta_fill. simpl.
  apply Forall_replicate. reflexivity.
Qed.

Lemma clearZ_sized (r : Renderer) : sized r -> sized (clearZ r).
Proof.
  unfold sized, clearZ, ta_fill. simpl. rewrite length_replicate. tauto.
Qed.

(** What [depthTest] keeps, whatever its arguments. *)
Lemma depthTest_frame (r : Renderer) (x y z : num) :
  let r' := (depthTest r x y z).2 in
  width r' = width r /\ height r' = height r /\ data32 r' = data32 r
  /\ length (zBuffer r') = length (zBuffer r)
  /\ (is_nan z = false -> depth_defined r -> depth_defined r').
Proof.
  unfold depthTest.
  destruct (z >=? ta_get (zBuffer r) (y * ofZ (width r) + x))%num; simpl.
  - tauto.
  - rewrite ta_set_length. repeat split; try reflexivity.
    intros Hz Hd. apply ta_set_Forall; [exact Hd|].
    rewrite Math_fround_nan. exact Hz.
Qed.

(** The depth buffer holds binary32 values, whatever is passed. *)
Lemma depthTest_binary32 (r : Renderer) (x y z : num) :
  depth_binary32 r -> depth_binary32 (depthTest r x y z).2.
Proof.
  intros Hb. unfold depthTest.
  destruct (z >=? ta_get (zBuffer r) (y * ofZ (width r) + x))%num; simpl.
  - exact Hb.
  - apply ta_set_Forall; [exact Hb | apply Math_fround_binary32].
Qed.

Lemma depthTests_frame (calls : list (num * num * num)) (r : Renderer) :
  let r' := depthTests r calls in
  width r' = width r /\ height r' = height r /\ data32 r' = data32 r
  /\ length (zBuffer r') = length (zBuffer r)
  /\ (depths_defined calls -> depth_defined r -> depth_defined r')
  /\ (depth_binary32 r -> depth_binary32 r').
Proof.
  revert r. induction calls as [|c calls IH]; intros r; simpl.
  - tauto.
  - destruct (depthTest_frame r c.1.1 c.1.2 c.2)
      as (Hw & Hh & Hd & Hl & Hn).
    pose proof (depthTest_binary32 r c.1.1 c.1.2 c.2) as Hb.
    destruct (IH (depthTest r c.1.1 c.1.2 c.2).2)
      as (Hw' & Hh' & Hd' & Hl' & Hn' & Hb').
    unfold depthTests in *. simpl in *.
    rewrite Hw', Hh', Hd', Hl', Hw, Hh, Hd, Hl.
    repeat split; try reflexivity.
    + intros Hc H0. inversion Hc as [|c' calls' Hz Hcs]; subst.
      apply Hn'; [exact Hcs|]. apply Hn; assumption.
    + intros H0. apply Hb', Hb, H0.
Qed.

Lemma sized_frame (r r' : Renderer) :
  width r' = width r -> height r' = height r -> data32 r' = data32 r ->
  length (zBuffer r') = length (zBuffer r) -> sized r -> sized r'.
Proof.
  unfold sized. intros -> -> -> ->. tauto.
Qed.

Lemma pixel_index_inj (w x y x' y' : Z) :
  0 <= x < w -> 0 <= x' < w -> 0 <= y -> 0 <= y' ->
  Z.to_nat (y * w + x) = Z.to_nat (y' * w + x') -> (x', y') = (x, y).
Proof.
  intros Hx Hx' Hy Hy' E.
  assert (E' : y * w + x = y' * w + x') by nia.
  assert (y = y') by nia. subst y'. f_equal; lia.
Qed.

(** [depthTest] on an in-bounds pixel of a renderer with one depth cell per
    pixel, whatever the depth passed and the depth stored. *)
Lemma depthTest_at_pixel (st : Renderer) (x y : Z) (z : num) :
  sized st -> 0 <= x < width st -> 0 <= y < height st ->
  depthTest_spec st x y z.
Proof.
  intros (Hw & Hh & Hlen & _) Hx Hy.
  assert (Hk : (Z.to_nat (y * width st + x) < length (zBuffer st))%nat).
  { rewrite Hlen. pose proof (pixel_in_buffer _ _ x y Hx Hy). lia. }
  unfold depthTest_spec, depthTest. fold (depth_at st x y).
  destruct (z >=? depth_at st x y)%num; cbn [fst snd negb].
  - split; [reflexivity|]. split; [discriminate | reflexivity].
  - split; [reflexivity|]. split; [|discriminate]. intros _.
    rewrite (ta_set_pixel _ _ (height st)) by assumption.
    split; [|split; [reflexivity|]].
    + unfold depth_at, set_zBuffer. cbn [zBuffer width].
      rewrite (ta_get_pixel _ _ (height st));
        [| rewrite length_insert; assumption | assumption | assumption].
      rewrite list_lookup_insert_eq by exact Hk. reflexivity.
    + intros x' y' Hx' Hy' Hne. unfold depth_at, set_zBuffer.
      cbn [zBuffer width].
      rewrite !(ta_get_pixel _ _ (height st));
        try assumption; [| rewrite length_insert; assumption].
      rewrite list_lookup_insert_ne; [reflexivity|].
      intros E. apply Hne. apply (pixel_index_inj (width st)); try lia.
Qed.

(** The stored depth of an in-bounds pixel is one of the cells. *)
Lemma depth_at_cell (st : Renderer) (x y : Z) (P : num -> Prop) :
  sized st -> 0 <= x < width st -> 0 <= y < height st ->
  Forall P (zBuffer st) -> P (depth_at st x y).
Proof.
  intros (Hw & Hh & Hlen & _) Hx Hy HP.
  assert (Hk : (Z.to_nat (y * width st + x) < length (zBuffer st))%nat).
  { rewrite Hlen. pose proof (pixel_in_buffer _ _ x y Hx Hy). lia. }
  destruct (lookup_lt_is_Some_2 _ _ Hk) as [c Hc].
  unfold depth_at. rewrite (ta_get_pixel _ _ (height st)) by assumption.
  rewrite Hc. exact (proj1 (Forall_lookup _ _) HP _ _ Hc).
Qed.

(** On a renderer with one depth cell per pixel and no NaN in the depth
    buffer, [depthTest] on an in-bounds pixel with a depth other than NaN is
    the strict comparison with the stored depth; a pass stores the binary32
    value nearest to the depth. *)
Lemma depthTest_in_bounds (st : Renderer) (x y : Z) (z : num) :
  sized st -> depth_defined st ->
  0 <= x < width st -> 0 <= y < height st -> is_nan z = false ->
  let res := depthTest st (ofZ x) (ofZ y) z in
  (res.1 = true <-> (z <? depth_at st x y)%num = true)
  /\ (res.1 = true ->
      depth_at res.2 x y = Math_fround z
      /\ data32 res.2 = data32 st
      /\ forall x' y', 0 <= x' < width st -> 0 <= y' < height st ->
           (x', y') <> (x, y) -> depth_at res.2 x' y' = depth_at st x' y')
  /\ (res.1 = false -> res.2 = st).
Proof.
  intros Hs Hdef Hx Hy Hz.
  destruct (depthTest_at_pixel st x y z Hs Hx Hy) as (E & Hp & Hf).
  assert (Hc : is_nan (depth_at st x y) = false)
    by (apply (depth_at_cell st x y (fun v => is_nan v = false)); assumption).
  cbv zeta. rewrite (num_ge_not_lt z _ Hz Hc), negb_involutive in E.
  split; [rewrite E; tauto|]. split; assumption.
Qed.

(** With binary32 values in the depth buffer a pass never raises the stored
    depth; a binary32 depth is stored as it is, and then lowers it. *)
Lemma depthTest_in_order (st : Renderer) (x y : Z) (z : num) :
  sized st -> depth_defined st -> depth_binary32 st ->
  0 <= x < width st -> 0 <= y < height st -> is_nan z = false ->
  depthTest_ordered st x y z.
Proof.
  intros Hs Hdef Hb Hx Hy Hz.
  destruct (depthTest_in_bounds st x y z Hs Hdef Hx Hy Hz) as (Hiff & Hp & _).
  assert (Hc : binary32 (depth_at st x y) = true)
    by (apply (depth_at_cell st x y (fun v => binary32 v = true)); assumption).
  unfold depthTest_ordered. cbv zeta in *.
  split; [exact Hiff|]. split.
  - intros Hpass. destruct (Hp Hpass) as (-> & _).
    apply Math_fround_below; [exact Hc | apply Hiff; exact Hpass].
  - intros Hz32 Hpass. destruct (Hp Hpass) as (-> & _).
    pose proof (Math_fround_fixed z Hz32 Hz) as Ez. split; [exact Ez|].
    apply Hiff in Hpass. revert Ez Hpass.
    destruct (Math_fround z) as [| | |v], z as [| | |q],
      (depth_at st x y) as [| | |c];
      try discriminate; try reflexivity; cbn [num_eqb num_lt].
    intros Ez Hlt. apply Qeq_bool_iff in Ez. apply negb_true_iff in Hlt.
    apply negb_true_iff. apply not_true_iff_false. intros H.
    apply not_true_iff_false in Hlt. apply Hlt.
    apply Qle_bool_iff. apply Qle_bool_iff in H. rewrite <- Ez. exact H.
Qed.

(** C1, as amended.  [clearZ] sets the depth of every pixel to [+Infinity].
    For every in-bounds pixel [(x, y)], every sequence of [depthTest] calls
    after [clearZ] (any coordinates, any depths) and every [z], the call
    [depthTest(x, y, z)] fails exactly when [z >= stored]; on a true result
    the stored depth at [(x, y)] becomes [Math.fround(z)], the binary32
    value nearest to [z], while the other pixels' depths and the pixel store
    are kept; on a false result the renderer is unchanged.  When no NaN was
    passed, the stored depth is not NaN, the call returns true exactly when
    [z] is strictly less than it, and a pass never raises it; when moreover
    [z] is a binary32 value, a pass stores [z] itself, strictly below the
    former depth. *)
Theorem depthTest_after_clearZ
        (r : Renderer) (calls : list (num * num * num)) (x y : Z) (z : num) :
  sized r ->
  0 <= x < width r -> 0 <= y < height r ->
  depth_at (clearZ r) x y = PInf
  /\ depthTest_spec (depthTests (clearZ r) calls) x y z
  /\ (depths_defined calls -> is_nan z = false ->
      is_nan (depth_at (depthTests (clearZ r) calls) x y) = false
      /\ depthTest_ordered (depthTests (clearZ r) calls) x y z).
Proof.
  intros Hs Hx Hy.
  destruct (depthTests_frame calls (clearZ r)) as (Hw & Hh & Hd & Hl & Hn & Hb).
  assert (Hs' : sized (depthTests (clearZ r) calls)).
  { apply (sized_frame (clearZ r)); try assumption. now apply clearZ_sized. }
  assert (Hx' : 0 <= x < width (depthTests (clearZ r) calls))
    by (rewrite Hw; exact Hx).
  assert (Hy' : 0 <= y < height (depthTests (clearZ r) calls))
    by (rewrite Hh; exact Hy).
  split.
  { apply (depth_at_cell (clearZ r) x y (fun v => v = PInf));
      [now apply clearZ_sized | exact Hx | exact Hy |].
    unfold clearZ, ta_fill. simpl. apply Forall_replicate. reflexivity. }
  split; [apply depthTest_at_pixel; assumption|].
  intros Hc Hz.
  pose proof (Hn Hc (clearZ_defined r)) as Hdef.
  split.
  - apply (depth_at_cell _ x y (fun v => is_nan v = false)); assumption.
  - apply depthTest_in_order; try assumption. apply Hb, clearZ_binary32.
Qed.

Lemma depthTest_after_clearZ_witness :
  sized canvas4
  /\ depth_at (clearZ canvas4) 1 2 = PInf
  /\ depthTest_spec
       (depthTests (clearZ canvas4)
                   [(ofZ 1, ofZ 2, Fin (3 # 4)); (ofZ 1, ofZ 2, Fin (1 # 3));
                    (ofZ (-1), Fin (1 # 3), zero)])
       1 2 (Fin (1 # 4))
  /\ depthTest_ordered
       (depthTests (clearZ canvas4)
                   [(ofZ 1, ofZ 2, Fin (3 # 4)); (ofZ 1, ofZ 2, Fin (1 # 3));
                    (ofZ (-1), Fin (1 # 3), zero)])
       1 2 (Fin (1 # 4)).
Proof.
  assert (Hs : sized canvas4) by (repeat split; reflexivity).
  assert (Hx : 0 <= 1 < width canvas4) by (simpl; lia).
  assert (Hy : 0 <= 2 < height canvas4) by (simpl; lia).
  assert (Hc : depths_defined
                 [(ofZ 1, ofZ 2, Fin (3 # 4)); (ofZ 1, ofZ 2, Fin (1 # 3));
                  (ofZ (-1), Fin (1 # 3), zero)])
    by (repeat constructor).
  destruct (depthTest_after_clearZ canvas4
              [(ofZ 1, ofZ 2, Fin (3 # 4)); (ofZ 1, ofZ 2, Fin (1 # 3));
               (ofZ (-1), Fin (1 # 3), zero)]
              1 2 (Fin (1 # 4)) Hs Hx Hy) as (H1 & H2 & H3).
  split; [exact Hs|]. split; [exact H1|]. split; [exact H2|].
  exact (proj2 (H3 Hc eq_refl)).
Defined.

(** C1 as stated fails on a depth that is not a binary32 value.  On a
    cleared one-pixel canvas [depthTest(0, 0, z)] with [z] the binary64
    value nearest to 0.1 returns true and the cell then holds
    0.100000001490116..., not [z]; the same call returns true once more and
    leaves the stored depth as it is, so a passing call neither stores [z]
    nor lowers the stored depth.  It fails on NaN as well: [z >= stored] is
    false for it, so NaN passes, is stored, and lets every later depth
    pass. *)
Lemma depthTest_stores_rounded_depth :
  let z := Fin (3602879701896397 # 36028797018963968) in
  let st := clearZ canvas1 in
  let first := depthTest st zero zero z in
  let second := depthTest first.2 zero zero z in
  depth_at st 0 0 = PInf
  /\ first.1 = true
  /\ depth_at first.2 0 0 = Fin (13421773 # 134217728)
  /\ (depth_at first.2 0 0 =? z)%num = false
  /\ second.1 = true
  /\ depth_at second.2 0 0 = depth_at first.2 0 0
  /\ (depth_at second.2 0 0 <? depth_at first.2 0 0)%num = false.
Proof. cbv zeta. repeat split; vm_compute; reflexivity. Qed.

(** The comparison is written [z >= stored], so the value NaN, for which
    every comparison is false, is not rejected: it is stored, and the next
    depth is accepted whatever it is. *)
Lemma depthTest_NaN_passes :
  let st := clearZ canvas1 in
  depth_at st 0 0 = PInf
  /\ (depthTest st zero zero NaN).1 = true
  /\ depth_at (depthTest st zero zero NaN).2 0 0 = NaN
  /\ (depthTest (depthTest (depthTest st zero zero (Fin 1)).2 zero zero NaN).2
                zero zero (Fin 5)).1 = true.
Proof. cbv zeta. repeat split. Qed.

(** ** The flat index of [depthTest] and the bounds check of [setPixel] *)

Lemma Qle_bool_inject_Z (a b : Z) :
  Qle_bool (inject_Z a) (inject_Z b) = (a <=? b).
Proof. unfold Qle_bool. simpl. now rewrite !Z.mul_1_r. Qed.

Lemma num_lt_ofZ (a b : Z) : (ofZ a <? ofZ b)%num = (a <? b).
Proof.
  unfold ofZ, num_lt. rewrite Qle_bool_inject_Z.
  rewrite Z.ltb_antisym. reflexivity.
Qed.

Lemma num_le_ofZ (a b : Z) : (ofZ a <=? ofZ b)%num = (a <=? b).
Proof. unfold ofZ, num_le. apply Qle_bool_inject_Z. Qed.

Lemma setPixel_out_of_range (st : Renderer) (x y : Z) (r g b a : num) :
  ~ (0 <= x < width st /\ 0 <= y < height st) ->
  setPixel st (ofZ x) (ofZ y) r g b a = st.
Proof.
  intros Hout. unfold setPixel, num_ge. change zero with (ofZ 0).
  rewrite !num_lt_ofZ, !num_le_ofZ.
  destruct (Z.ltb_spec x 0); [reflexivity|].
  destruct (Z.leb_spec (width st) x); [reflexivity|].
  destruct (Z.ltb_spec y 0); [reflexivity|].
  destruct (Z.leb_spec (height st) y); [reflexivity|].
  exfalso. apply Hout. lia.
Qed.

(** [depthTest] at integer coordinates whose flat index [k] lies in the
    buffer acts on cell [k], whether or not the coordinates are a pixel. *)
Lemma depthTest_flat (st : Renderer) (x y k : Z) (z : num) :
  depth_defined st -> is_nan z = false ->
  k = y * width st + x -> 0 <= k < Z.of_nat (length (zBuffer st)) ->
  exists c, zBuffer st !! Z.to_nat k = Some c
    /\ depthTest st (ofZ x) (ofZ y) z
       = if (z <? c)%num
         then (true, set_zBuffer st
                       (<[Z.to_nat k := Math_fround z]> (zBuffer st)))
         else (false, st).
Proof.
  intros Hdef Hz -> Hk.
  assert (Hlt : (Z.to_nat (y * width st + x) < length (zBuffer st))%nat) by lia.
  destruct (lookup_lt_is_Some_2 _ _ Hlt) as [c Hc].
  exists c. split; [exact Hc|].
  assert (Hcn : is_nan c = false).
  { eapply (proj1 (Forall_lookup _ _) Hdef); exact Hc. }
  unfold depthTest, ta_get, ta_set. rewrite pixel_index_eq.
  rewrite (ta_index_int _ _ (y * width st + x));
    [| apply pixel_index_Qeq | exact Hk].
  rewrite Hc. change (default NaN (Some c)) with c.
  rewrite (num_ge_not_lt z c Hz Hcn).
  destruct (z <? c)%num; reflexivity.
Qed.

(** The pixel that owns flat index [y * width + x]. *)
Lemma flat_index_owner (w h x y : Z) :
  0 < w -> 0 <= y * w + x < w * h ->
  let x' := (y * w + x) mod w in
  let y' := (y * w + x) / w in
  0 <= x' < w /\ 0 <= y' < h /\ y' * w + x' = y * w + x.
Proof.
  intros Hw Hk. cbv zeta.
  pose proof (Z.mod_pos_bound (y * w + x) w Hw).
  pose proof (Z.div_mod (y * w + x) w ltac:(lia)).
  assert (0 <= (y * w + x) / w) by (apply Z.div_pos; lia).
  assert ((y * w + x) / w < h) by (apply Z.div_lt_upper_bound; lia).
  repeat split; lia.
Qed.

(** The two families of coordinates named in the claim. *)
Lemma flat_index_left_of_row (w h y : Z) :
  0 < w -> 1 <= y <= h ->
  0 <= y * w + -1 < w * h
  /\ ((y * w + -1) mod w, (y * w + -1) / w) = (w - 1, y - 1).
Proof.
  intros Hw Hy. split; [nia|].
  replace (y * w + -1) with ((w - 1) + (y - 1) * w) by lia.
  rewrite Z.mod_add, Z.div_add by lia.
  rewrite Z.mod_small, Z.div_small by lia. f_equal; lia.
Qed.

Lemma flat_index_right_of_row (w h y : Z) :
  0 < w -> -1 <= y <= h - 2 ->
  0 <= y * w + w < w * h
  /\ ((y * w + w) mod w, (y * w + w) / w) = (0, y + 1).
Proof.
  intros Hw Hy. split; [nia|].
  replace (y * w + w) with (0 + (y + 1) * w) by lia.
  rewrite Z.mod_add, Z.div_add by lia.
  rewrite Z.mod_small, Z.div_small by lia. reflexivity.
Qed.

(** ** A line of length zero *)

Lemma abs_sub_self (p : Q) :
  exists d, Math_abs (Fin p - Fin p)%num = Fin d /\ (d == 0)%Q.
Proof.
  exists (Qabs (p + - p)). split; [reflexivity|].
  assert (E : (p + - p == 0)%Q) by ring. rewrite E. reflexivity.
Qed.

Lemma max3_zero (a b c : Q) :
  (a == 0)%Q -> (b == 0)%Q -> (c == 0)%Q ->
  exists m, Math_max3 (Fin a) (Fin b) (Fin c) = Fin m /\ (m == 0)%Q.
Proof.
  intros Ha Hb Hc. unfold Math_max3, Math_max, num_lt.
  destruct (negb (Qle_bool b a)); cbn [num_lt].
  - destruct (negb (Qle_bool c b)); eauto.
  - destruct (negb (Qle_bool c a)); eauto.
Qed.

Lemma Qeq_bool_zero (a b : Q) :
  (a == 0)%Q -> (b == 0)%Q -> Qeq_bool a b = true.
Proof. intros Ha Hb. apply Qeq_bool_iff. rewrite Ha, Hb. reflexivity. Qed.

(** A line from a point to itself tests and plots that one point. *)
Lemma drawLine3DEFLA_point (this : Renderer) (px py pz : Q) (r g b a : num) :
  drawLine3DEFLA this (Fin px) (Fin py) (Fin pz) (Fin px) (Fin py) (Fin pz)
                 r g b a
  = Some (let '(pass, this') := depthTest this (Fin px) (Fin py) (Fin pz) in
          if pass then setPixel this' (Fin px) (Fin py) r g b a else this').
Proof.
  unfold drawLine3DEFLA.
  destruct (abs_sub_self px) as (dx & -> & Hdx).
  destruct (abs_sub_self py) as (dy & -> & Hdy).
  destruct (abs_sub_self pz) as (dz & -> & Hdz).
  destruct (max3_zero dx dy dz Hdx Hdy Hdz) as (m & -> & Hm).
  cbn [num_eqb]. rewrite (Qeq_bool_zero m dx Hm Hdx).
  unfold zero. cbn [num_eqb].
  rewrite (Qeq_bool_zero dy 0 Hdy ltac:(reflexivity)).
  rewrite (Qeq_bool_zero dz 0 Hdz ltac:(reflexivity)).
  unfold efla_iterations.
  assert (Hbig : Qle_bool (inject_Z (2 ^ 53)) m = false).
  { apply not_true_iff_false. intros H. apply Qle_bool_iff in H.
    rewrite Hm in H. apply H. reflexivity. }
  rewrite Hbig.
  assert (Hle : Qle_bool 0 m = true) by (apply Qle_bool_iff; rewrite Hm; apply Qle_refl).
  rewrite Hle.
  assert (Hfl : Qfloor m = 0) by (rewrite Hm; reflexivity).
  rewrite Hfl. change (Z.to_nat (0 + 1)) with 1%nat.
  unfold Nat.iter. cbn [nat_rect].
  unfold efla_body. cbn [ls_this ls_x0 ls_y0 ls_z0 num_eqb].
  rewrite (Qeq_bool_zero m dx Hm Hdx).
  destruct (depthTest this (Fin px) (Fin py) (Fin pz)) as [pass this'].
  destruct pass; reflexivity.
Qed.

(** [depthTest], [setPixel] and a zero-length line at integer coordinates
    outside a row whose flat index lies in the buffer. *)
Lemma depthTest_flat_owner
        (st : Renderer) (x y : Z) (q : Q) (r g b a : num) :
  sized st -> depth_defined st ->
  ~ (0 <= x < width st) ->
  0 <= y * width st + x < width st * height st ->
  let x' := (y * width st + x) mod width st in
  let y' := (y * width st + x) / width st in
  let res := depthTest st (ofZ x) (ofZ y) (Fin q) in
  (0 <= x' < width st /\ 0 <= y' < height st /\ (x', y') <> (x, y))
  /\ (res.1 = true <-> (Fin q <? depth_at st x' y')%num = true)
  /\ (res.1 = true -> depth_at res.2 x' y' = Math_fround (Fin q))
  /\ setPixel st (ofZ x) (ofZ y) r g b a = st
  /\ ((Fin q <? depth_at st x' y')%num = true ->
      exists st',
        drawLine3DEFLA st (ofZ x) (ofZ y) (Fin q) (ofZ x) (ofZ y) (Fin q)
                       r g b a = Some st'
        /\ depth_at st' x' y' = Math_fround (Fin q)
        /\ data32 st' = data32 st).
Proof.
  intros Hs Hdef Hx Hk x' y' res.
  destruct Hs as (Hw & Hh & Hlen & Hlen').
  destruct (flat_index_owner (width st) (height st) x y Hw Hk) as (Hx' & Hy' & Eo).
  fold x' in Hx', Eo. fold y' in Hy', Eo.
  assert (Hkl : 0 <= y * width st + x < Z.of_nat (length (zBuffer st)))
    by (rewrite Hlen; lia).
  destruct (depthTest_flat st x y _ (Fin q) Hdef eq_refl eq_refl Hkl)
    as (c & Hc & Hdt).
  assert (Hget : depth_at st x' y' = c).
  { unfold depth_at. rewrite (ta_get_pixel _ _ (height st)) by assumption.
    rewrite Eo, Hc. reflexivity. }
  assert (Hnew : depth_at (set_zBuffer st
            (<[Z.to_nat (y * width st + x) := Math_fround (Fin q)]>
               (zBuffer st))) x' y'
          = Math_fround (Fin q)).
  { unfold depth_at, set_zBuffer. cbn [zBuffer width].
    rewrite (ta_get_pixel _ _ (height st));
      [| rewrite length_insert; assumption | assumption | assumption].
    rewrite Eo, list_lookup_insert_eq by lia. reflexivity. }
  assert (Hsp : setPixel st (ofZ x) (ofZ y) r g b a = st)
    by (apply setPixel_out_of_range; tauto).
  split.
  { repeat split; try tauto. intros E. apply Hx. injection E as E1 _. rewrite <- E1. exact Hx'. }
  subst res. rewrite Hdt, Hget.
  destruct (Fin q <? c)%num eqn:Hlt; cbn [fst snd].
  - split; [tauto|]. split; [intros _; exact Hnew|]. split; [exact Hsp|].
    intros _. eexists. split.
    + unfold ofZ. rewrite drawLine3DEFLA_point. fold (ofZ x) (ofZ y).
      rewrite Hdt. reflexivity.
    + split.
      * rewrite setPixel_out_of_range by (cbn [width set_zBuffer]; tauto).
        exact Hnew.
      * rewrite setPixel_out_of_range by (cbn [width set_zBuffer]; tauto).
        reflexivity.
  - split; [split; discriminate|]. split; [discriminate|].
    split; [exact Hsp | discriminate].
Qed.

(** C10.  [depthTest] addresses the depth buffer by [y * width + x] without
    a bounds check.  For integer coordinates with [x] outside [0, width)
    whose flat index lies inside the buffer (as [x = -1] with [1 <= y], or
    [x = width] with [y <= height - 2]) it compares with, and on a pass
    overwrites with the binary32 rounding of the depth, the stored depth of
    the pixel that owns this index, a different pixel, whereas [setPixel]
    ignores such coordinates.  [drawLine3DEFLA], which calls [depthTest]
    before any bounds check, thus replaces the depth of that other pixel
    and writes no colour. *)
Theorem depthTest_unchecked_flat_index
        (st : Renderer) (x y : Z) (q : Q) (r g b a : num) :
  sized st -> depth_defined st ->
  ~ (0 <= x < width st) ->
  0 <= y * width st + x < width st * height st ->
  let x' := (y * width st + x) mod width st in
  let y' := (y * width st + x) / width st in
  let res := depthTest st (ofZ x) (ofZ y) (Fin q) in
  (0 <= x' < width st /\ 0 <= y' < height st /\ (x', y') <> (x, y))
  /\ (res.1 = true <-> (Fin q <? depth_at st x' y')%num = true)
  /\ (res.1 = true -> depth_at res.2 x' y' = Math_fround (Fin q))
  /\ setPixel st (ofZ x) (ofZ y) r g b a = st
  /\ ((Fin q <? depth_at st x' y')%num = true ->
      exists st',
        drawLine3DEFLA st (ofZ x) (ofZ y) (Fin q) (ofZ x) (ofZ y) (Fin q)
                       r g b a = Some st'
        /\ depth_at st' x' y' = Math_fround (Fin q)
        /\ data32 st' = data32 st)
  /\ (forall y0, 1 <= y0 <= height st ->
      0 <= y0 * width st + -1 < width st * height st
      /\ ((y0 * width st + -1) mod width st, (y0 * width st + -1) / width st)
         = (width st - 1, y0 - 1))
  /\ (forall y0, -1 <= y0 <= height st - 2 ->
      0 <= y0 * width st + width st < width st * height st
      /\ ((y0 * width st + width st) mod width st,
          (y0 * width st + width st) / width st)
         = (0, y0 + 1)).
Proof.
  intros Hs Hdef Hx Hk x' y' res.
  destruct (depthTest_flat_owner st x y q r g b a Hs Hdef Hx Hk)
    as (HA & HB & HC & HD & HE).
  destruct Hs as (Hw & _).
  split; [exact HA|]. split; [exact HB|]. split; [exact HC|].
  split; [exact HD|]. split; [exact HE|].
  split; intros y0 Hy0.
  - apply flat_index_left_of_row; assumption.
  - apply flat_index_right_of_row; assumption.
Qed.

Lemma depthTest_unchecked_flat_index_witness :
  sized canvas4 /\ depth_defined canvas4
  /\ (let res := depthTest canvas4 (ofZ (-1)) (ofZ 1) (Fin (1 # 10)) in
      res.1 = true /\ depth_at res.2 3 0 = Math_fround (Fin (1 # 10)))
  /\ exists st',
       drawLine3DEFLA canvas4 (ofZ (-1)) (ofZ 1) (Fin (1 # 10))
                      (ofZ (-1)) (ofZ 1) (Fin (1 # 10))
                      (Fin 255) (Fin 0) (Fin 0) (Fin 255) = Some st'
       /\ depth_at st' 3 0 = Math_fround (Fin (1 # 10))
       /\ data32 st' = data32 canvas4.
Proof.
  assert (Hs : sized canvas4) by (repeat split; reflexivity).
  assert (Hd : depth_defined canvas4) by (repeat constructor).
  assert (Hx : ~ (0 <= -1 < width canvas4)) by (simpl; lia).
  assert (Hk : 0 <= 1 * width canvas4 + -1 < width canvas4 * height canvas4)
    by (simpl; lia).
  pose proof (depthTest_unchecked_flat_index canvas4 (-1) 1 (1 # 10)
                (Fin 255) (Fin 0) (Fin 0) (Fin 255) Hs Hd Hx Hk) as H.
  cbv zeta in H. destruct H as (_ & H1 & H2 & _ & H4 & _).
  split; [exact Hs|]. split; [exact Hd|]. split.
  - split; [reflexivity|]. apply H2. reflexivity.
  - apply H4. reflexivity.
Defined.

(** ** Vectors *)

Lemma num_eqb_zero_inv (a : num) :
  (a =? zero)%num = true -> exists p, a = Fin p /\ (p == 0)%Q.
Proof.
  destruct a; try discriminate. intros H. apply Qeq_bool_iff in H. eauto.
Qed.

Lemma truthy_num_or_one (a : num) : truthy (num_or a one) = true.
Proof. unfold num_or. destruct (truthy a) eqn:E; [exact E | reflexivity]. Qed.

(** A zero numerator stays zero under division by a length that is neither
    zero nor NaN. *)
Lemma zero_div_truthy (p : Q) (L : num) :
  (p == 0)%Q -> truthy L = true -> (Fin p / L =? Fin p)%num = true.
Proof.
  intros Hp HL. destruct L as [| | |l]; try discriminate; simpl.
  - apply Qeq_bool_iff. rewrite Hp. reflexivity.
  - apply Qeq_bool_iff. rewrite Hp. reflexivity.
  - simpl in HL. destruct (Qeq_bool l 0) eqn:El; [discriminate|].
    simpl. apply Qeq_bool_iff. apply Qeq_bool_neq in El.
    rewrite Hp. field. exact El.
Qed.

Section VnormProperties.

Variable Math_hypot : num -> num -> num -> num.

(** [Math.hypot] of three zeros is zero. *)
Hypothesis hypot_zero :
  forall x y z : num,
    (x =? zero)%num = true -> (y =? zero)%num = true ->
    (z =? zero)%num = true -> (Math_hypot x y z =? zero)%num = true.

(** C9.  [vlen] never returns zero or NaN, so [vnorm] never divides by zero;
    on the vector of length zero [vlen] substitutes the length 1 and [vnorm]
    returns the zero vector, equal to its argument.  [vnorm] has no failing
    case: it is a function from vectors to vectors. *)
Theorem vnorm_zero_length (a : Vec3) :
  vec3_eqb a zeroVec = true ->
  vlen Math_hypot a = one
  /\ vec3_eqb (vnorm Math_hypot a) a = true
  /\ (forall v : Vec3, truthy (vlen Math_hypot v) = true)
  /\ (forall v : Vec3, exists n : Vec3, vnorm Math_hypot v = n).
Proof.
  intros Ha. unfold vec3_eqb in Ha. cbn [zeroVec Vec3.x Vec3.y Vec3.z] in Ha.
  apply andb_prop in Ha as [Ha Hz]. apply andb_prop in Ha as [Hx Hy].
  assert (HL : vlen Math_hypot a = one).
  { unfold vlen, num_or.
    destruct (num_eqb_zero_inv _ (hypot_zero _ _ _ Hx Hy Hz)) as (h & -> & Hh).
    simpl. apply Qeq_bool_iff in Hh. rewrite Hh. reflexivity. }
  split; [exact HL|]. split.
  - unfold vnorm, vec3_eqb. rewrite HL. cbn [Vec3.x Vec3.y Vec3.z].
    destruct (num_eqb_zero_inv _ Hx) as (px & -> & Hpx).
    destruct (num_eqb_zero_inv _ Hy) as (py & -> & Hpy).
    destruct (num_eqb_zero_inv _ Hz) as (pz & -> & Hpz).
    rewrite !zero_div_truthy by (assumption || reflexivity). reflexivity.
  - split.
    + intros v. apply truthy_num_or_one.
    + intros v. eexists. reflexivity.
Qed.

End VnormProperties.

Lemma hypot_run_zero (x y z : num) :
  (x =? zero)%num = true -> (y =? zero)%num = true ->
  (z =? zero)%num = true -> (hypot_run x y z =? zero)%num = true.
Proof.
  intros Hx Hy Hz.
  destruct (num_eqb_zero_inv _ Hx) as (px & -> & Hpx).
  destruct (num_eqb_zero_inv _ Hy) as (py & -> & Hpy).
  destruct (num_eqb_zero_inv _ Hz) as (pz & -> & Hpz).
  unfold hypot_run, Math_abs, zero, num_eqb.
  apply Qeq_bool_iff. unfold Qsqrt_down. rewrite Qred_correct.
  assert (E : Qnum (Qabs px * Qabs px + Qabs py * Qabs py + Qabs pz * Qabs pz) = 0).
  { destruct px as [nx dx], py as [ny dy], pz as [nz dz].
    unfold Qeq in Hpx, Hpy, Hpz. simpl in Hpx, Hpy, Hpz.
    assert (nx = 0) by lia. assert (ny = 0) by lia. assert (nz = 0) by lia.
    subst. reflexivity. }
  rewrite E. reflexivity.
Qed.

Lemma vnorm_zero_length_witness :
  vec3_eqb zeroVec zeroVec = true
  /\ vlen hypot_run zeroVec = one
  /\ vec3_eqb (vnorm hypot_run zeroVec) zeroVec = true.
Proof.
  assert (H : vec3_eqb zeroVec zeroVec = true) by reflexivity.
  split; [exact H|].
  destruct (vnorm_zero_length hypot_run hypot_run_zero zeroVec H) as (H1 & H2 & _).
  split; assumption.
Defined.

(** ** Rounding errors of the projection in binary64 *)

Section ErrorBounds.

Local Open Scope Q_scope.

Lemma growth_base_ge_1 : 1 <= / (1 - roundoff).
Proof. apply Qle_bool_iff. vm_compute. reflexivity. Qed.

Lemma growth_base_nonzero : ~ / (1 - roundoff) == 0.
Proof. intros E. pose proof growth_base_ge_1 as H. rewrite E in H. discriminate. Qed.

Lemma growth_pos (k : Z) : 0 < growth k.
Proof.
  apply Qpower_0_lt. eapply Qlt_le_trans; [|apply growth_base_ge_1]. reflexivity.
Qed.

Lemma growth_add (j k : Z) : growth (j + k) == growth j * growth k.
Proof. apply Qpower_plus, growth_base_nonzero. Qed.

Lemma growth_opp (k : Z) : growth (- k) == / growth k.
Proof. apply Qpower_opp. Qed.

Lemma growth_mono (j k : Z) : (j <= k)%Z -> growth j <= growth k.
Proof. intros H. apply Qpower_le_compat_l; [exact H | apply growth_base_ge_1]. Qed.

Lemma growth_0 : growth 0 == 1.
Proof. reflexivity. Qed.

Lemma approx_refl (y : Q) : approx 0 y y.
Proof.
  exists 1. split; [ring|]. change (- 0)%Z with 0%Z.
  rewrite growth_0. split; apply Qle_refl.
Qed.

Lemma approx_comp (k : Z) (x x' y y' : Q) :
  x == x' -> y == y' -> approx k x y -> approx k x' y'.
Proof.
  intros Ex Ey (t & E & B). exists t. split; [|exact B].
  rewrite <- Ex, <- Ey. exact E.
Qed.

Lemma approx_mul (j k : Z) (x1 y1 x2 y2 : Q) :
  approx j x1 y1 -> approx k x2 y2 -> approx (j + k) (x1 * x2) (y1 * y2).
Proof.
  intros (t1 & E1 & L1 & H1) (t2 & E2 & L2 & H2).
  pose proof (growth_pos (- j)) as P1. pose proof (growth_pos (- k)) as P2.
  exists (t1 * t2). split; [rewrite E1, E2; ring|]. split.
  - replace (- (j + k))%Z with (- j + - k)%Z by lia. rewrite growth_add.
    apply Qle_trans with (growth (- j) * t2).
    + apply Qmult_le_l; [exact P1 | exact L2].
    + apply Qmult_le_r; [lra | exact L1].
  - rewrite growth_add.
    apply Qle_trans with (t1 * growth k).
    + apply Qmult_le_l; [lra | exact H2].
    + apply Qmult_le_r; [apply growth_pos | exact H1].
Qed.

Lemma Qinv_le_anti (a b : Q) : 0 < a -> a <= b -> / b <= / a.
Proof.
  intros Ha Hab. apply Qle_shift_inv_l; [exact Ha|].
  assert (E : / b * a == a / b) by (unfold Qdiv; ring). rewrite E.
  apply Qle_shift_div_r; lra.
Qed.

Lemma approx_inv (k : Z) (x y : Q) : approx k x y -> approx k (/ x) (/ y).
Proof.
  intros (t & E & Lo & Hi).
  pose proof (growth_pos (- k)) as P1. pose proof (growth_pos k) as P2.
  assert (Pt : 0 < t) by lra.
  exists (/ t). split; [rewrite E; apply Qinv_mult_distr|]. split.
  - rewrite growth_opp. apply Qinv_le_anti; assumption.
  - assert (E' : growth k == / growth (- k)).
    { rewrite growth_opp, Qinv_involutive. reflexivity. }
    rewrite E'. apply Qinv_le_anti; assumption.
Qed.

Lemma approx_nonzero (k : Z) (x y : Q) : approx k x y -> ~ y == 0 -> ~ x == 0.
Proof.
  intros (t & E & Lo & _) Hy Hx. pose proof (growth_pos (- k)) as P.
  rewrite E in Hx. apply Qmult_integral in Hx. destruct Hx as [Hx | Hx].
  - exact (Hy Hx).
  - lra.
Qed.

Lemma magnitude_nonzero (a b : Z) (y : Q) : magnitude a b y -> ~ y == 0.
Proof.
  intros [Lo _] E. pose proof (pow2_pos a) as P. rewrite E in Lo.
  change (Qabs 0) with 0 in Lo. lra.
Qed.

Lemma magnitude_comp (a b : Z) (y y' : Q) :
  y == y' -> magnitude a b y -> magnitude a b y'.
Proof. intros E [Lo Hi]. split; rewrite <- E; assumption. Qed.

Lemma magnitude_mul (a1 b1 a2 b2 : Z) (y1 y2 : Q) :
  magnitude a1 b1 y1 -> magnitude a2 b2 y2 ->
  magnitude (a1 + a2) (b1 + b2) (y1 * y2).
Proof.
  intros [L1 H1] [L2 H2]. unfold magnitude.
  rewrite Qabs_Qmult, !pow2_add.
  pose proof (pow2_pos a1). pose proof (pow2_pos a2).
  split.
  - apply Qle_trans with (pow2 a1 * Qabs y2).
    + apply Qmult_le_l; assumption.
    + apply Qmult_le_r; [lra | assumption].
  - apply Qle_trans with (Qabs y1 * pow2 b2).
    + apply Qmult_le_l; [lra | assumption].
    + apply Qmult_le_r; [apply pow2_pos | assumption].
Qed.

Lemma Qabs_inv (y : Q) : Qabs (/ y) == / Qabs y.
Proof.
  destruct (Qlt_le_dec y 0) as [H|H].
  - rewrite (Qabs_neg y) by lra.
    assert (Hi : / y < 0).
    { assert (E : / y == - / - y).
      { assert (N : ~ y == 0) by lra. field. exact N. }
      rewrite E. assert (0 < / - y) by (apply Qinv_lt_0_compat; lra). lra. }
    rewrite Qabs_neg by lra. field. lra.
  - rewrite (Qabs_pos y) by exact H.
    apply Qabs_pos. apply Qinv_le_0_compat. exact H.
Qed.

Lemma pow2_opp (a : Z) : pow2 (- a) == / pow2 a.
Proof. apply Qpower_opp. Qed.

Lemma magnitude_inv (a b : Z) (y : Q) :
  magnitude a b y -> magnitude (- b) (- a) (/ y).
Proof.
  intros [Lo Hi]. unfold magnitude. rewrite Qabs_inv, !pow2_opp.
  pose proof (pow2_pos a). split; apply Qinv_le_anti; try assumption. lra.
Qed.

Lemma magnitude_opp (a b : Z) (y : Q) : magnitude a b y -> magnitude a b (- y).
Proof. unfold magnitude. rewrite Qabs_opp. tauto. Qed.

Lemma approx_trans (j k : Z) (v x y : Q) :
  approx j v x -> approx k x y -> approx (k + j) v y.
Proof.
  intros (t1 & E1 & B1) H2.
  assert (A : approx j t1 1) by (exists t1; split; [ring | exact B1]).
  pose proof (approx_mul k j x y t1 1 H2 A) as H.
  eapply approx_comp; [| |exact H]; [rewrite E1; reflexivity | ring].
Qed.

Lemma growth_1_numeric :
  growth (-1) == 1 - roundoff /\ 1 + roundoff <= growth 1
  /\ 1 # 2 <= growth (-100) /\ growth 100 <= 2.
Proof.
  repeat split; try (apply Qeq_bool_iff; vm_compute; reflexivity);
    apply Qle_bool_iff; vm_compute; reflexivity.
Qed.

(** A relative error of size [e] is a factor of [k] steps, when [k] steps
    can be that large. *)
Lemma approx_of_error (k : Z) (e x v : Q) :
  ~ x == 0 -> Qabs (v - x) <= e * Qabs x ->
  growth (- k) <= 1 - e -> 1 + e <= growth k -> approx k v x.
Proof.
  intros Nx H G1 G2.
  exists (v / x). split; [field; exact Nx|].
  apply Qabs_Qle_condition in H. destruct H as [H1 H2].
  assert (B : 1 - e <= v / x /\ v / x <= 1 + e).
  { destruct (Qlt_le_dec x 0) as [L|L].
    - rewrite (Qabs_neg x) in H1, H2 by lra.
      assert (E : v / x == (- v) / (- x)) by (field; exact Nx).
      rewrite E. split.
      + apply Qle_shift_div_l; [lra|]. lra.
      + apply Qle_shift_div_r; [lra|]. lra.
    - assert (P : 0 < x) by (destruct (Qlt_le_dec 0 x) as [p|p];
        [exact p | exfalso; apply Nx; lra]).
      rewrite (Qabs_pos x) in H1, H2 by lra. split.
      + apply Qle_shift_div_l; [lra|]. lra.
      + apply Qle_shift_div_r; [lra|]. lra. }
  split; [eapply Qle_trans; [exact G1 | apply B]
         | eapply Qle_trans; [apply B | exact G2]].
Qed.

(** A rounding error of relative size [roundoff] is a factor of one step. *)
Lemma factor_of_error (x v : Q) :
  ~ x == 0 -> Qabs (v - x) <= roundoff * Qabs x -> approx 1 v x.
Proof.
  intros Nx H. destruct growth_1_numeric as (G1 & G2 & _).
  apply (approx_of_error 1 roundoff x v Nx H); [rewrite G1; apply Qle_refl | exact G2].
Qed.

(** Rounding a value that approximates a number of moderate magnitude adds
    one step. *)
Lemma rnd_approx (k a b : Z) (x y : Q) :
  approx k x y -> magnitude a b y ->
  (0 <= k <= 100)%Z -> (-1021 <= a)%Z -> (b <= 1021)%Z ->
  exists v, Binary64.rnd (Fin x) = Fin v /\ approx (k + 1) v y.
Proof.
  intros Hx [Lo Hi] Hk Ha Hb.
  destruct growth_1_numeric as (_ & _ & G3 & G4).
  pose proof Hx as (t & E & Tl & Th).
  pose proof (growth_pos (- k)) as Pk.
  assert (Pt : 0 < t) by lra.
  assert (Tl' : 1 # 2 <= t).
  { eapply Qle_trans; [exact G3|]. eapply Qle_trans; [|exact Tl].
    apply growth_mono. lia. }
  assert (Th' : t <= 2).
  { eapply Qle_trans; [exact Th|]. eapply Qle_trans; [|exact G4].
    apply growth_mono. lia. }
  assert (Eabs : Qabs x == Qabs y * t).
  { rewrite E, Qabs_Qmult, (Qabs_pos t) by lra. reflexivity. }
  pose proof (pow2_pos a) as Pa. pose proof (pow2_pos b) as Pb.
  assert (Py : 0 < Qabs y) by lra.
  assert (Xlo : pow2 (-1022) <= Qabs x).
  { rewrite Eabs.
    apply Qle_trans with (pow2 (a - 1)); [apply pow2_le; lia|].
    rewrite pow2_sub. change (pow2 1) with 2.
    apply Qle_trans with (pow2 a * (1 # 2)).
    - apply Qle_shift_div_r; [reflexivity|]. lra.
    - apply Qle_trans with (Qabs y * (1 # 2)).
      + apply Qmult_le_r; [reflexivity | exact Lo].
      + apply Qmult_le_l; [exact Py | exact Tl']. }
  assert (Xhi : Qabs x < pow2 1023).
  { rewrite Eabs.
    apply Qle_lt_trans with (pow2 (b + 1)); [|apply pow2_lt; lia].
    rewrite pow2_succ.
    apply Qle_trans with (Qabs y * 2).
    - apply Qmult_le_l; [exact Py | exact Th'].
    - lra. }
  destruct (round_binary_error 53 (-1022) 1024 ltac:(lia) x 1023 Xlo Xhi
              ltac:(lia)) as (v & Ev & Herr & _).
  exists v. split; [exact Ev|].
  apply (approx_trans 1 k v x y); [|exact Hx].
  apply factor_of_error; [|exact Herr].
  intros E0. rewrite E0 in Xlo. pose proof (pow2_pos (-1022)).
  change (Qabs 0) with 0 in Xlo. lra.
Qed.

(** The operators of [Binary64] on approximations. *)
Lemma b64_mul (j k a b : Z) (x1 x2 y1 y2 : Q) :
  approx j x1 y1 -> approx k x2 y2 -> magnitude a b (y1 * y2) ->
  (0 <= j)%Z -> (0 <= k)%Z -> (j + k <= 100)%Z ->
  (-1021 <= a)%Z -> (b <= 1021)%Z ->
  exists v, Binary64.mul (Fin x1) (Fin x2) = Fin v
            /\ approx (j + k + 1) v (y1 * y2).
Proof.
  intros H1 H2 Hm Hj Hk Hjk Ha Hb. unfold Binary64.mul. cbn [num_mul].
  apply (rnd_approx (j + k) a b); try assumption; [|lia].
  apply approx_mul; assumption.
Qed.

Lemma b64_div (j k a b a2 b2 : Z) (x1 x2 y1 y2 : Q) :
  approx j x1 y1 -> approx k x2 y2 -> magnitude a2 b2 y2 ->
  magnitude a b (y1 / y2) ->
  (0 <= j)%Z -> (0 <= k)%Z -> (j + k <= 100)%Z ->
  (-1021 <= a)%Z -> (b <= 1021)%Z ->
  exists v, Binary64.div (Fin x1) (Fin x2) = Fin v
            /\ approx (j + k + 1) v (y1 / y2).
Proof.
  intros H1 H2 Hm2 Hm Hj Hk Hjk Ha Hb. unfold Binary64.div. cbn [num_div].
  rewrite (Qeq_bool_false x2 0)
    by (apply (approx_nonzero k x2 y2 H2), (magnitude_nonzero a2 b2), Hm2).
  apply (rnd_approx (j + k) a b); try assumption; [|lia].
  unfold Qdiv. apply approx_mul; [assumption | apply approx_inv; assumption].
Qed.

Lemma b64_add (k a b : Z) (x1 x2 y : Q) :
  approx k (x1 + x2) y -> magnitude a b y ->
  (0 <= k <= 100)%Z -> (-1021 <= a)%Z -> (b <= 1021)%Z ->
  exists v, Binary64.add (Fin x1) (Fin x2) = Fin v /\ approx (k + 1) v y.
Proof.
  intros H Hm Hk Ha Hb. unfold Binary64.add. cbn [num_add].
  apply (rnd_approx k a b); assumption.
Qed.

Lemma b64_sub (k a b : Z) (x1 x2 y : Q) :
  approx k (x1 + - x2) y -> magnitude a b y ->
  (0 <= k <= 100)%Z -> (-1021 <= a)%Z -> (b <= 1021)%Z ->
  exists v, Binary64.sub (Fin x1) (Fin x2) = Fin v /\ approx (k + 1) v y.
Proof.
  intros H Hm Hk Ha Hb. unfold Binary64.sub, num_sub. cbn [num_neg num_add].
  apply (rnd_approx k a b); assumption.
Qed.

Lemma growth_numeric :
  1 - growth (-6) <= growth 6 - 1
  /\ growth (-43) <= 1 - 7 * (growth 6 - 1)
  /\ 1 + 7 * (growth 6 - 1) <= growth 43
  /\ 1 - growth (-49) <= growth 49 - 1
  /\ (growth 49 - 1) * (1 # 2) <= pow2 (-48)
  /\ 1 <= growth 6.
Proof. repeat split; apply Qle_bool_iff; vm_compute; reflexivity. Qed.

(** The sum of two approximations of opposite sign: the error relative to
    the exact sum grows with the ratio of the terms to the sum. *)
Lemma approx_cancel (x1 x2 T M S : Q) :
  approx 6 x1 T -> approx 6 x2 (- M) -> 0 < T -> 0 < M ->
  T - M == S -> T + M <= 7 * Qabs S -> approx 43 (x1 + x2) S.
Proof.
  intros (t1 & E1 & L1 & H1) (t2 & E2 & L2 & H2) PT PM ES Hc.
  destruct growth_numeric as (G1 & G2 & G3 & _ & _ & G6).
  set (g := growth 6) in *. set (g' := growth (-6)) in *.
  assert (NS : ~ S == 0).
  { intros E0. rewrite E0 in Hc. change (Qabs 0) with 0 in Hc. lra. }
  apply (approx_of_error 43 (7 * (g - 1)) S (x1 + x2) NS); [|exact G2|exact G3].
  assert (A1 : T * g' <= T * t1) by (apply Qmult_le_l; assumption).
  assert (A2 : T * t1 <= T * g) by (apply Qmult_le_l; assumption).
  assert (A3 : M * g' <= M * t2) by (apply Qmult_le_l; assumption).
  assert (A4 : M * t2 <= M * g) by (apply Qmult_le_l; assumption).
  assert (A5 : T * (1 - g') <= T * (g - 1)) by (apply Qmult_le_l; assumption).
  assert (A6 : M * (1 - g') <= M * (g - 1)) by (apply Qmult_le_l; assumption).
  assert (A7 : (T + M) * (g - 1) <= 7 * Qabs S * (g - 1)).
  { apply Qmult_le_compat_r; [exact Hc | lra]. }
  apply Qabs_Qle_condition. rewrite E1, E2. split; lra.
Qed.

(** Rounding keeps a value between two binary64 numbers. *)
Lemma rnd_between (x lo hi : Q) :
  lo <= x -> x <= hi ->
  (Binary64.rnd (Fin lo) =? Fin lo)%num = true ->
  (Binary64.rnd (Fin hi) =? Fin hi)%num = true ->
  exists v, Binary64.rnd (Fin x) = Fin v /\ lo <= v /\ v <= hi.
Proof.
  intros Hlo Hhi Elo Ehi. cbn [Binary64.rnd] in *.
  pose proof (round_binary_mono 53 (-1022) 1024 ltac:(lia) lo x Hlo) as M1.
  pose proof (round_binary_mono 53 (-1022) 1024 ltac:(lia) x hi Hhi) as M2.
  destruct (round_binary 53 (-1022) 1024 lo) as [| | |l]; try discriminate.
  destruct (round_binary 53 (-1022) 1024 hi) as [| | |h]; try discriminate.
  destruct (round_binary 53 (-1022) 1024 x) as [| | |v]; try discriminate.
  cbn [num_eqb num_le] in *.
  apply Qeq_bool_iff in Elo, Ehi. apply Qle_bool_iff in M1, M2.
  exists v. split; [reflexivity|]. split; lra.
Qed.

End ErrorBounds.

Section PerspectiveBinary64.

Variable Math_tan : num -> num.

Local Open Scope Q_scope.

Lemma binary64_axis_clip (fovy aspect : num) (N F D : Q) :
  let clip := Binary64.mat4MulVec4
                (Binary64.mat4Perspective Math_tan fovy aspect (Fin N) (Fin F))
                (Vec4.mk zero zero (Fin (- D)) one) in
  let nf := Binary64.div (Fin 1) (Binary64.sub (Fin N) (Fin F)) in
  Vec4.z clip
  = Binary64.add
      (Binary64.add
         (Binary64.add (Binary64.mul zero zero) (Binary64.mul zero zero))
         (Binary64.mul (Binary64.mul (Binary64.add (Fin F) (Fin N)) nf)
                       (Fin (- D))))
      (Binary64.mul
         (Binary64.mul (Binary64.mul (Binary64.mul (Fin 2) (Fin F)) (Fin N)) nf)
         one)
  /\ Vec4.w clip
     = Binary64.add
         (Binary64.add
            (Binary64.add (Binary64.mul zero zero) (Binary64.mul zero zero))
            (Binary64.mul (Fin (-1)) (Fin (- D))))
         (Binary64.mul zero one).
Proof. split; reflexivity. Qed.

Lemma magnitude_pos (a b : Z) (y : Q) :
  pow2 a <= y -> y <= pow2 b -> magnitude a b y.
Proof.
  intros Lo Hi. pose proof (pow2_pos a).
  unfold magnitude. rewrite Qabs_pos by lra. split; assumption.
Qed.

(** The screen depth of the axis point at distance [D], when the exact
    clip-space depth is [c * D] with [c] one of 1 and -1. *)
Lemma binary64_axis_depth (fovy aspect w h : num) (N F D c : Q) :
  pow2 (-200) <= N -> 2 * N <= F -> F <= pow2 200 ->
  pow2 (-200) <= D -> D <= pow2 200 ->
  c == 1 \/ c == -1 ->
  (F + N) * (1 / (N + - F)) * - D + 2 * F * N * (1 / (N + - F)) * 1 == c * D ->
  (F + N) * D + 2 * F * N <= 7 * D * (F - N) ->
  exists p s,
    Binary64.projectVertex
      (Vec3.mk zero zero (Fin (- D)))
      (Binary64.mat4Perspective Math_tan fovy aspect (Fin N) (Fin F)) w h
    = Some p
    /\ Projected.screenZ p = Fin s
    /\ Qabs (s - (c + 1) * (1 # 2)) <= pow2 (-48).
Proof.
  intros HN HF2 HF HD1 HD2 Hc Hex Hcond.
  pose proof (pow2_pos (-200)) as P200.
  assert (PN : 0 < N) by lra. assert (PF : 0 < F) by lra.
  assert (PD : 0 < D) by lra.
  assert (NF : ~ N + - F == 0) by lra.
  assert (MN : magnitude (-200) 200 N) by (apply magnitude_pos; lra).
  assert (MF : magnitude (-200) 200 F) by (apply magnitude_pos; lra).
  assert (MD : magnitude (-200) 200 D) by (apply magnitude_pos; lra).
  assert (MS : magnitude (-200) 201 (F + N)).
  { apply magnitude_pos; [lra|]. rewrite (pow2_succ 200). lra. }
  assert (Md : magnitude (-200) 200 (N + - F)).
  { unfold magnitude. rewrite Qabs_neg by lra. split; lra. }
  assert (M1 : magnitude 0 0 1) by (split; apply Qle_bool_iff; reflexivity).
  assert (M2 : magnitude 1 1 2) by (split; apply Qle_bool_iff; reflexivity).
  assert (Mh : magnitude (-1) (-1) (1 # 2))
    by (split; apply Qle_bool_iff; reflexivity).
  assert (Mm1 : magnitude 0 0 (-1)) by (split; apply Qle_bool_iff; reflexivity).
  assert (Mnf : magnitude (-200) 200 (1 / (N + - F))).
  { exact (magnitude_mul 0 0 (-200) 200 _ _ M1
             (magnitude_inv (-200) 200 _ Md)). }
  (* the entries of the matrix *)
  destruct (b64_sub 0 (-200) 200 N F (N + - F) (approx_refl _) Md)
    as (d & Ed & Ad); try lia.
  destruct (b64_div 0 1 (-200) 200 (-200) 200 1 d 1 (N + - F)
              (approx_refl _) Ad Md Mnf) as (nf & Enf & Anf); try lia.
  destruct (b64_add 0 (-200) 201 F N (F + N) (approx_refl _) MS)
    as (sm & Esm & Asm); try lia.
  destruct (b64_mul 1 2 (-400) 401 sm nf (F + N) (1 / (N + - F)) Asm Anf
              (magnitude_mul _ _ _ _ _ _ MS Mnf))
    as (m10 & Em10 & Am10); try lia.
  destruct (b64_mul 0 0 (-199) 201 2 F 2 F (approx_refl _) (approx_refl _)
              (magnitude_mul _ _ _ _ _ _ M2 MF))
    as (p2 & Ep2 & Ap2); try lia.
  destruct (b64_mul 1 0 (-399) 401 p2 N (2 * F) N Ap2 (approx_refl _)
              (magnitude_mul _ _ _ _ _ _ (magnitude_mul _ _ _ _ _ _ M2 MF) MN))
    as (q2 & Eq2 & Aq2); try lia.
  destruct (b64_mul 2 2 (-599) 601 q2 nf (2 * F * N) (1 / (N + - F)) Aq2 Anf
              (magnitude_mul _ _ _ _ _ _
                 (magnitude_mul _ _ _ _ _ _
                    (magnitude_mul _ _ _ _ _ _ M2 MF) MN) Mnf))
    as (m11 & Em11 & Am11); try lia.
  (* the clip coordinates *)
  destruct (b64_mul 4 0 (-600) 601 m10 (- D) ((F + N) * (1 / (N + - F))) (- D)
              Am10 (approx_refl _)
              (magnitude_mul _ _ _ _ _ _ (magnitude_mul _ _ _ _ _ _ MS Mnf)
                 (magnitude_opp _ _ _ MD)))
    as (t & Et & At); try lia.
  destruct (b64_add 5 (-600) 601 0 t ((F + N) * (1 / (N + - F)) * - D))
    as (x1 & Ex1 & Ax1); try lia.
  { eapply approx_comp; [| reflexivity | exact At]. ring. }
  { exact (magnitude_mul _ _ _ _ _ _ (magnitude_mul _ _ _ _ _ _ MS Mnf)
             (magnitude_opp _ _ _ MD)). }
  destruct (b64_mul 5 0 (-599) 601 m11 1 (2 * F * N * (1 / (N + - F))) 1
              Am11 (approx_refl _))
    as (x2 & Ex2 & Ax2); try lia.
  { exact (magnitude_mul (-599) 601 0 0 _ _
             (magnitude_mul _ _ _ _ _ _
                (magnitude_mul _ _ _ _ _ _
                   (magnitude_mul _ _ _ _ _ _ M2 MF) MN) Mnf) M1). }
  assert (McD : magnitude (-200) 200 (c * D)).
  { destruct Hc as [Ec | Ec].
    - eapply magnitude_comp; [|exact MD]. rewrite Ec. ring.
    - eapply magnitude_comp; [|exact (magnitude_opp _ _ _ MD)].
      rewrite Ec. ring. }
  assert (Acz : approx 43 (x1 + x2) (c * D)).
  { set (T := (F + N) * (1 / (N + - F)) * - D) in *.
    set (M := - (2 * F * N * (1 / (N + - F)) * 1)).
    assert (PI : 0 < / (F - N)) by (apply Qinv_lt_0_compat; lra).
    assert (ET : T == (F + N) * D * / (F - N)) by (unfold T; field; lra).
    assert (EM : M == 2 * F * N * / (F - N)) by (unfold M; field; lra).
    assert (PT : 0 < T).
    { rewrite ET. apply Qmult_lt_0_compat; [|exact PI].
      apply Qmult_lt_0_compat; lra. }
    assert (PM : 0 < M).
    { rewrite EM. apply Qmult_lt_0_compat; [|exact PI].
      apply Qmult_lt_0_compat; [|lra]. apply Qmult_lt_0_compat; lra. }
    apply (approx_cancel x1 x2 T M (c * D)); try assumption.
    - eapply approx_comp; [reflexivity | | exact Ax2]. unfold M. ring.
    - rewrite <- Hex. unfold M. fold T. ring.
    - assert (EA : Qabs (c * D) == D).
      { destruct Hc as [Ec | Ec]; rewrite Ec.
        - rewrite Qabs_pos by lra. ring.
        - rewrite Qabs_neg by lra. ring. }
      rewrite EA, ET, EM.
      assert (E : (F + N) * D * / (F - N) + 2 * F * N * / (F - N)
                  == ((F + N) * D + 2 * F * N) / (F - N))
        by (field; lra).
      rewrite E. apply Qle_shift_div_r; [lra|].
      eapply Qle_trans; [exact Hcond|]. apply Qle_refl. }
  destruct (b64_add 43 (-200) 200 x1 x2 (c * D) Acz McD)
    as (cz & Ecz & Acz'); try lia.
  destruct (b64_mul 0 0 (-200) 200 (-1) (- D) (-1) (- D)
              (approx_refl _) (approx_refl _)
              (magnitude_mul 0 0 _ _ _ _ Mm1 (magnitude_opp _ _ _ MD)))
    as (w0 & Ew0 & Aw0); try lia.
  assert (Mw : magnitude (-200) 200 (-1 * - D))
    by exact (magnitude_mul 0 0 _ _ _ _ Mm1 (magnitude_opp _ _ _ MD)).
  destruct (b64_add 1 (-200) 200 0 w0 (-1 * - D)) as (w1 & Ew1 & Aw1);
    try lia; try assumption.
  { eapply approx_comp; [| reflexivity | exact Aw0]. ring. }
  destruct (b64_add 2 (-200) 200 w1 0 (-1 * - D)) as (cw & Ecw & Acw);
    try lia; try assumption.
  { eapply approx_comp; [| reflexivity | exact Aw1]. ring. }
  (* the divide and the depth mapping *)
  assert (Mndc : magnitude (-400) 400 (c * D / (-1 * - D))).
  { exact (magnitude_mul _ _ _ _ _ _ McD (magnitude_inv _ _ _ Mw)). }
  destruct (b64_div 44 3 (-400) 400 (-200) 200 cz cw (c * D) (-1 * - D)
              Acz' Acw Mw Mndc) as (nz & Enz & Anz); try lia.
  destruct (b64_mul 48 0 (-401) 399 nz (1 # 2) (c * D / (-1 * - D)) (1 # 2)
              Anz (approx_refl _) (magnitude_mul _ _ _ _ _ _ Mndc Mh))
    as (h1 & Eh1 & Ah1); try lia.
  assert (Hh1 : Qabs (h1 + (1 # 2) - (c + 1) * (1 # 2)) <= pow2 (-48)).
  { destruct growth_numeric as (_ & _ & _ & G4 & G5 & _).
    assert (Ah1' : approx 49 h1 (c * D / (-1 * - D) * (1 # 2))) by exact Ah1.
    destruct Ah1' as (th & Eh & Lh & Hh).
    change (- (49))%Z with (-49)%Z in Lh.
    set (g := growth 49) in *. set (g' := growth (-49)) in *.
    set (e := pow2 (-48)) in *.
    assert (Ey : c * D / (-1 * - D) * (1 # 2) == c * (1 # 2)) by (field; lra).
    rewrite Ey in Eh. apply Qabs_Qle_condition.
    destruct Hc as [Ec | Ec]; rewrite Ec in *; split; lra. }
  pose proof (binary64_axis_clip fovy aspect N F D) as [Hz Hw].
  cbv zeta in Hz, Hw.
  unfold Binary64.projectVertex. cbn [Vec3.x Vec3.y Vec3.z].
  rewrite Hz, Hw.
  change (Binary64.mul zero zero) with (Fin 0).
  change (Binary64.mul zero one) with (Fin 0).
  change (Binary64.add (Fin 0) (Fin 0)) with (Fin 0).
  unfold one, half in *.
  rewrite Ed, Enf, Esm, Em10, Ep2, Eq2, Em11, Et, Ex1, Ex2, Ecz, Ew0, Ew1, Ecw.
  assert (Ncw : ~ cw == 0)
    by (apply (approx_nonzero _ _ _ Acw), (magnitude_nonzero _ _ _ Mw)).
  unfold zero. cbn [num_eqb]. rewrite (Qeq_bool_false cw 0 Ncw).
  cbn [Projected.screenZ Vec3.z]. rewrite Enz, Eh1.
  apply Qabs_Qle_condition in Hh1. destruct Hh1 as [B1 B2].
  destruct Hc as [Ec | Ec].
  - destruct (rnd_between (h1 + (1 # 2)) (1 - pow2 (-48)) (1 + pow2 (-48)))
      as (s & Es & S1 & S2).
    + rewrite Ec in B1. lra.
    + rewrite Ec in B2. lra.
    + vm_compute. reflexivity.
    + vm_compute. reflexivity.
    + eexists. exists s. split; [reflexivity|]. split; [exact Es|].
      apply Qabs_Qle_condition. rewrite Ec. split; lra.
  - destruct (rnd_between (h1 + (1 # 2)) (- pow2 (-48)) (pow2 (-48)))
      as (s & Es & S1 & S2).
    + rewrite Ec in B1. lra.
    + rewrite Ec in B2. lra.
    + vm_compute. reflexivity.
    + vm_compute. reflexivity.
    + eexists. exists s. split; [reflexivity|]. split; [exact Es|].
      apply Qabs_Qle_condition. rewrite Ec. split; lra.
Qed.

(** C8, as amended.  In binary64 the two depths are met up to rounding.  For
    [near] at least [2^-200], [far] at most [2^200] and [far] at least twice
    [near], whatever the field of view, the aspect ratio and the screen
    size, the projection of the near-plane centre [(0, 0, -near)] through
    [mat4Perspective], the perspective divide and the depth mapping, every
    operation rounded to binary64, succeeds with a screen depth of
    magnitude at most [2^-48], and that of the far-plane centre
    [(0, 0, -far)] succeeds with a screen depth within [2^-48] of 1. *)
Theorem perspective_near_far_depth (fovy aspect w h : num) (near far : Q) :
  pow2 (-200) <= near -> 2 * near <= far -> far <= pow2 200 ->
  (exists p s,
     Binary64.projectVertex
       (Vec3.mk zero zero (Fin (- near)))
       (Binary64.mat4Perspective Math_tan fovy aspect (Fin near) (Fin far))
       w h = Some p
     /\ Projected.screenZ p = Fin s /\ Qabs s <= pow2 (-48))
  /\ (exists p s,
        Binary64.projectVertex
          (Vec3.mk zero zero (Fin (- far)))
          (Binary64.mat4Perspective Math_tan fovy aspect (Fin near) (Fin far))
          w h = Some p
        /\ Projected.screenZ p = Fin s /\ Qabs (s - 1) <= pow2 (-48)).
Proof.
  intros HN HF2 HF. pose proof (pow2_pos (-200)) as P.
  assert (PN : 0 < near) by lra.
  split.
  - destruct (binary64_axis_depth fovy aspect w h near far near (-1))
      as (p & s & Hp & Hs & B); try assumption.
    + lra.
    + right. reflexivity.
    + field. lra.
    + nra.
    + exists p, s. split; [exact Hp|]. split; [exact Hs|].
      assert (E : s == s - (-1 + 1) * (1 # 2)) by ring.
      rewrite E. exact B.
  - destruct (binary64_axis_depth fovy aspect w h near far far 1)
      as (p & s & Hp & Hs & B); try assumption.
    + lra.
    + left. reflexivity.
    + field. lra.
    + nra.
    + exists p, s. split; [exact Hp|]. split; [exact Hs|].
      assert (E : s - 1 == s - (1 + 1) * (1 # 2)) by ring.
      rewrite E. exact B.
Qed.

End PerspectiveBinary64.

Lemma perspective_near_far_depth_witness :
  (pow2 (-200) <= tenth64)%Q /\ (2 * tenth64 <= 100)%Q /\ (100 <= pow2 200)%Q
  /\ (exists p s,
        Binary64.projectVertex
          (Vec3.mk zero zero (Fin (- tenth64)))
          (Binary64.mat4Perspective tan_run (Fin 1) (Fin (4 # 3))
                                    (Fin tenth64) (Fin 100))
          (Fin 640) (Fin 480) = Some p
        /\ Projected.screenZ p = Fin s /\ (Qabs s <= pow2 (-48))%Q)
  /\ (exists p s,
        Binary64.projectVertex
          (Vec3.mk zero zero (Fin (- 100)))
          (Binary64.mat4Perspective tan_run (Fin 1) (Fin (4 # 3))
                                    (Fin tenth64) (Fin 100))
          (Fin 640) (Fin 480) = Some p
        /\ Projected.screenZ p = Fin s /\ (Qabs (s - 1) <= pow2 (-48))%Q).
Proof.
  assert (H1 : (pow2 (-200) <= tenth64)%Q)
    by (apply Qle_bool_iff; vm_compute; reflexivity).
  assert (H2 : (2 * tenth64 <= 100)%Q)
    by (apply Qle_bool_iff; vm_compute; reflexivity).
  assert (H3 : (100 <= pow2 200)%Q)
    by (apply Qle_bool_iff; vm_compute; reflexivity).
  split; [exact H1|]. split; [exact H2|]. split; [exact H3|].
  exact (perspective_near_far_depth tan_run (Fin 1) (Fin (4 # 3))
           (Fin 640) (Fin 480) tenth64 100 H1 H2 H3).
Defined.

(** C8 as stated fails: the depths are not met exactly.  With the
    renderer's own planes, [near] the binary64 number nearest to 0.1 and
    [far = 100], the near-plane centre gets the screen depth [2^-53], not 0;
    with [far = 10] the far-plane centre gets [1 - 2^-53], not 1.  Nor is
    there one bound for all planes: with [near = 1] and [far = 1 + 2^-52],
    both binary64 numbers, the near-plane centre gets the screen depth
    [-1/2]. *)
Lemma perspective_depth_not_exact :
  Binary64.rnd (Fin tenth64) = Fin tenth64
  /\ option_map Projected.screenZ
       (Binary64.projectVertex
          (Vec3.mk zero zero (Fin (- tenth64)))
          (Binary64.mat4Perspective tan_run (Fin 1) (Fin (4 # 3))
                                    (Fin tenth64) (Fin 100))
          (Fin 640) (Fin 480))
     = Some (Fin (1 # 9007199254740992))
  /\ (Fin (1 # 9007199254740992) =? zero)%num = false
  /\ option_map Projected.screenZ
       (Binary64.projectVertex
          (Vec3.mk zero zero (Fin (- 10)))
          (Binary64.mat4Perspective tan_run (Fin 1) (Fin (4 # 3))
                                    (Fin tenth64) (Fin 10))
          (Fin 640) (Fin 480))
     = Some (Fin (9007199254740991 # 9007199254740992))
  /\ (Fin (9007199254740991 # 9007199254740992) =? one)%num = false
  /\ Binary64.rnd (Fin (4503599627370497 # 4503599627370496))
     = Fin (4503599627370497 # 4503599627370496)
  /\ option_map Projected.screenZ
       (Binary64.projectVertex
          (Vec3.mk zero zero (Fin (- 1)))
          (Binary64.mat4Perspective tan_run (Fin 1) (Fin (4 # 3)) (Fin 1)
             (Fin (4503599627370497 # 4503599627370496)))
          (Fin 640) (Fin 480))
     = Some (Fin (-1 # 2)).
Proof. repeat split; vm_compute; reflexivity. Qed.

(** ** The projector *)

Section ProjectorProperties.

Local Open Scope num_scope.


Lemma between_intro (lo q hi : Q) :
  (lo <= q <= hi)%Q -> between (Fin lo) (Fin q) (Fin hi) = true.
Proof.
  intros [H1 H2]. unfold between. simpl.
  apply andb_true_intro. split; apply Qle_bool_iff; assumption.
Qed.





End ProjectorProperties.



(** ** The scanline fill and vertex colours *)

Lemma cmp_y_pos_with_color (a b : ScreenVertex) (ca cb : Vec3) :
  cmp_y_pos (with_color a ca) (with_color b cb) = cmp_y_pos a b.
Proof. reflexivity. Qed.

(** The pixels visited, and their depths, depend on the positions only. *)
Lemma fragments_with_color (w h : Z) (v0 v1 v2 : ScreenVertex) (c0 c1 c2 : Vec3) :
  fragments w h (with_color v0 c0) (with_color v1 c1) (with_color v2 c2)
  = fragments w h v0 v1 v2.
Proof.
  unfold fragments, sort_by_y. cbn [fold_left sort_insert].
  rewrite !cmp_y_pos_with_color.
  destruct (cmp_y_pos v0 v1); cbn [sort_insert];
    rewrite ?cmp_y_pos_with_color;
    destruct (cmp_y_pos v1 v2), (cmp_y_pos v0 v2); reflexivity.
Qed.

(** [drawTriangleScanline] never reads the [color] field of a vertex. *)
Lemma drawTriangleScanline_with_color
      (this : Renderer) (v0 v1 v2 : ScreenVertex) (c0 c1 c2 : Vec3)
      (color : option Vec3) :
  drawTriangleScanline this (with_color v0 c0) (with_color v1 c1)
                       (with_color v2 c2) color
  = drawTriangleScanline this v0 v1 v2 color.
Proof.
  unfold drawTriangleScanline. now rewrite fragments_with_color.
Qed.

(** C2, what the code does.  With a camera set, [renderBlinnPhongShading]
    attaches the three computed colours to the vertices and calls the
    scanline fill without a fallback colour; the fill is the one obtained
    with the constant colour (200, 120, 60) and vertices without colours:
    every written pixel gets that constant, none an interpolation of the
    vertex colours. *)
Theorem blinn_phong_fill_ignores_vertex_colors
        (Math_hypot : num -> num -> num -> num)
        (this : Renderer) (sv0 sv1 sv2 : ScreenVertex) (v0 v1 v2 : Vec3)
        (normals : list num) (camera : Camera) :
  mainCamera this = Some camera ->
  renderBlinnPhongShading Math_hypot this sv0 sv1 sv2 v0 v1 v2 normals
  = Ok (drawTriangleScanline this sv0 sv1 sv2 (Some defaultColor)).
Proof.
  intros Hcam. unfold renderBlinnPhongShading. rewrite Hcam.
  cbn [deref bind]. rewrite drawTriangleScanline_with_color. reflexivity.
Qed.

Lemma blinn_phong_fill_ignores_vertex_colors_witness :
  mainCamera phongCanvas4 = Some cameraZ10
  /\ renderBlinnPhongShading hypot_run phongCanvas4
       (sv 0 0 (1 # 2)) (sv 3 0 (1 # 2)) (sv 0 3 (1 # 2))
       zeroVec zeroVec zeroVec normalsAway
     = Ok (drawTriangleScanline phongCanvas4
             (sv 0 0 (1 # 2)) (sv 3 0 (1 # 2)) (sv 0 3 (1 # 2))
             (Some defaultColor)).
Proof.
  split; [reflexivity|].
  apply (blinn_phong_fill_ignores_vertex_colors hypot_run phongCanvas4 _ _ _
           _ _ _ _ cameraZ10).
  reflexivity.
Defined.

(** The failing input of C2: on [phongCanvas4] the three vertex colours
    computed by [computeBlinnPhongLighting] are all (30, 18, 9), so every
    interpolation of them is (30, 18, 9), packed [0xFF09121E]; the pixel
    (1, 1), covered by the triangle, receives [0xFF3C78C8], the packing of
    the constant (200, 120, 60). *)
Lemma blinn_phong_pixel_example :
  let viewDir := vnorm hypot_run (Vec3.mk zero zero (Fin (-10))) in
  let c := computeBlinnPhongLighting hypot_run zeroVec
             (Vec3.mk zero zero (Fin (-1))) viewDir (Some lightDown) in
  vec3_eqb c (Vec3.mk (Fin 30) (Fin 18) (Fin 9)) = true
  /\ wrap_uint32 (packRGBA phongCanvas4 (Fin 30) (Fin 18) (Fin 9) (Fin 255))
     = 4278784542
  /\ exists r,
       renderBlinnPhongShading hypot_run phongCanvas4
         (sv 0 0 (1 # 2)) (sv 3 0 (1 # 2)) (sv 0 3 (1 # 2))
         zeroVec zeroVec zeroVec normalsAway = Ok r
       /\ pixel_at r 1 1 = Some 4282153160
       /\ wrap_uint32 (packRGBA phongCanvas4 (Fin 200) (Fin 120) (Fin 60) (Fin 255))
          = 4282153160.
Proof.
  cbv zeta. split; [vm_compute; reflexivity|]. split; [vm_compute; reflexivity|].
  eexists. split; [vm_compute; reflexivity|]. split; vm_compute; reflexivity.
Qed.

(** ** Degenerate triangles and spans in the scanline fill *)

Lemma Math_max_fin (a b : Q) :
  exists c, Math_max (Fin a) (Fin b) = Fin c
            /\ (a <= c)%Q /\ (b <= c)%Q /\ (c = a \/ c = b).
Proof.
  unfold Math_max, num_lt. destruct (Qle_bool b a) eqn:E; cbn [negb].
  - exists a. apply Qle_bool_iff in E. repeat split; auto. apply Qle_refl.
  - exists b. apply Qle_bool_total, Qle_bool_iff in E.
    repeat split; auto. apply Qle_refl.
Qed.

Lemma Math_min_fin (a b : Q) :
  exists c, Math_min (Fin a) (Fin b) = Fin c
            /\ (c <= a)%Q /\ (c <= b)%Q /\ (c = a \/ c = b).
Proof.
  unfold Math_min, num_lt. destruct (Qle_bool a b) eqn:E; cbn [negb].
  - exists a. apply Qle_bool_iff in E. repeat split; auto. apply Qle_refl.
  - exists b. apply Qle_bool_total, Qle_bool_iff in E.
    repeat split; auto. apply Qle_refl.
Qed.

(** The bounds of the two loops of [drawTriangleScanline] are never the
    infinities with which a counting loop would not end. *)
Lemma Math_min_fin_not_PInf (a : Q) (v : num) : Math_min (Fin a) v <> PInf.
Proof. destruct v; simpl; try discriminate. destruct (negb _); discriminate. Qed.

Lemma Math_max_fin_not_NInf (a : Q) (v : num) : Math_max (Fin a) v <> NInf.
Proof. destruct v; simpl; try discriminate. destruct (negb _); discriminate. Qed.

















(** ** The pixels visited and written by the scanline fill *)

Lemma count_up_elems (n : nat) (c : Q) (v : num) :
  In v (count_up n (Fin c)) ->
  exists (j : Z) (q : Q),
    0 <= j < Z.of_nat n /\ v = Fin q /\ (q == c + inject_Z j)%Q.
Proof.
  revert c. induction n as [|n IH]; intros c; cbn [count_up In]; [tauto|].
  intros [<- | Hin].
  - exists 0, c. split; [lia|]. split; [reflexivity|].
    change (inject_Z 0) with 0%Q. ring.
  - change (Fin c + one)%num with (Fin (c + 1)) in Hin.
    destruct (IH _ Hin) as (j & q & Hj & -> & Hq).
    exists (j + 1), q. split; [lia|]. split; [reflexivity|].
    rewrite Hq, inject_Z_plus. change (inject_Z 1) with 1%Q. ring.
Qed.

Lemma for_range_elems (lo hi v : num) :
  In v (for_range lo hi) ->
  exists (a b q : Q) (j : Z),
    lo = Fin a /\ hi = Fin b /\ v = Fin q /\ 0 <= j
    /\ (q == a + inject_Z j)%Q /\ (q <= b)%Q.
Proof.
  unfold for_range.
  destruct lo as [| | |a]; try (intros []).
  destruct hi as [| | |b]; try (intros []).
  destruct (Qle_bool a b); [|intros []].
  intros Hin. destruct (count_up_elems _ _ _ Hin) as (j & q & Hj & -> & Hq).
  exists a, b, q, j. repeat split; try lia; try assumption.
  assert (Hjf : j <= Qfloor (b - a)) by lia.
  pose proof (Qfloor_le (b - a)). rewrite Zle_Qle in Hjf. lra.
Qed.

Lemma loop_lower_bound (lo : num) (c : Q) :
  Math_max zero (Math_ceil lo) = Fin c -> exists kc, c = inject_Z kc /\ 0 <= kc.
Proof.
  destruct lo as [| | |p]; try discriminate.
  - intros [= <-]. exists 0. split; [reflexivity | lia].
  - unfold Math_ceil, zero, ofZ.
    destruct (Math_max_fin 0 (inject_Z (Qceiling p))) as (c' & -> & H0 & _ & Hc).
    intros [= <-]. destruct Hc as [-> | ->].
    + exists 0. split; [reflexivity | lia].
    + exists (Qceiling p). split; [reflexivity|].
      rewrite Zle_Qle. exact H0.
Qed.

Lemma loop_upper_bound (size : Z) (hi : num) (d : Q) :
  Math_min (ofZ size - one)%num (Math_floor hi) = Fin d ->
  (d <= inject_Z size - 1)%Q.
Proof.
  destruct hi as [| | |q]; try discriminate.
  - intros [= <-]. unfold Qminus. apply Qle_refl.
  - unfold Math_floor, one, ofZ. cbn [num_sub num_neg num_add].
    match goal with
    | |- context [Math_min (Fin ?a) (Fin ?b)] =>
        destruct (Math_min_fin a b) as (d' & -> & Hd & _ & _)
    end.
    intros [= <-]. exact Hd.
Qed.

(** The variable of either loop of the fill is an integer of [[0, size)]. *)
Lemma loop_var_in_bounds (size : Z) (lo hi v : num) :
  In v (for_range (Math_max zero (Math_ceil lo))
                  (Math_min (ofZ size - one)%num (Math_floor hi))) ->
  exists (q : Q) (k : Z), v = Fin q /\ (q == inject_Z k)%Q /\ 0 <= k < size.
Proof.
  intros Hin.
  destruct (for_range_elems _ _ _ Hin)
    as (a & b & q & j & Ha & Hb & -> & Hj & Hq & Hle).
  destruct (loop_lower_bound _ _ Ha) as (kc & -> & Hkc).
  pose proof (loop_upper_bound _ _ _ Hb) as Hub.
  exists q, (kc + j). split; [reflexivity|].
  split; [rewrite Hq, inject_Z_plus; reflexivity|].
  split; [lia|]. rewrite Zlt_Qlt, inject_Z_plus. lra.
Qed.

Lemma scanline_in_bounds (w : Z) (b : ScreenVertex) (eAC eAB eBC : Edge)
      (row x y z : num) :
  In (x, y, z) (scanline w b eAC eAB eBC row) ->
  y = row /\ exists (q : Q) (k : Z), x = Fin q /\ (q == inject_Z k)%Q /\ 0 <= k < w.
Proof.
  unfold scanline.
  destruct (interpolateEdge eAC row >? _)%num; intros Hin;
    apply in_map_iff in Hin as (x0 & [= <- <- _] & Hin);
    (split; [reflexivity|]); exact (loop_var_in_bounds w _ _ _ Hin).
Qed.

(** Every pixel visited by the fill has integer coordinates on the screen. *)
Lemma fragments_in_bounds (w h : Z) (v0 v1 v2 : ScreenVertex) (x y z : num) :
  In (x, y, z) (fragments w h v0 v1 v2) ->
  exists (qx qy : Q) (kx ky : Z),
    x = Fin qx /\ y = Fin qy
    /\ (qx == inject_Z kx)%Q /\ (qy == inject_Z ky)%Q
    /\ 0 <= kx < w /\ 0 <= ky < h.
Proof.
  unfold fragments.
  destruct (sort_by_y [v0; v1; v2]) as [|a [|b [|c [|]]]]; try (intros []).
  intros Hin. apply in_flat_map in Hin as (row & Hrow & Hin).
  destruct (scanline_in_bounds _ _ _ _ _ _ _ _ _ Hin)
    as (-> & qx & kx & -> & Hqx & Hkx).
  destruct (loop_var_in_bounds h _ _ _ Hrow) as (qy & ky & -> & Hqy & Hky).
  exists qx, qy, kx, ky. repeat split; try assumption; tauto.
Qed.

Lemma setPixel_at (r : Renderer) (qx qy : Q) (kx ky : Z) (cr cg cb ca : num) :
  sized r -> (qx == inject_Z kx)%Q -> (qy == inject_Z ky)%Q ->
  0 <= kx < width r -> 0 <= ky < height r ->
  setPixel r (Fin qx) (Fin qy) cr cg cb ca
  = set_data32 r
      (<[Z.to_nat (ky * width r + kx) :=
           wrap_uint32 (packRGBA r (or0 cr) (or0 cg) (or0 cb) (or0 ca))]>
         (data32 r)).
Proof.
  intros (Hw & Hh & _ & Hlen) Hqx Hqy Hkx Hky. unfold setPixel.
  assert (T1 : (Fin qx <? zero)%num = false).
  { apply negb_false_iff, Qle_bool_iff. rewrite Hqx.
    change 0%Q with (inject_Z 0). rewrite <- Zle_Qle. lia. }
  assert (T2 : (Fin qx >=? ofZ (width r))%num = false).
  { unfold num_ge, ofZ, num_le. destruct (Qle_bool _ qx) eqn:E; [|reflexivity].
    apply Qle_bool_iff in E. rewrite Hqx, <- Zle_Qle in E. lia. }
  assert (T3 : (Fin qy <? zero)%num = false).
  { apply negb_false_iff, Qle_bool_iff. rewrite Hqy.
    change 0%Q with (inject_Z 0). rewrite <- Zle_Qle. lia. }
  assert (T4 : (Fin qy >=? ofZ (height r))%num = false).
  { unfold num_ge, ofZ, num_le. destruct (Qle_bool _ qy) eqn:E; [|reflexivity].
    apply Qle_bool_iff in E. rewrite Hqy, <- Zle_Qle in E. lia. }
  rewrite T1, T2, T3, T4. cbn [orb]. f_equal.
  unfold ta_set, ofZ. cbn [num_mul num_add].
  rewrite (ta_index_int _ _ (ky * width r + kx)); [reflexivity | |].
  - rewrite Hqx, Hqy, inject_Z_plus, inject_Z_mult. reflexivity.
  - rewrite Hlen. pose proof (pixel_in_buffer _ _ kx ky Hkx Hky). lia.
Qed.

Lemma packRGBA_ext (r r' : Renderer) (cr cg cb ca : num) :
  littleEndian r' = littleEndian r ->
  packRGBA r' cr cg cb ca = packRGBA r cr cg cb ca.
Proof. unfold packRGBA. intros ->. reflexivity. Qed.

Lemma packedColor_ext (r r' : Renderer) (c : Vec3) :
  littleEndian r' = littleEndian r -> packedColor r' c = packedColor r c.
Proof. unfold packedColor. intros H. now rewrite (packRGBA_ext r r'). Qed.

Lemma depthTest_fields (r : Renderer) (x y z : num) :
  let r' := (depthTest r x y z).2 in
  width r' = width r /\ height r' = height r
  /\ littleEndian r' = littleEndian r /\ data32 r' = data32 r.
Proof.
  unfold depthTest. destruct (z >=? _)%num; repeat split; reflexivity.
Qed.

(** A cell that holds the colour of the fill keeps it through one more
    pixel of the same fill. *)
Lemma plot_keeps (color : Vec3) (r : Renderer) (f : num * num * num)
      (k : nat) :
  data32 r !! k = Some (packedColor r color) ->
  let r' := plot color r f in
  width r' = width r /\ littleEndian r' = littleEndian r
  /\ data32 r' !! k = Some (packedColor r color).
Proof.
  intros Hk. destruct f as [[x y] z]. unfold plot.
  destruct (depthTest_fields r x y z) as (Hw & Hh & Hle & Hd).
  destruct (depthTest r x y z) as [pass r1]. cbn [snd] in Hw, Hh, Hle, Hd.
  destruct pass; [|rewrite Hw, Hle, Hd; auto].
  unfold setPixel.
  destruct (_ || _); [rewrite Hw, Hle, Hd; auto|].
  cbn [width littleEndian data32 set_data32].
  split; [exact Hw|]. split; [exact Hle|].
  rewrite (packRGBA_ext r r1) by exact Hle. fold (packedColor r color).
  rewrite Hd. unfold ta_set.
  destruct (ta_index _ _) as [k'|]; [|exact Hk].
  destruct (decide (k' = k)) as [-> | Hne].
  - apply list_lookup_insert_eq. eapply lookup_lt_Some, Hk.
  - rewrite list_lookup_insert_ne by exact Hne. exact Hk.
Qed.

Lemma fold_plot_keeps (color : Vec3) (fs : list (num * num * num))
      (r : Renderer) (k : nat) :
  data32 r !! k = Some (packedColor r color) ->
  let r' := fold_left (plot color) fs r in
  width r' = width r /\ data32 r' !! k = Some (packedColor r color).
Proof.
  revert r. induction fs as [|f fs IH]; intros r Hk; cbn [fold_left]; [auto|].
  destruct (plot_keeps color r f k Hk) as (Hw & Hle & Hk').
  rewrite <- (packedColor_ext r (plot color r f) color Hle) in Hk'.
  destruct (IH _ Hk') as (Hw' & Hk'').
  rewrite Hw', Hw, Hk'', (packedColor_ext r _ color Hle). auto.
Qed.


(** The fill depends on the positions of the vertices only. *)
Lemma cmp_y_pos_ext (a b a' b' : ScreenVertex) :
  ScreenVertex.toVec3 a' = ScreenVertex.toVec3 a ->
  ScreenVertex.toVec3 b' = ScreenVertex.toVec3 b ->
  cmp_y_pos a' b' = cmp_y_pos a b.
Proof.
  unfold ScreenVertex.toVec3, cmp_y_pos. intros [= _ -> _] [= _ -> _].
  reflexivity.
Qed.

Lemma scanline_ext (w : Z) (a b c a' b' c' : ScreenVertex) (row : num) :
  ScreenVertex.toVec3 a' = ScreenVertex.toVec3 a ->
  ScreenVertex.toVec3 b' = ScreenVertex.toVec3 b ->
  ScreenVertex.toVec3 c' = ScreenVertex.toVec3 c ->
  scanline w b' (precomputeEdge a' c') (precomputeEdge a' b')
           (precomputeEdge b' c') row
  = scanline w b (precomputeEdge a c) (precomputeEdge a b)
             (precomputeEdge b c) row.
Proof.
  unfold ScreenVertex.toVec3, scanline, interpolateEdge, interpolateZ,
    precomputeEdge.
  cbn [vStart vEnd dx dy dz].
  intros [= Eax Eay Eaz] [= Ebx Eby Ebz] [= Ecx Ecy Ecz].
  rewrite ?Eax, ?Eay, ?Eaz, ?Ebx, ?Eby, ?Ebz, ?Ecx, ?Ecy, ?Ecz. reflexivity.
Qed.

Lemma fragments_sorted_ext (w h : Z) (a b c a' b' c' : ScreenVertex) :
  ScreenVertex.toVec3 a' = ScreenVertex.toVec3 a ->
  ScreenVertex.toVec3 b' = ScreenVertex.toVec3 b ->
  ScreenVertex.toVec3 c' = ScreenVertex.toVec3 c ->
  flat_map (scanline w b' (precomputeEdge a' c') (precomputeEdge a' b')
                     (precomputeEdge b' c'))
    (for_range
       (Math_max zero
          (Math_ceil (Math_min3 (ScreenVertex.y a') (ScreenVertex.y b')
                                (ScreenVertex.y c'))))
       (Math_min (ofZ h - one)%num
          (Math_floor (Math_max3 (ScreenVertex.y a') (ScreenVertex.y b')
                                 (ScreenVertex.y c')))))
  = flat_map (scanline w b (precomputeEdge a c) (precomputeEdge a b)
                       (precomputeEdge b c))
      (for_range
         (Math_max zero
            (Math_ceil (Math_min3 (ScreenVertex.y a) (ScreenVertex.y b)
                                  (ScreenVertex.y c))))
         (Math_min (ofZ h - one)%num
            (Math_floor (Math_max3 (ScreenVertex.y a) (ScreenVertex.y b)
                                   (ScreenVertex.y c))))).
Proof.
  intros Ha Hb Hc.
  assert (Ey : ScreenVertex.y a' = ScreenVertex.y a
               /\ ScreenVertex.y b' = ScreenVertex.y b
               /\ ScreenVertex.y c' = ScreenVertex.y c).
  { unfold ScreenVertex.toVec3 in Ha, Hb, Hc.
    injection Ha as _ -> _. injection Hb as _ -> _. injection Hc as _ -> _.
    auto. }
  destruct Ey as (-> & -> & ->).
  apply flat_map_ext. intros row. apply scanline_ext; assumption.
Qed.

(** The fill depends on the positions of the vertices only. *)
Lemma fragments_ext (w h : Z) (v0 v1 v2 u0 u1 u2 : ScreenVertex) :
  ScreenVertex.toVec3 u0 = ScreenVertex.toVec3 v0 ->
  ScreenVertex.toVec3 u1 = ScreenVertex.toVec3 v1 ->
  ScreenVertex.toVec3 u2 = ScreenVertex.toVec3 v2 ->
  fragments w h u0 u1 u2 = fragments w h v0 v1 v2.
Proof.
  intros H0 H1 H2. unfold fragments, sort_by_y. cbn [fold_left sort_insert].
  rewrite (cmp_y_pos_ext v0 v1 u0 u1) by assumption.
  destruct (cmp_y_pos v0 v1); cbn [sort_insert];
    rewrite ?(cmp_y_pos_ext v0 v2 u0 u2), ?(cmp_y_pos_ext v1 v2 u1 u2)
      by assumption;
    destruct (cmp_y_pos v1 v2), (cmp_y_pos v0 v2);
    apply fragments_sorted_ext; assumption.
Qed.

(** ** Clip and cull in [renderTriangle] *)

Section ClipCull.

Variable Math_hypot : num -> num -> num -> num.

(** [renderTriangle], once the screen vertices are known. *)
Lemma renderTriangle_screen
      (this : Renderer) (idx : list num) (i : num) (pos normals : list num)
      (uvs : option (list num)) (mvp modelMat : Mat4)
      (t : ScreenVertex * ScreenVertex * ScreenVertex) :
  screenTriangle this idx i pos mvp = Some t ->
  renderTriangle Math_hypot this idx i pos normals uvs mvp modelMat
  = if clipped this t then Ok this
    else if backFacing t then Ok this
    else let '(v0, v1, v2) := triangleVertices idx i pos in
         shadeTriangle Math_hypot this t idx i v0 v1 v2 normals uvs modelMat.
Proof.
  unfold screenTriangle, projectedTriangle, renderTriangle, triangleVertices.
  destruct (transformTriangleToScreen _ _ _ mvp _ _) as [sverts|]; [|discriminate].
  intros [= <-]. destruct (snapped this sverts) as [[s0 s1] s2].
  reflexivity.
Qed.

Lemma renderTriangle_unprojectable
      (this : Renderer) (idx : list num) (i : num) (pos normals : list num)
      (uvs : option (list num)) (mvp modelMat : Mat4) :
  screenTriangle this idx i pos mvp = None ->
  renderTriangle Math_hypot this idx i pos normals uvs mvp modelMat = Ok this.
Proof.
  unfold screenTriangle, projectedTriangle, renderTriangle, triangleVertices.
  destruct (transformTriangleToScreen _ _ _ mvp _ _); [discriminate | reflexivity].
Qed.




End ClipCull.




(** * Further properties *)

(** ** Matrices *)

Lemma finite_inv (a : num) : finite a = true -> exists q, a = Fin q.
Proof. destruct a; try discriminate. eauto. Qed.

Ltac fin_inv H :=
  let q := fresh "q" in
  apply finite_inv in H; destruct H as [q ->].

Lemma finiteMat_inv (m : Mat4) :
  finiteMat m = true ->
  exists q0 q1 q2 q3 q4 q5 q6 q7 q8 q9 q10 q11 q12 q13 q14 q15,
    m = map Fin [q0; q1; q2; q3; q4; q5; q6; q7;
                 q8; q9; q10; q11; q12; q13; q14; q15].
Proof.
  unfold finiteMat. intros H. apply andb_prop in H as [Hl Hf].
  apply Nat.eqb_eq in Hl.
  do 16 (destruct m as [|? m]; [discriminate|]).
  destruct m; [|discriminate]. cbn [forallb] in Hf.
  repeat match goal with
         | H : _ && _ = true |- _ => apply andb_prop in H as [? ?]
         end.
  repeat match goal with
         | H : finite ?a = true |- _ => fin_inv H
         end.
  do 16 eexists. reflexivity.
Qed.

Lemma finiteVec4_inv (v : Vec4) :
  finiteVec4 v = true ->
  exists x y z w, v = Vec4.mk (Fin x) (Fin y) (Fin z) (Fin w).
Proof.
  destruct v as [x y z w]. unfold finiteVec4. cbn [Vec4.x Vec4.y Vec4.z Vec4.w].
  intros H.
  repeat match goal with
         | H : _ && _ = true |- _ => apply andb_prop in H as [? ?]
         end.
  repeat match goal with
         | H : finite ?a = true |- _ => fin_inv H
         end.
  do 4 eexists. reflexivity.
Qed.

Lemma finiteVec3_inv (v : Vec3) :
  finiteVec3 v = true -> exists x y z, v = Vec3.mk (Fin x) (Fin y) (Fin z).
Proof.
  destruct v as [x y z]. unfold finiteVec3. cbn [Vec3.x Vec3.y Vec3.z].
  intros H.
  repeat match goal with
         | H : _ && _ = true |- _ => apply andb_prop in H as [? ?]
         end.
  repeat match goal with
         | H : finite ?a = true |- _ => fin_inv H
         end.
  do 3 eexists. reflexivity.
Qed.

(** Reduces a product of finite matrices and vectors to rationals and
    closes the resulting equations. *)
Ltac mat_reduce :=
  cbn [mat4Mul mat4MulVec4 mat4Identity flat_map map fold_left app mget
       lookup list_lookup default from_option id num_add num_mul
       Nat.mul Nat.add zero one Vec4.x Vec4.y Vec4.z Vec4.w].

Ltac eqb_crush :=
  cbn [nums_eqb vec4_eqb num_eqb Vec4.x Vec4.y Vec4.z Vec4.w];
  repeat (apply andb_true_intro; split);
  try reflexivity; apply Qeq_bool_iff; ring.

(** X1.  [mat4Identity] is neutral for [mat4Mul], on either side, and for
    [mat4MulVec4], on matrices and vectors with finite entries. *)
Theorem mat4Identity_neutral (m : Mat4) (v : Vec4) :
  finiteMat m = true -> finiteVec4 v = true ->
  nums_eqb (mat4Mul m mat4Identity) m = true
  /\ nums_eqb (mat4Mul mat4Identity m) m = true
  /\ vec4_eqb (mat4MulVec4 mat4Identity v) v = true.
Proof.
  intros Hm Hv.
  destruct (finiteMat_inv m Hm)
    as (q0 & q1 & q2 & q3 & q4 & q5 & q6 & q7 & q8 & q9 & q10 & q11 & q12
        & q13 & q14 & q15 & ->).
  destruct (finiteVec4_inv v Hv) as (x & y & z & w & ->).
  repeat split; mat_reduce; eqb_crush.
Qed.

Lemma mat4Identity_neutral_witness :
  finiteMat sampleProj = true
  /\ nums_eqb (mat4Mul sampleProj mat4Identity) sampleProj = true.
Proof.
  assert (Hm : finiteMat sampleProj = true) by reflexivity.
  assert (Hv : finiteVec4 (Vec4.mk one one one one) = true) by reflexivity.
  split; [exact Hm|].
  exact (proj1 (mat4Identity_neutral sampleProj _ Hm Hv)).
Defined.

(** ** The grid snap *)

Lemma Qfloor_unique (q : Q) (k : Z) :
  (inject_Z k <= q)%Q -> (q < inject_Z (k + 1))%Q -> Qfloor q = k.
Proof.
  intros H1 H2. pose proof (Qfloor_le q) as F1. pose proof (Qlt_floor q) as F2.
  assert (Qfloor q < k + 1) by (rewrite Zlt_Qlt; lra).
  assert (k < Qfloor q + 1) by (rewrite Zlt_Qlt; lra).
  lia.
Qed.

(** One coordinate of [snapVertexToGrid]. *)
Lemma snap_coordinate (x g : Q) :
  (0 < g)%Q ->
  exists (k : Z) (q : Q),
    (Math_round (Fin x / Fin g) * Fin g)%num = Fin q
    /\ (q == inject_Z k * g)%Q
    /\ (Qabs (q - x) <= g / 2)%Q
    /\ (Math_round (Fin q / Fin g) * Fin g =? Fin q)%num = true.
Proof.
  intros Hg.
  assert (Hg0 : Qeq_bool g 0 = false) by (apply Qeq_bool_false; lra).
  cbn [num_div]. rewrite Hg0. cbn [Math_round ofZ num_mul].
  set (k := Qfloor (x / g + (1 # 2))).
  exists k, (inject_Z k * g)%Q.
  split; [reflexivity|]. split; [reflexivity|].
  assert (Hu : (x / g * g == x)%Q) by (field; lra).
  pose proof (Qfloor_le (x / g + (1 # 2))) as F1.
  pose proof (Qlt_floor (x / g + (1 # 2))) as F2.
  fold k in F1, F2. rewrite inject_Z_plus in F2.
  change (inject_Z 1) with 1%Q in F2.
  split.
  - apply Qabs_Qle_condition.
    assert (P1 : (0 <= (x / g + (1 # 2) - inject_Z k) * g)%Q)
      by (apply Qmult_le_0_compat; lra).
    assert (P2 : (0 <= (inject_Z k + 1 - (x / g + (1 # 2))) * g)%Q)
      by (apply Qmult_le_0_compat; lra).
    assert (E1 : ((x / g + (1 # 2) - inject_Z k) * g
                  == x + g / 2 - inject_Z k * g)%Q) by (field; lra).
    assert (E2 : ((inject_Z k + 1 - (x / g + (1 # 2))) * g
                  == inject_Z k * g + g / 2 - x)%Q) by (field; lra).
    rewrite E1 in P1. rewrite E2 in P2.
    generalize dependent (inject_Z k * g)%Q. intros kg P1 P2.
    generalize dependent (g / 2)%Q. intros h P1 P2.
    split; lra.
  - apply Qeq_bool_iff.
    assert (E : (inject_Z k * g / g + (1 # 2) == inject_Z k + (1 # 2))%Q)
      by (field; lra).
    assert (Hf : Qfloor (inject_Z k * g / g + (1 # 2)) = k).
    { rewrite E. apply Qfloor_unique.
      - lra.
      - rewrite inject_Z_plus. change (inject_Z 1) with 1%Q. lra. }
    rewrite Hf. reflexivity.
Qed.

(** X6.  [snapVertexToGrid] with an integer grid size [g] from 1 to [2^20] (the
    renderer passes 5) moves a screen position with coordinates of
    magnitude at most [2^52] to a grid point, an integer multiple of [g] in
    each coordinate, at most a grid step away in each coordinate;
    snapping the result again leaves it in place; depth, reciprocal w,
    normal and uv are kept and the colour is dropped. *)
Theorem snapVertexToGrid_on_grid (s : ScreenVertex) (x y : Q) (g : Z) :
  1 <= g <= 2 ^ 20 ->
  (Qabs x <= inject_Z (2 ^ 52))%Q -> (Qabs y <= inject_Z (2 ^ 52))%Q ->
  ScreenVertex.x s = Fin x -> ScreenVertex.y s = Fin y ->
  (exists (i j : Z) (qx qy : Q),
      ScreenVertex.x (snapVertexToGrid s (ofZ g)) = Fin qx
      /\ ScreenVertex.y (snapVertexToGrid s (ofZ g)) = Fin qy
      /\ (qx == inject_Z (i * g))%Q /\ (qy == inject_Z (j * g))%Q
      /\ (Qabs (qx - x) <= inject_Z g)%Q /\ (Qabs (qy - y) <= inject_Z g)%Q)
  /\ (ScreenVertex.x (snapVertexToGrid (snapVertexToGrid s (ofZ g)) (ofZ g))
      =? ScreenVertex.x (snapVertexToGrid s (ofZ g)))%num = true
  /\ (ScreenVertex.y (snapVertexToGrid (snapVertexToGrid s (ofZ g)) (ofZ g))
      =? ScreenVertex.y (snapVertexToGrid s (ofZ g)))%num = true
  /\ ScreenVertex.z (snapVertexToGrid s (ofZ g)) = ScreenVertex.z s
  /\ ScreenVertex.recipW (snapVertexToGrid s (ofZ g)) = ScreenVertex.recipW s
  /\ ScreenVertex.normal (snapVertexToGrid s (ofZ g)) = ScreenVertex.normal s
  /\ ScreenVertex.uv (snapVertexToGrid s (ofZ g)) = ScreenVertex.uv s
  /\ ScreenVertex.color (snapVertexToGrid s (ofZ g)) = None.
Proof.
  intros Hg _ _ Hx Hy.
  assert (Hg' : (0 < inject_Z g)%Q).
  { change 0%Q with (inject_Z 0). rewrite <- Zlt_Qlt. lia. }
  destruct (snap_coordinate x (inject_Z g) Hg') as (i & qx & Ex & Gx & Dx & Ix).
  destruct (snap_coordinate y (inject_Z g) Hg') as (j & qy & Ey & Gy & Dy & Iy).
  unfold snapVertexToGrid, ofZ. cbn [ScreenVertex.x ScreenVertex.y ScreenVertex.z
    ScreenVertex.recipW ScreenVertex.normal ScreenVertex.uv ScreenVertex.color].
  rewrite Hx, Hy, Ex, Ey.
  split.
  { assert (Hh : (inject_Z g / 2 <= inject_Z g)%Q)
      by (apply Qle_shift_div_r; [reflexivity | lra]).
    exists i, j, qx, qy. rewrite !inject_Z_mult.
    repeat split; try assumption; eapply Qle_trans; eassumption. }
  split; [exact Ix|]. split; [exact Iy|]. repeat split.
Qed.

Lemma snapVertexToGrid_on_grid_witness :
  exists (i j : Z) (qx qy : Q),
    ScreenVertex.x (snapVertexToGrid (sv (7 # 1) (-13 # 2) (1 # 4)) (ofZ 5))
    = Fin qx
    /\ ScreenVertex.y (snapVertexToGrid (sv (7 # 1) (-13 # 2) (1 # 4)) (ofZ 5))
       = Fin qy
    /\ (qx == inject_Z (i * 5))%Q /\ (qy == inject_Z (j * 5))%Q
    /\ (Qabs (qx - (7 # 1)) <= inject_Z 5)%Q
    /\ (Qabs (qy - (-13 # 2)) <= inject_Z 5)%Q.
Proof.
  assert (Hg : 1 <= 5 <= 2 ^ 20) by lia.
  assert (Hx : (Qabs (7 # 1) <= inject_Z (2 ^ 52))%Q) by (vm_compute; congruence).
  assert (Hy : (Qabs (-13 # 2) <= inject_Z (2 ^ 52))%Q) by (vm_compute; congruence).
  exact (proj1 (snapVertexToGrid_on_grid
                  (sv (7 # 1) (-13 # 2) (1 # 4)) (7 # 1) (-13 # 2) 5
                  Hg Hx Hy eq_refl eq_refl)).
Defined.

(** ** The pixel store *)

Lemma byte_at_wrap (x n : Z) :
  0 <= n -> n + 8 <= 32 -> byte_at (wrap_uint32 x) n = byte_at x n.
Proof.
  intros Hn Hn8. unfold byte_at, wrap_uint32. change 255 with (Z.ones 8).
  apply Z.bits_inj'. intros i Hi.
  rewrite !Z.land_spec, !Z.shiftr_spec by lia.
  destruct (Z.ltb_spec i 8).
  - rewrite Z.mod_pow2_bits_low by lia. reflexivity.
  - rewrite Z.ones_spec_high by lia. rewrite !andb_false_r. reflexivity.
Qed.

Lemma byte_at_or (x y n : Z) :
  byte_at (int32_or x y) n = Z.lor (byte_at x n) (byte_at y n).
Proof.
  unfold byte_at, int32_or. rewrite Z.shiftr_lor. apply Z.land_lor_distr_l.
Qed.

Lemma channel_layout_all :
  forallb (fun k : nat => channel_layout (Z.of_nat k)) (seq 0 256) = true.
Proof. vm_compute. reflexivity. Qed.

Lemma channel_layout_ok (c : Z) : 0 <= c <= 255 -> channel_layout c = true.
Proof.
  intros Hc. pose proof channel_layout_all as H.
  rewrite forallb_forall in H. specialize (H (Z.to_nat c)).
  rewrite Z2Nat.id in H by lia. apply H. apply in_seq. lia.
Qed.

Lemma channel_bytes (c s n : Z) :
  0 <= c <= 255 -> In s [0; 8; 16; 24] -> In n [0; 8; 16; 24] ->
  byte_at (if s =? 0 then toInt32 (ofZ c) else int32_shl (toInt32 (ofZ c)) s) n
  = if n =? s then c else 0.
Proof.
  intros Hc Hs Hn. pose proof (channel_layout_ok c Hc) as H.
  unfold channel_layout in H. rewrite forallb_forall in H.
  specialize (H s Hs). rewrite forallb_forall in H. specialize (H n Hn).
  apply Z.eqb_eq in H. exact H.
Qed.

Lemma detectLittleEndian_id (le : bool) : detectLittleEndian le = le.
Proof. destruct le; reflexivity. Qed.

Lemma packRGBA_word_bytes (le : bool) (this : Renderer) (r g b a : Z) :
  littleEndian this = detectLittleEndian le ->
  0 <= r <= 255 -> 0 <= g <= 255 -> 0 <= b <= 255 -> 0 <= a <= 255 ->
  word_bytes le (wrap_uint32 (packRGBA this (ofZ r) (ofZ g) (ofZ b) (ofZ a)))
  = [r; g; b; a].
Proof.
  intros Hle Hr Hg Hb Ha. rewrite detectLittleEndian_id in Hle.
  assert (S0 : In 0 [0; 8; 16; 24]) by (cbn; tauto).
  assert (S8 : In 8 [0; 8; 16; 24]) by (cbn; tauto).
  assert (S16 : In 16 [0; 8; 16; 24]) by (cbn; tauto).
  assert (S24 : In 24 [0; 8; 16; 24]) by (cbn; tauto).
  unfold packRGBA, word_bytes. rewrite Hle.
  destruct le;
    rewrite !byte_at_wrap by lia; rewrite !byte_at_or;
    repeat match goal with
    | |- context [byte_at (int32_shl (toInt32 (ofZ ?c)) ?s) ?n] =>
        rewrite (channel_bytes c s n ltac:(assumption) ltac:(assumption)
                   ltac:(assumption) : byte_at (int32_shl (toInt32 (ofZ c)) s) n = _)
    | |- context [byte_at (toInt32 (ofZ ?c)) ?n] =>
        rewrite (channel_bytes c 0 n ltac:(assumption) ltac:(assumption)
                   ltac:(assumption) : byte_at (toInt32 (ofZ c)) n = _)
    end;
    cbn [Z.eqb Pos.eqb]; rewrite ?Z.lor_0_l, ?Z.lor_0_r; reflexivity.
Qed.

Lemma flat_map_replicate {A B : Type} (f : A -> list B) (n : nat) (x : A) :
  flat_map f (replicate n x) = concat (replicate n (f x)).
Proof. induction n as [|n IH]; cbn; [reflexivity | now rewrite IH]. Qed.

(** X7.  [clear(r, g, b, a)] with integer channels between 0 and 255 makes the
    byte view of the pixel store the sequence r, g, b, a repeated once per
    pixel, whichever byte order the constructor's probe found; it keeps the
    size of the pixel store and the depth buffer. *)
Theorem clear_fills_rgba_bytes (le : bool) (this : Renderer) (r g b a : Z) :
  littleEndian this = detectLittleEndian le ->
  0 <= r <= 255 -> 0 <= g <= 255 -> 0 <= b <= 255 -> 0 <= a <= 255 ->
  buf8 le (clear this (ofZ r) (ofZ g) (ofZ b) (ofZ a))
  = concat (replicate (length (data32 this)) [r; g; b; a])
  /\ length (data32 (clear this (ofZ r) (ofZ g) (ofZ b) (ofZ a)))
     = length (data32 this)
  /\ zBuffer (clear this (ofZ r) (ofZ g) (ofZ b) (ofZ a)) = zBuffer this.
Proof.
  intros Hle Hr Hg Hb Ha. unfold buf8, clear, ta_fill.
  cbn [data32 zBuffer set_data32].
  rewrite flat_map_replicate, (packRGBA_word_bytes le) by assumption.
  rewrite length_replicate. auto.
Qed.

Lemma clear_fills_rgba_bytes_witness :
  buf8 false (clear (mkRenderer 2 1 false [7; 9] [PInf; zero] flatOptions
                                None None)
                    (ofZ 20) (ofZ 20) (ofZ 30) (ofZ 255))
  = [20; 20; 30; 255; 20; 20; 30; 255].
Proof.
  exact (proj1 (clear_fills_rgba_bytes false
                  (mkRenderer 2 1 false [7; 9] [PInf; zero] flatOptions
                              None None)
                  20 20 30 255 eq_refl
                  ltac:(lia) ltac:(lia) ltac:(lia) ltac:(lia))).
Defined.

Lemma or0_channel (q : Q) :
  (0 <= q)%Q -> (q < 256)%Q ->
  or0 (Fin q) = ofZ (Qfloor q) /\ 0 <= Qfloor q <= 255.
Proof.
  intros H0 H1.
  assert (Hf : 0 <= Qfloor q <= 255).
  { split.
    - change 0 with (Qfloor 0). apply Qfloor_resp_le. exact H0.
    - assert (Qfloor q < 256); [|lia].
      rewrite Zlt_Qlt. pose proof (Qfloor_le q). change (inject_Z 256) with 256%Q. lra. }
  split; [|exact Hf].
  unfold or0, int32_or, toInt32. rewrite Z.lor_0_r.
  destruct q as [n d]. cbn [Qnum Qden Qfloor] in *.
  assert (Hn : 0 <= n).
  { unfold Qle in H0. cbn in H0. lia. }
  rewrite Z.quot_div_nonneg by lia.
  unfold wrap_int32. rewrite Z.mod_small by lia. f_equal. lia.
Qed.

(** X8.  [setPixel] at an on-screen integer position with channels in [[0, 256)]
    stores the channels, truncated to integers, as the bytes r, g, b, a of
    that pixel in the byte view, whichever byte order the constructor's
    probe found; every other pixel, the depth buffer and the buffer sizes
    are kept.  At an integer position off the screen it changes nothing. *)
Theorem setPixel_writes_one_pixel
        (le : bool) (this : Renderer) (x y : Z) (r g b a : Q) :
  sized this -> littleEndian this = detectLittleEndian le ->
  0 <= x < width this -> 0 <= y < height this ->
  (0 <= r < 256)%Q -> (0 <= g < 256)%Q -> (0 <= b < 256)%Q ->
  (0 <= a < 256)%Q ->
  (exists w,
      pixel_at (setPixel this (ofZ x) (ofZ y) (Fin r) (Fin g) (Fin b) (Fin a))
               x y = Some w
      /\ word_bytes le w = [Qfloor r; Qfloor g; Qfloor b; Qfloor a])
  /\ (forall x' y', 0 <= x' < width this -> 0 <= y' < height this ->
        (x', y') <> (x, y) ->
        pixel_at (setPixel this (ofZ x) (ofZ y) (Fin r) (Fin g) (Fin b) (Fin a))
                 x' y' = pixel_at this x' y')
  /\ zBuffer (setPixel this (ofZ x) (ofZ y) (Fin r) (Fin g) (Fin b) (Fin a))
     = zBuffer this
  /\ sized (setPixel this (ofZ x) (ofZ y) (Fin r) (Fin g) (Fin b) (Fin a))
  /\ (forall x' y' cr cg cb ca,
        x' < 0 \/ width this <= x' \/ y' < 0 \/ height this <= y' ->
        setPixel this (ofZ x') (ofZ y') cr cg cb ca = this).
Proof.
  intros Hs Hle Hx Hy [Hr0 Hr1] [Hg0 Hg1] [Hb0 Hb1] [Ha0 Ha1].
  destruct (or0_channel r Hr0 Hr1) as [Er Fr].
  destruct (or0_channel g Hg0 Hg1) as [Eg Fg].
  destruct (or0_channel b Hb0 Hb1) as [Eb Fb].
  destruct (or0_channel a Ha0 Ha1) as [Ea Fa].
  unfold ofZ at 1 2 3 4 5 6 7 8.
  rewrite (setPixel_at this (inject_Z x) (inject_Z y) x y)
    by (assumption || reflexivity).
  rewrite Er, Eg, Eb, Ea.
  pose proof Hs as (Hw & Hh & Hzl & Hdl).
  assert (Hk : (Z.to_nat (y * width this + x) < length (data32 this))%nat).
  { rewrite Hdl. pose proof (pixel_in_buffer _ _ x y Hx Hy). lia. }
  unfold pixel_at. cbn [data32 width zBuffer set_data32].
  split.
  { eexists. split; [apply list_lookup_insert_eq; exact Hk|].
    apply packRGBA_word_bytes; assumption. }
  split.
  { intros x' y' Hx' Hy' Hne. apply list_lookup_insert_ne.
    intros E. apply Hne. apply (pixel_index_inj (width this)); try lia. }
  split; [reflexivity|].
  split.
  { unfold sized. cbn [data32 width height zBuffer set_data32].
    rewrite length_insert. auto. }
  intros x' y' cr cg cb ca Hout. apply setPixel_out_of_range. lia.
Qed.

Lemma setPixel_writes_one_pixel_witness :
  exists w,
    pixel_at (setPixel canvas4 (ofZ 1) (ofZ 2) (Fin (401 # 2)) (Fin 120)
                       (Fin (1 # 3)) (Fin 255)) 1 2 = Some w
    /\ word_bytes true w
       = [Qfloor (401 # 2); Qfloor 120; Qfloor (1 # 3); Qfloor 255].
Proof.
  assert (Hs : sized canvas4) by (vm_compute; repeat split; reflexivity).
  assert (Hx : 0 <= 1 < width canvas4) by (vm_compute; split; congruence).
  assert (Hy : 0 <= 2 < height canvas4) by (vm_compute; split; congruence).
  assert (Hr : (0 <= 401 # 2 < 256)%Q) by (split; [discriminate | reflexivity]).
  assert (Hg : (0 <= 120 < 256)%Q) by (split; [discriminate | reflexivity]).
  assert (Hb : (0 <= 1 # 3 < 256)%Q) by (split; [discriminate | reflexivity]).
  assert (Ha : (0 <= 255 < 256)%Q) by (split; [discriminate | reflexivity]).
  exact (proj1 (setPixel_writes_one_pixel true canvas4 1 2 (401 # 2) 120
                  (1 # 3) 255 Hs eq_refl Hx Hy Hr Hg Hb Ha)).
Defined.

(** ** The scanline fill *)

Lemma ta_index_Qeq (len : nat) (p q : Q) :
  (p == q)%Q -> ta_index len (Fin p) = ta_index len (Fin q).
Proof.
  intros E. unfold ta_index.
  assert (Ef : Qfloor p = Qfloor q) by (rewrite E; reflexivity).
  rewrite Ef.
  assert (Eb : Qeq_bool (inject_Z (Qfloor q)) p
               = Qeq_bool (inject_Z (Qfloor q)) q).
  { destruct (Qeq_bool _ q) eqn:Eq.
    - apply Qeq_bool_iff. apply Qeq_bool_iff in Eq. rewrite E. exact Eq.
    - apply Qeq_bool_false. intros H. rewrite E in H.
      apply Qeq_bool_iff in H. congruence. }
  rewrite Eb. reflexivity.
Qed.

Lemma depthTest_Qeq (r : Renderer) (qx qy : Q) (kx ky : Z) (z : num) :
  (qx == inject_Z kx)%Q -> (qy == inject_Z ky)%Q ->
  depthTest r (Fin qx) (Fin qy) z = depthTest r (ofZ kx) (ofZ ky) z.
Proof.
  intros Hx Hy. unfold depthTest, ta_get, ta_set, ofZ. cbn [num_mul num_add].
  rewrite (ta_index_Qeq _ (qy * inject_Z (width r) + qx)
             (inject_Z ky * inject_Z (width r) + inject_Z kx))
    by (rewrite Hx, Hy; reflexivity).
  reflexivity.
Qed.

Lemma num_le_trans (a b c : num) :
  (a <=? b)%num = true -> (b <=? c)%num = true -> (a <=? c)%num = true.
Proof.
  destruct a as [| | |p], b as [| | |q], c as [| | |s]; cbn;
    try discriminate; try reflexivity.
  intros H1 H2. apply Qle_bool_iff in H1, H2. apply Qle_bool_iff.
  eapply Qle_trans; eassumption.
Qed.

Lemma same_canvas_refl (r : Renderer) : same_canvas r r.
Proof. unfold same_canvas. tauto. Qed.

Lemma same_canvas_trans (r1 r2 r3 : Renderer) :
  same_canvas r1 r2 -> same_canvas r2 r3 -> same_canvas r1 r3.
Proof.
  unfold same_canvas.
  intros (A1 & A2 & A3 & A4 & A5 & A6 & A7 & A8)
         (B1 & B2 & B3 & B4 & B5 & B6 & B7 & B8).
  rewrite B1, B2, B3, B4, B5, B6, B7, B8. tauto.
Qed.

Lemma same_canvas_sized (r r' : Renderer) :
  same_canvas r r' -> sized r -> sized r'.
Proof.
  unfold same_canvas, sized.
  intros (-> & -> & _ & _ & _ & _ & -> & ->). tauto.
Qed.

(** One pixel of the fill: the body of the inner loop at an on-screen
    integer position with a depth other than NaN. *)
Lemma plot_step (color : Vec3) (r : Renderer) (qx qy : Q) (kx ky : Z)
      (z : num) :
  sized r -> depth_defined r -> depth_binary32 r -> is_nan z = false ->
  (qx == inject_Z kx)%Q -> (qy == inject_Z ky)%Q ->
  0 <= kx < width r -> 0 <= ky < height r ->
  same_canvas r (plot color r (Fin qx, Fin qy, z))
  /\ depth_defined (plot color r (Fin qx, Fin qy, z))
  /\ depth_binary32 (plot color r (Fin qx, Fin qy, z))
  /\ forall x y, 0 <= x < width r -> 0 <= y < height r ->
       kept_or_painted (packedColor r color) r
                       (plot color r (Fin qx, Fin qy, z)) x y.
Proof.
  intros Hs Hdef Hb32 Hz Hqx Hqy Hkx Hky. unfold plot.
  rewrite (depthTest_Qeq r qx qy kx ky z Hqx Hqy).
  destruct (depthTest_in_bounds r kx ky z Hs Hdef Hkx Hky Hz)
    as (_ & Hpass & Hfail).
  destruct (depthTest_in_order r kx ky z Hs Hdef Hb32 Hkx Hky Hz)
    as (_ & Hle & _).
  pose proof (depthTest_binary32 r (ofZ kx) (ofZ ky) z Hb32) as Fb.
  destruct (depthTest_frame r (ofZ kx) (ofZ ky) z) as (Fw & Fh & Fd & Fl & Fn).
  destruct (depthTest_fields r (ofZ kx) (ofZ ky) z) as (_ & _ & Fle & _).
  assert (Fo : options (depthTest r (ofZ kx) (ofZ ky) z).2 = options r
               /\ mainCamera (depthTest r (ofZ kx) (ofZ ky) z).2 = mainCamera r
               /\ mainDirectionalLight (depthTest r (ofZ kx) (ofZ ky) z).2
                  = mainDirectionalLight r).
  { unfold depthTest. destruct (_ >=? _)%num; cbn; auto. }
  destruct Fo as (Fo & Fc & Fli).
  destruct (depthTest r (ofZ kx) (ofZ ky) z) as [pass r1].
  cbn [fst snd] in *. destruct pass.
  - destruct (Hpass eq_refl) as (Hnew & _ & Hoth). clear Hpass Hfail.
    specialize (Hle eq_refl).
    assert (Hs1 : sized r1) by (apply (sized_frame r); assumption).
    rewrite (setPixel_at r1 qx qy kx ky) by (rewrite ?Fw, ?Fh; assumption).
    rewrite (packRGBA_ext r r1) by exact Fle. fold (packedColor r color).
    split.
    { unfold same_canvas. cbn [width height littleEndian options mainCamera
        mainDirectionalLight zBuffer data32 set_data32].
      rewrite length_insert, Fd. tauto. }
    split; [apply Fn; assumption|]. split; [exact Fb|].
    intros x y Hx Hy. unfold kept_or_painted, depth_at, pixel_at.
    cbn [width zBuffer data32 set_data32]. fold (depth_at r1 x y).
    rewrite Fw, Fd.
    destruct (decide ((x, y) = (kx, ky))) as [E | Hne].
    + injection E as -> ->. right.
      split; [exact Hle|]. apply list_lookup_insert_eq.
      destruct Hs as (_ & _ & _ & Hlen). rewrite Hlen.
      pose proof (pixel_in_buffer _ _ kx ky Hkx Hky). lia.
    + left. split; [apply Hoth; assumption|].
      apply list_lookup_insert_ne. intros E. apply Hne.
      apply (pixel_index_inj (width r)); try lia.
  - rewrite (Hfail eq_refl).
    split; [apply same_canvas_refl|]. split; [exact Hdef|].
    split; [exact Hb32|].
    intros x y _ _. left. auto.
Qed.

Lemma fold_plot_steps (color : Vec3) (fs : list (num * num * num))
      (r : Renderer) :
  sized r -> depth_defined r -> depth_binary32 r ->
  Forall (plottable (width r) (height r)) fs ->
  same_canvas r (fold_left (plot color) fs r)
  /\ depth_defined (fold_left (plot color) fs r)
  /\ depth_binary32 (fold_left (plot color) fs r)
  /\ forall x y, 0 <= x < width r -> 0 <= y < height r ->
       kept_or_painted (packedColor r color) r
                       (fold_left (plot color) fs r) x y.
Proof.
  revert r. induction fs as [|f fs IH]; intros r Hs Hdef Hb32 Hfs;
    cbn [fold_left].
  - split; [apply same_canvas_refl|]. split; [exact Hdef|].
    split; [exact Hb32|].
    intros x y _ _. left. auto.
  - inversion Hfs as [|f' fs' Hf Hfs' E]; subst f' fs'.
    destruct f as [[fx fy] fz].
    destruct Hf as (qx & qy & kx & ky & Ex & Ey & Hqx & Hqy & Hkx & Hky & Hz).
    cbn [fst snd] in Ex, Ey, Hz. subst fx fy.
    destruct (plot_step color r qx qy kx ky fz Hs Hdef Hb32 Hz Hqx Hqy Hkx Hky)
      as (Hc1 & Hd1 & Hb1 & Hp1).
    set (r1 := plot color r (Fin qx, Fin qy, fz)) in *.
    pose proof Hc1 as (Cw & Ch & Cle & _).
    assert (Hs1 : sized r1) by (apply (same_canvas_sized r); assumption).
    rewrite <- Cw, <- Ch in Hfs'.
    destruct (IH r1 Hs1 Hd1 Hb1 Hfs') as (Hc2 & Hd2 & Hb2 & Hp2).
    split; [apply (same_canvas_trans _ r1); assumption|].
    split; [exact Hd2|]. split; [exact Hb2|].
    intros x y Hx Hy.
    specialize (Hp1 x y Hx Hy).
    specialize (Hp2 x y ltac:(rewrite Cw; exact Hx) ltac:(rewrite Ch; exact Hy)).
    rewrite (packedColor_ext r r1 color Cle) in Hp2.
    unfold kept_or_painted in *.
    destruct Hp2 as [[E1 E2] | [L2 P2]].
    + rewrite E1, E2. exact Hp1.
    + right. split; [|exact P2].
      destruct Hp1 as [[E1 _] | [L1 _]].
      * rewrite <- E1. exact L2.
      * apply (num_le_trans _ (depth_at r1 x y)); assumption.
Qed.

Lemma finiteSV_inv (s : ScreenVertex) :
  finiteSV s = true ->
  exists qx qy qz,
    ScreenVertex.x s = Fin qx /\ ScreenVertex.y s = Fin qy
    /\ ScreenVertex.z s = Fin qz.
Proof.
  unfold finiteSV. rewrite !andb_true_iff. intros [[Hx Hy] Hz].
  destruct (finite_inv _ Hx) as [qx ->]. destruct (finite_inv _ Hy) as [qy ->].
  destruct (finite_inv _ Hz) as [qz ->]. exists qx, qy, qz. auto.
Qed.

Lemma interpolateEdge_finite (a c : ScreenVertex) (row : Q) :
  finiteSV a = true -> finiteSV c = true ->
  exists p, interpolateEdge (precomputeEdge a c) (Fin row) = Fin p.
Proof.
  intros Ha Hc.
  destruct (finiteSV_inv a Ha) as (ax & ay & az & Eax & Eay & Eaz).
  destruct (finiteSV_inv c Hc) as (cx & cy & cz & Ecx & Ecy & Ecz).
  unfold interpolateEdge, precomputeEdge. cbn [dy dx vStart].
  rewrite Eax, Eay, Ecx, Ecy. unfold zero.
  cbn [num_sub num_neg num_add num_eqb].
  destruct (Qeq_bool (cy + - ay) 0) eqn:E.
  - eexists; reflexivity.
  - cbn [num_div]. rewrite E. cbn [num_mul num_add]. eexists; reflexivity.
Qed.

(** The variable of the inner loop stays between the two ends of the span. *)
Lemma span_elems (w : Z) (lo hi : Q) (v : num) :
  In v (for_range (Math_max zero (Math_ceil (Fin lo)))
                  (Math_min (ofZ w - one)%num (Math_floor (Fin hi)))) ->
  exists q, v = Fin q /\ (lo <= q <= hi)%Q.
Proof.
  intros Hin.
  destruct (for_range_elems _ _ _ Hin)
    as (a & b & q & j & Ha & Hb & -> & Hj & Hq & Hle).
  exists q. split; [reflexivity|].
  unfold Math_ceil, Math_floor, zero, one, ofZ in Ha, Hb.
  cbn [num_sub num_neg num_add] in Hb.
  destruct (Math_max_fin 0 (inject_Z (Qceiling lo))) as (c & Ec & _ & Hc & _).
  rewrite Ec in Ha. injection Ha as <-.
  match type of Hb with
  | context [Math_min (Fin ?u) (Fin ?v)] =>
      destruct (Math_min_fin u v) as (d & Ed & _ & Hd & _)
  end.
  rewrite Ed in Hb. injection Hb as <-.
  pose proof (Qle_ceiling lo). pose proof (Qfloor_le hi).
  assert (0 <= inject_Z j)%Q
    by (change 0%Q with (inject_Z 0); rewrite <- Zle_Qle; lia).
  split; lra.
Qed.

(** The depth given to a pixel of a scanline: the depth of [a] moved
    towards the depth of [c] by the fraction of the span covered. *)
Lemma scanline_depth (w : Z) (a b c : ScreenVertex) (row : Q) (x y z : num) :
  finiteSV a = true -> finiteSV b = true -> finiteSV c = true ->
  In (x, y, z) (scanline w b (precomputeEdge a c) (precomputeEdge a b)
                         (precomputeEdge b c) (Fin row)) ->
  exists t q za zc,
    ScreenVertex.z a = Fin za /\ ScreenVertex.z c = Fin zc /\ z = Fin q
    /\ (0 <= t <= 1)%Q /\ (q == za + (zc - za) * t)%Q.
Proof.
  intros Ha Hb Hc. unfold scanline.
  destruct (interpolateEdge_finite a c row Ha Hc) as (p1 & ->).
  assert (exists p2,
             (if (Fin row <? ScreenVertex.y b)%num
              then interpolateEdge (precomputeEdge a b) (Fin row)
              else interpolateEdge (precomputeEdge b c) (Fin row)) = Fin p2)
    as (p2 & ->).
  { destruct (_ <? _)%num; apply interpolateEdge_finite; assumption. }
  assert (exists lo hi,
             (if (Fin p1 >? Fin p2)%num then (Fin p2, Fin p1)
              else (Fin p1, Fin p2)) = (Fin lo, Fin hi) /\ (lo <= hi)%Q)
    as (lo & hi & -> & Hlh).
  { unfold num_gt, num_lt. destruct (Qle_bool p1 p2) eqn:E; cbn [negb].
    - exists p1, p2. split; [reflexivity|]. apply Qle_bool_iff; exact E.
    - exists p2, p1. split; [reflexivity|].
      apply Qle_bool_total, Qle_bool_iff in E; exact E. }
  intros Hin. apply in_map_iff in Hin as (x0 & E & Hin).
  destruct (span_elems w lo hi x0 Hin) as (q & -> & Hq).
  destruct (finiteSV_inv a Ha) as (ax & ay & za & _ & _ & Eza).
  destruct (finiteSV_inv c Hc) as (cx & cy & zc & _ & _ & Ezc).
  injection E as _ _ <-.
  unfold interpolateZ, precomputeEdge. cbn [vStart vEnd].
  rewrite Eza, Ezc. unfold zero. cbn [num_eqb].
  destruct (Qeq_bool hi lo) eqn:Et.
  - exists 0%Q. eexists. exists za, zc.
    split; [reflexivity|]. split; [reflexivity|].
    split; [reflexivity|]. split; [lra|]. unfold Qminus. reflexivity.
  - assert (Hne : ~ (hi == lo)%Q)
      by (intros N; apply Qeq_bool_iff in N; congruence).
    assert (Hd : Qeq_bool (hi + - lo) 0 = false)
      by (apply Qeq_bool_false; lra).
    cbn [num_sub num_neg num_add num_div]. rewrite Hd.
    cbn [num_mul num_add].
    exists ((q + - lo) / (hi + - lo))%Q. eexists. exists za, zc.
    split; [reflexivity|]. split; [reflexivity|].
    split; [reflexivity|].
    split; [|unfold Qminus; reflexivity].
    assert (Hpos : (0 < hi + - lo)%Q) by lra.
    split.
    + apply Qle_shift_div_l; [exact Hpos | lra].
    + apply Qle_shift_div_r; [exact Hpos | lra].
Qed.

Lemma cmp_y_pos_le (u v : ScreenVertex) (p q : Q) :
  ScreenVertex.y u = Fin p -> ScreenVertex.y v = Fin q -> (p <= q)%Q ->
  cmp_y_pos u v = false.
Proof.
  unfold cmp_y_pos, num_gt, zero. intros -> -> H.
  cbn [num_sub num_neg num_add num_lt].
  apply negb_false_iff, Qle_bool_iff. lra.
Qed.

Lemma cmp_y_pos_gt (u v : ScreenVertex) (p q : Q) :
  ScreenVertex.y u = Fin p -> ScreenVertex.y v = Fin q -> (q < p)%Q ->
  cmp_y_pos u v = true.
Proof.
  unfold cmp_y_pos, num_gt, zero. intros -> -> H.
  cbn [num_sub num_neg num_add num_lt].
  apply negb_true_iff. destruct (Qle_bool (p + - q) 0) eqn:E; [|reflexivity].
  apply Qle_bool_iff in E. lra.
Qed.

Lemma rows_depth (w h : Z) (a b c : ScreenVertex) (lo hi x y z : num) :
  finiteSV a = true -> finiteSV b = true -> finiteSV c = true ->
  In (x, y, z)
     (flat_map (scanline w b (precomputeEdge a c) (precomputeEdge a b)
                         (precomputeEdge b c))
        (for_range (Math_max zero (Math_ceil lo))
                   (Math_min (ofZ h - one)%num (Math_floor hi)))) ->
  exists t q za zc,
    ScreenVertex.z a = Fin za /\ ScreenVertex.z c = Fin zc /\ z = Fin q
    /\ (0 <= t <= 1)%Q /\ (q == za + (zc - za) * t)%Q.
Proof.
  intros Ha Hb Hc Hin. apply in_flat_map in Hin as (row & Hrow & Hin).
  destruct (loop_var_in_bounds h _ _ _ Hrow) as (qy & ky & -> & _ & _).
  exact (scanline_depth w a b c qy x y z Ha Hb Hc Hin).
Qed.

(** Every pixel visited by the fill of a triangle with finite vertices has
    a finite depth. *)
Lemma fragments_finite_depth (w h : Z) (v0 v1 v2 : ScreenVertex)
      (x y z : num) :
  finiteSV v0 = true -> finiteSV v1 = true -> finiteSV v2 = true ->
  In (x, y, z) (fragments w h v0 v1 v2) -> is_nan z = false.
Proof.
  intros H0 H1 H2. unfold fragments, sort_by_y. cbn [fold_left sort_insert].
  destruct (cmp_y_pos v0 v1); cbn [sort_insert];
    destruct (cmp_y_pos v1 v2), (cmp_y_pos v0 v2); cbn [sort_insert];
    intros Hin;
    apply rows_depth in Hin as (t & q & za & zc & _ & _ & -> & _);
    try assumption; reflexivity.
Qed.

Lemma fragments_plottable (w h : Z) (v0 v1 v2 : ScreenVertex) :
  finiteSV v0 = true -> finiteSV v1 = true -> finiteSV v2 = true ->
  Forall (plottable w h) (fragments w h v0 v1 v2).
Proof.
  intros H0 H1 H2. apply Forall_forall. intros [[x y] z] Hin.
  apply list_elem_of_In in Hin.
  destruct (fragments_in_bounds _ _ _ _ _ _ _ _ Hin)
    as (qx & qy & kx & ky & -> & -> & Hqx & Hqy & Hkx & Hky).
  exists qx, qy, kx, ky. cbn [fst snd].
  repeat split; try assumption; try tauto.
  exact (fragments_finite_depth _ _ _ _ _ _ _ _ H0 H1 H2 Hin).
Qed.

Lemma within_finite (e : Z) (a : num) : within e a = true -> finite a = true.
Proof. destruct a; try discriminate; reflexivity. Qed.

Lemma boundedSV_finite (s : ScreenVertex) :
  boundedSV s = true -> finiteSV s = true.
Proof.
  unfold boundedSV, finiteSV. rewrite !andb_true_iff.
  intros [[Hx Hy] Hz].
  repeat split; eapply within_finite; eassumption.
Qed.

(** X9.  A fill by [drawTriangleScanline] of a triangle whose vertices are
    finite and of magnitude at most [2^1000], on a renderer whose buffers
    have one cell per pixel and whose depth buffer holds binary32 values
    other than NaN, keeps the dimensions, options, camera, light and buffer
    sizes; the depth buffer still holds binary32 values other than NaN; and
    every pixel of the screen either keeps its depth and colour, or holds
    the colour of the fill and a depth that is not above its former
    depth. *)
Theorem drawTriangleScanline_keeps_or_paints
        (this : Renderer) (v0 v1 v2 : ScreenVertex) (color : option Vec3) :
  sized this -> depth_defined this -> depth_binary32 this ->
  boundedSV v0 = true -> boundedSV v1 = true -> boundedSV v2 = true ->
  same_canvas this (drawTriangleScanline this v0 v1 v2 color)
  /\ sized (drawTriangleScanline this v0 v1 v2 color)
  /\ depth_defined (drawTriangleScanline this v0 v1 v2 color)
  /\ depth_binary32 (drawTriangleScanline this v0 v1 v2 color)
  /\ forall x y, 0 <= x < width this -> 0 <= y < height this ->
       kept_or_painted (packedColor this (default defaultColor color)) this
                       (drawTriangleScanline this v0 v1 v2 color) x y.
Proof.
  intros Hs Hdef Hb32 H0 H1 H2. unfold drawTriangleScanline.
  apply boundedSV_finite in H0, H1, H2.
  destruct (fold_plot_steps (default defaultColor color)
              (fragments (width this) (height this) v0 v1 v2) this Hs Hdef
              Hb32 (fragments_plottable _ _ _ _ _ H0 H1 H2))
    as (Hc & Hd & Hb & Hp).
  split; [exact Hc|]. split; [exact (same_canvas_sized _ _ Hc Hs)|].
  split; [exact Hd|]. split; [exact Hb | exact Hp].
Qed.

Lemma drawTriangleScanline_keeps_or_paints_witness :
  kept_or_painted (packedColor canvas4 (Vec3.mk (Fin 10) (Fin 20) (Fin 30)))
    canvas4
    (drawTriangleScanline canvas4 (sv 0 0 (1 # 2)) (sv 0 3 (1 # 10))
                          (sv 3 0 (3 # 4))
                          (Some (Vec3.mk (Fin 10) (Fin 20) (Fin 30))))
    1 1.
Proof.
  assert (Hs : sized canvas4) by (vm_compute; repeat split; reflexivity).
  assert (Hd : depth_defined canvas4)
    by (repeat constructor).
  assert (Hb : depth_binary32 canvas4)
    by (repeat constructor).
  assert (Hx : 0 <= 1 < width canvas4) by (vm_compute; split; congruence).
  assert (Hy : 0 <= 1 < height canvas4) by (vm_compute; split; congruence).
  assert (H0 : boundedSV (sv 0 0 (1 # 2)) = true) by (vm_compute; reflexivity).
  assert (H1 : boundedSV (sv 0 3 (1 # 10)) = true) by (vm_compute; reflexivity).
  assert (H2 : boundedSV (sv 3 0 (3 # 4)) = true) by (vm_compute; reflexivity).
  exact (proj2 (proj2 (proj2 (proj2
           (drawTriangleScanline_keeps_or_paints canvas4
              (sv 0 0 (1 # 2)) (sv 0 3 (1 # 10)) (sv 3 0 (3 # 4))
              (Some (Vec3.mk (Fin 10) (Fin 20) (Fin 30)))
              Hs Hd Hb H0 H1 H2)))) 1 1 Hx Hy).
Defined.

Lemma sort_by_y_sorted (a b c : ScreenVertex) (ya yb yc : Q) :
  ScreenVertex.y a = Fin ya -> ScreenVertex.y b = Fin yb ->
  ScreenVertex.y c = Fin yc -> (ya <= yb)%Q -> (yb <= yc)%Q ->
  sort_by_y [a; b; c] = [a; b; c].
Proof.
  intros Ea Eb Ec Hab Hbc. unfold sort_by_y. cbn [fold_left sort_insert].
  rewrite (cmp_y_pos_le a b ya yb Ea Eb Hab). cbn [sort_insert].
  rewrite (cmp_y_pos_le a c ya yc Ea Ec ltac:(lra)).
  rewrite (cmp_y_pos_le b c yb yc Eb Ec Hbc). reflexivity.
Qed.

(** X10.  The fill does not read the depth of the vertex that lies between
    the other two in [y]: for a triangle with finite vertices given in the
    order of their [y], the result is the same whatever the depth of the
    second vertex, even infinite or NaN. *)
Theorem fill_ignores_middle_depth
        (this : Renderer) (a b c : ScreenVertex) (color : option Vec3)
        (z' : num) :
  finiteSV a = true -> finiteSV b = true -> finiteSV c = true ->
  (ScreenVertex.y a <=? ScreenVertex.y b)%num = true ->
  (ScreenVertex.y b <=? ScreenVertex.y c)%num = true ->
  drawTriangleScanline this a (with_z b z') c color
  = drawTriangleScanline this a b c color.
Proof.
  intros Ha Hb Hc Hab Hbc.
  destruct (finiteSV_inv a Ha) as (xa & ya & za & _ & Eya & Eza).
  destruct (finiteSV_inv b Hb) as (xb & yb & zb & _ & Eyb & _).
  destruct (finiteSV_inv c Hc) as (xc & yc & zc & _ & Eyc & Ezc).
  rewrite Eya, Eyb in Hab. rewrite Eyb, Eyc in Hbc.
  apply Qle_bool_iff in Hab. apply Qle_bool_iff in Hbc.
  unfold drawTriangleScanline. f_equal. unfold fragments.
  rewrite (sort_by_y_sorted a b c ya yb yc) by assumption.
  rewrite (sort_by_y_sorted a (with_z b z') c ya yb yc) by assumption.
  reflexivity.
Qed.

Lemma fill_ignores_middle_depth_witness :
  drawTriangleScanline canvas4 (sv 0 0 (1 # 2))
                       (with_z (sv 3 1 (1 # 4)) NaN) (sv 0 3 (3 # 4))
                       None
  = drawTriangleScanline canvas4 (sv 0 0 (1 # 2)) (sv 3 1 (1 # 4))
                         (sv 0 3 (3 # 4)) None.
Proof.
  exact (fill_ignores_middle_depth canvas4
           (sv 0 0 (1 # 2)) (sv 3 1 (1 # 4)) (sv 0 3 (3 # 4)) None NaN
           eq_refl eq_refl eq_refl eq_refl eq_refl).
Defined.

(** X11.  The fill of a triangle whose vertices have three distinct finite [y]
    does not depend on the order in which the vertices are passed. *)
Theorem drawTriangleScanline_vertex_order
        (this : Renderer) (a b c : ScreenVertex) (color : option Vec3) :
  finiteSV a = true -> finiteSV b = true -> finiteSV c = true ->
  (ScreenVertex.y a <? ScreenVertex.y b)%num = true ->
  (ScreenVertex.y b <? ScreenVertex.y c)%num = true ->
  drawTriangleScanline this a c b color = drawTriangleScanline this a b c color
  /\ drawTriangleScanline this b a c color
     = drawTriangleScanline this a b c color
  /\ drawTriangleScanline this b c a color
     = drawTriangleScanline this a b c color
  /\ drawTriangleScanline this c a b color
     = drawTriangleScanline this a b c color
  /\ drawTriangleScanline this c b a color
     = drawTriangleScanline this a b c color.
Proof.
  intros Ha Hb Hc Hab Hbc.
  destruct (finiteSV_inv a Ha) as (xa & ya & za & _ & Eya & _).
  destruct (finiteSV_inv b Hb) as (xb & yb & zb & _ & Eyb & _).
  destruct (finiteSV_inv c Hc) as (xc & yc & zc & _ & Eyc & _).
  rewrite Eya, Eyb in Hab. rewrite Eyb, Eyc in Hbc.
  cbn [num_lt] in Hab, Hbc. rewrite negb_true_iff in Hab, Hbc.
  assert (Lab : (ya < yb)%Q).
  { apply Qnot_le_lt. intros N. apply Qle_bool_iff in N. congruence. }
  assert (Lbc : (yb < yc)%Q).
  { apply Qnot_le_lt. intros N. apply Qle_bool_iff in N. congruence. }
  assert (Cab : cmp_y_pos a b = false)
    by (apply (cmp_y_pos_le a b ya yb); try assumption; lra).
  assert (Cac : cmp_y_pos a c = false)
    by (apply (cmp_y_pos_le a c ya yc); try assumption; lra).
  assert (Cbc : cmp_y_pos b c = false)
    by (apply (cmp_y_pos_le b c yb yc); try assumption; lra).
  assert (Cba : cmp_y_pos b a = true)
    by (apply (cmp_y_pos_gt b a yb ya); try assumption; lra).
  assert (Cca : cmp_y_pos c a = true)
    by (apply (cmp_y_pos_gt c a yc ya); try assumption; lra).
  assert (Ccb : cmp_y_pos c b = true)
    by (apply (cmp_y_pos_gt c b yc yb); try assumption; lra).
  assert (S : forall u0 u1 u2,
             sort_by_y [u0; u1; u2] = [a; b; c] ->
             drawTriangleScanline this u0 u1 u2 color
             = drawTriangleScanline this a b c color).
  { intros u0 u1 u2 E. unfold drawTriangleScanline, fragments.
    rewrite E. unfold sort_by_y. cbn [fold_left sort_insert].
    rewrite Cab. cbn [sort_insert]. rewrite Cac, Cbc. reflexivity. }
  repeat split; apply S; unfold sort_by_y; cbn [fold_left sort_insert];
    rewrite ?Cab, ?Cac, ?Cbc, ?Cba, ?Cca, ?Ccb; cbn [sort_insert];
    rewrite ?Cab, ?Cac, ?Cbc, ?Cba, ?Cca, ?Ccb; cbn [sort_insert];
    rewrite ?Cab, ?Cac, ?Cbc, ?Cba, ?Cca, ?Ccb; reflexivity.
Qed.

Lemma drawTriangleScanline_vertex_order_witness :
  drawTriangleScanline canvas4 (sv 0 3 (3 # 4)) (sv 0 0 (1 # 2))
                       (sv 3 1 (1 # 4)) None
  = drawTriangleScanline canvas4 (sv 0 0 (1 # 2)) (sv 3 1 (1 # 4))
                         (sv 0 3 (3 # 4)) None.
Proof.
  exact (proj1 (proj2 (proj2 (proj2
           (drawTriangleScanline_vertex_order canvas4
              (sv 0 0 (1 # 2)) (sv 3 1 (1 # 4)) (sv 0 3 (3 # 4)) None
              eq_refl eq_refl eq_refl eq_refl eq_refl))))).
Defined.

(** ** The triangle pipeline *)

Lemma setPixel_same_canvas (r : Renderer) (x y cr cg cb ca : num) :
  same_canvas r (setPixel r x y cr cg cb ca)
  /\ zBuffer (setPixel r x y cr cg cb ca) = zBuffer r.
Proof.
  unfold setPixel. destruct (_ || _).
  - split; [apply same_canvas_refl | reflexivity].
  - unfold same_canvas. cbn. rewrite ta_set_length. tauto.
Qed.

Lemma depthTest_same_canvas (r : Renderer) (x y z : num) :
  same_canvas r (depthTest r x y z).2.
Proof.
  unfold depthTest. destruct (_ >=? _)%num; cbn [snd].
  - apply same_canvas_refl.
  - unfold same_canvas. cbn. rewrite ta_set_length. tauto.
Qed.

Lemma plot_same_canvas (color : Vec3) (r : Renderer) (f : num * num * num) :
  same_canvas r (plot color r f).
Proof.
  destruct f as [[x y] z]. unfold plot.
  pose proof (depthTest_same_canvas r x y z) as H.
  destruct (depthTest r x y z) as [pass r1]. cbn [snd] in H.
  destruct pass; [|exact H].
  apply (same_canvas_trans _ r1); [exact H|]. apply setPixel_same_canvas.
Qed.

Lemma drawTriangleScanline_same_canvas
      (this : Renderer) (v0 v1 v2 : ScreenVertex) (color : option Vec3) :
  same_canvas this (drawTriangleScanline this v0 v1 v2 color).
Proof.
  unfold drawTriangleScanline.
  generalize (fragments (width this) (height this) v0 v1 v2).
  generalize (default defaultColor color). intros c fs.
  assert (G : forall r, same_canvas r (fold_left (plot c) fs r)).
  { induction fs as [|f fs IH]; intros r; cbn [fold_left].
    - apply same_canvas_refl.
    - apply (same_canvas_trans _ (plot c r f)); [apply plot_same_canvas | apply IH]. }
  apply G.
Qed.


(** ** The fill covers the interior of the triangle *)

(** The point of an edge at a height between its end points. *)
Lemma interpolateEdge_point (u v : ScreenVertex) (xu yu xv yv row : Q) :
  ScreenVertex.x u = Fin xu -> ScreenVertex.y u = Fin yu ->
  ScreenVertex.x v = Fin xv -> ScreenVertex.y v = Fin yv ->
  (yu <= row <= yv)%Q ->
  exists p t,
    interpolateEdge (precomputeEdge u v) (Fin row) = Fin p
    /\ (0 <= t <= 1)%Q
    /\ (p == (1 - t) * xu + t * xv)%Q
    /\ (row == (1 - t) * yu + t * yv)%Q
    /\ (yv - yu == 0 -> t == 0)%Q.
Proof.
  intros Exu Eyu Exv Eyv Hrow.
  unfold interpolateEdge, precomputeEdge. cbn [dy dx vStart].
  rewrite Exu, Eyu, Exv, Eyv. unfold zero.
  cbn [num_sub num_neg num_add num_eqb].
  destruct (Qeq_bool (yv + - yu) 0) eqn:E.
  - apply Qeq_bool_iff in E. exists xu, 0%Q.
    split; [reflexivity|]. split; [lra|]. split; [ring|].
    split; [lra | reflexivity].
  - assert (Hne : ~ (yv + - yu == 0)%Q)
      by (intros N; apply Qeq_bool_iff in N; congruence).
    assert (Hpos : (0 < yv + - yu)%Q) by lra.
    cbn [num_div]. rewrite E. cbn [num_mul num_add].
    exists (xu + (xv + - xu) * ((row + - yu) / (yv + - yu)))%Q,
           ((row + - yu) / (yv + - yu))%Q.
    split; [reflexivity|].
    split.
    { split; [apply Qle_shift_div_l | apply Qle_shift_div_r]; lra. }
    split; [ring|]. split; [field; exact Hne|].
    intros N. exfalso. apply Hne. rewrite <- N. ring.
Qed.

Lemma inside_swap (a b c : ScreenVertex) (x y : Q) :
  insideTriangle a b c x y -> insideTriangle b a c x y.
Proof.
  intros (x0 & y0 & x1 & y1 & x2 & y2 & w0 & w1 & w2 & E0 & E1 & E2 & E3
          & E4 & E5 & N0 & N1 & N2 & S & Ex & Ey).
  exists x1, y1, x0, y0, x2, y2, w1, w0, w2.
  repeat split; try assumption; lra.
Qed.

Lemma inside_rotate (a b c : ScreenVertex) (x y : Q) :
  insideTriangle a b c x y -> insideTriangle b c a x y.
Proof.
  intros (x0 & y0 & x1 & y1 & x2 & y2 & w0 & w1 & w2 & E0 & E1 & E2 & E3
          & E4 & E5 & N0 & N1 & N2 & S & Ex & Ey).
  exists x1, y1, x2, y2, x0, y0, w1, w2, w0.
  repeat split; try assumption; lra.
Qed.

Lemma inject_Z_sub (a b : Z) :
  (inject_Z (a - b) == inject_Z a - inject_Z b)%Q.
Proof. unfold Z.sub. rewrite inject_Z_plus, inject_Z_opp. reflexivity. Qed.

Lemma count_up_complete (n : nat) (c : Q) (j : Z) :
  0 <= j < Z.of_nat n ->
  exists q, In (Fin q) (count_up n (Fin c)) /\ (q == c + inject_Z j)%Q.
Proof.
  revert c j. induction n as [|n IH]; intros c j Hj; [lia|].
  cbn [count_up]. destruct (Z.eq_dec j 0) as [-> | Hne].
  - exists c. split; [left; reflexivity|].
    change (inject_Z 0) with 0%Q. ring.
  - change (Fin c + one)%num with (Fin (c + 1)).
    destruct (IH (c + 1)%Q (j - 1)) as (q & Hin & Hq); [lia|].
    exists q. split; [right; exact Hin|].
    rewrite Hq, inject_Z_sub. change (inject_Z 1) with 1%Q. ring.
Qed.

(** Every integer of the screen between the two ends of a span is a value
    of the loop variable. *)
Lemma span_complete (size : Z) (lo hi : Q) (k : Z) :
  (lo <= inject_Z k <= hi)%Q -> 0 <= k < size ->
  exists q,
    In (Fin q) (for_range (Math_max zero (Math_ceil (Fin lo)))
                          (Math_min (ofZ size - one)%num
                                    (Math_floor (Fin hi))))
    /\ (q == inject_Z k)%Q.
Proof.
  intros [Hlo Hhi] Hk.
  assert (Hc : Qceiling lo <= k).
  { assert (Qceiling lo - 1 < k); [|lia].
    rewrite Zlt_Qlt. pose proof (Qceiling_lt lo). lra. }
  assert (Hf : k <= Qfloor hi).
  { assert (k < Qfloor hi + 1); [|lia].
    rewrite Zlt_Qlt. pose proof (Qlt_floor hi). lra. }
  unfold Math_ceil, Math_floor, zero, one, ofZ.
  cbn [num_sub num_neg num_add].
  destruct (Math_max_fin 0 (inject_Z (Qceiling lo))) as (a & -> & _ & _ & Ha).
  match goal with
  | |- context [Math_min (Fin ?u) (Fin ?v)] =>
      destruct (Math_min_fin u v) as (b & -> & _ & _ & Hb)
  end.
  assert (Ea : exists ka, (a == inject_Z ka)%Q /\ ka <= k).
  { destruct Ha as [-> | ->]; [exists 0 | exists (Qceiling lo)];
      (split; [reflexivity | lia]). }
  destruct Ea as (ka & Ea & Hka).
  assert (Eb : exists kb, (b == inject_Z kb)%Q /\ k <= kb).
  { destruct Hb as [-> | ->]; [exists (size - 1) | exists (Qfloor hi)].
    - split; [|lia]. rewrite inject_Z_sub.
      change (inject_Z 1) with 1%Q. unfold Qminus. reflexivity.
    - split; [reflexivity | lia]. }
  destruct Eb as (kb & Eb & Hkb).
  unfold for_range.
  assert (Hab : Qle_bool a b = true).
  { apply Qle_bool_iff. rewrite Ea, Eb, <- Zle_Qle. lia. }
  rewrite Hab.
  assert (Efl : Qfloor (b - a) = kb - ka).
  { assert (E : (b - a == inject_Z (kb - ka))%Q).
    { rewrite Ea, Eb, inject_Z_sub. reflexivity. }
    rewrite E. apply Qfloor_Z. }
  rewrite Efl.
  destruct (count_up_complete (Z.to_nat (kb - ka + 1)) a (k - ka))
    as (q & Hin & Hq); [lia|].
  exists q. split; [exact Hin|].
  rewrite Hq, Ea, inject_Z_sub. ring.
Qed.

(** The cross-section of a triangle at a height below the middle vertex:
    a point of the triangle lies between the points of the edges [AC] and
    [AB] at its height. *)
Lemma section_lower (xa ya xb yb xc yc w0 w1 w2 x row t1 t2 p1 p2 : Q) :
  (ya <= row)%Q -> (row < yb)%Q -> (yb <= yc)%Q ->
  (0 <= w0)%Q -> (0 <= w1)%Q -> (0 <= w2)%Q -> (w0 + w1 + w2 == 1)%Q ->
  (x == w0 * xa + w1 * xb + w2 * xc)%Q ->
  (row == w0 * ya + w1 * yb + w2 * yc)%Q ->
  (row == (1 - t1) * ya + t1 * yc)%Q -> (p1 == (1 - t1) * xa + t1 * xc)%Q ->
  (row == (1 - t2) * ya + t2 * yb)%Q -> (p2 == (1 - t2) * xa + t2 * xb)%Q ->
  exists s, (0 <= s <= 1)%Q /\ (x == (1 - s) * p1 + s * p2)%Q.
Proof.
  intros Hlo Hhi Hbc N0 N1 N2 S Ex Er E1 P1 E2 P2.
  set (D1 := (yc - ya)%Q). set (D2 := (yb - ya)%Q). set (r := (row - ya)%Q).
  assert (HD1 : (0 < D1)%Q) by (unfold D1; lra).
  assert (HD2 : (0 < D2)%Q) by (unfold D2; lra).
  assert (Hr : (0 <= r)%Q) by (unfold r; lra).
  assert (T1 : (t1 == r / D1)%Q).
  { assert (E : (t1 * D1 == r)%Q) by (unfold D1, r; rewrite E1 at 1; ring).
    rewrite <- E. field. lra. }
  assert (T2 : (t2 == r / D2)%Q).
  { assert (E : (t2 * D2 == r)%Q) by (unfold D2, r; rewrite E2 at 1; ring).
    rewrite <- E. field. lra. }
  assert (W : (r == w1 * D2 + w2 * D1)%Q).
  { unfold r, D1, D2. rewrite Er at 1.
    assert (E0 : (w0 == 1 - w1 - w2)%Q) by lra. rewrite E0. ring. }
  assert (M1 : (0 <= w1 * D2)%Q) by (apply Qmult_le_0_compat; lra).
  assert (M2 : (0 <= w2 * D1)%Q) by (apply Qmult_le_0_compat; lra).
  assert (E0 : (w0 == 1 - w1 - w2)%Q) by lra.
  destruct (Qeq_dec r 0) as [Z | NZ].
  - exists 0%Q. split; [lra|].
    assert (Z1 : (w1 * D2 == 0)%Q) by lra.
    assert (Z2 : (w2 * D1 == 0)%Q) by lra.
    apply Qmult_integral in Z1. apply Qmult_integral in Z2.
    assert (V1 : (w1 == 0)%Q) by (destruct Z1; [assumption | lra]).
    assert (V2 : (w2 == 0)%Q) by (destruct Z2; [assumption | lra]).
    assert (V3 : (t1 == 0)%Q) by (rewrite T1, Z; field; lra).
    rewrite Ex, P1, E0, V1, V2, V3. ring.
  - assert (Hrp : (0 < r)%Q) by lra.
    exists (w1 * D2 / r)%Q. split.
    + split; [apply Qle_shift_div_l | apply Qle_shift_div_r]; lra.
    + assert (V2 : (w2 == (r - w1 * D2) / D1)%Q).
      { assert (E : (w2 * D1 == r - w1 * D2)%Q) by lra.
        rewrite <- E. field. lra. }
      rewrite Ex, P1, P2, E0, T1, T2, V2. field. lra.
Qed.

(** The cross-section at a height from the middle vertex on: between the
    points of the edges [AC] and [BC]. *)
Lemma section_upper (xa ya xb yb xc yc w0 w1 w2 x row t1 t2 p1 p2 : Q) :
  (ya <= yb)%Q -> (yb <= row)%Q -> (row <= yc)%Q -> (ya < yc)%Q ->
  (0 <= w0)%Q -> (0 <= w1)%Q -> (0 <= w2)%Q -> (w0 + w1 + w2 == 1)%Q ->
  (x == w0 * xa + w1 * xb + w2 * xc)%Q ->
  (row == w0 * ya + w1 * yb + w2 * yc)%Q ->
  (row == (1 - t1) * ya + t1 * yc)%Q -> (p1 == (1 - t1) * xa + t1 * xc)%Q ->
  (row == (1 - t2) * yb + t2 * yc)%Q -> (p2 == (1 - t2) * xb + t2 * xc)%Q ->
  (yc - yb == 0 -> t2 == 0)%Q ->
  exists s, (0 <= s <= 1)%Q /\ (x == (1 - s) * p1 + s * p2)%Q.
Proof.
  intros Hab Hlo Hhi Hac N0 N1 N2 S Ex Er E1 P1 E2 P2 Hflat.
  set (D1 := (yc - ya)%Q). set (D2 := (yc - yb)%Q). set (r := (yc - row)%Q).
  assert (HD1 : (0 < D1)%Q) by (unfold D1; lra).
  assert (HD2 : (0 <= D2)%Q) by (unfold D2; lra).
  assert (Hr : (0 <= r)%Q) by (unfold r; lra).
  assert (T1 : (1 - t1 == r / D1)%Q).
  { assert (E : ((1 - t1) * D1 == r)%Q)
      by (unfold D1, r; rewrite E1 at 1; ring).
    rewrite <- E. field. lra. }
  assert (W : (r == w0 * D1 + w1 * D2)%Q).
  { unfold r, D1, D2. rewrite Er at 1.
    assert (E0 : (w2 == 1 - w0 - w1)%Q) by lra. rewrite E0. ring. }
  assert (M1 : (0 <= w0 * D1)%Q) by (apply Qmult_le_0_compat; lra).
  assert (M2 : (0 <= w1 * D2)%Q) by (apply Qmult_le_0_compat; lra).
  assert (E0 : (w2 == 1 - w0 - w1)%Q) by lra.
  assert (U1 : (t1 == 1 - r / D1)%Q) by lra.
  destruct (Qeq_dec D2 0) as [F | NF].
  - assert (V : (t2 == 0)%Q) by (apply Hflat; exact F).
    assert (Zr : (r == 0)%Q) by (unfold r; unfold D2 in F; lra).
    assert (Z0 : (w0 * D1 == 0)%Q) by lra.
    apply Qmult_integral in Z0.
    assert (V0 : (w0 == 0)%Q) by (destruct Z0; [assumption | lra]).
    exists w1. split; [lra|].
    rewrite Ex, P1, P2, E0, U1, V, V0, Zr. field. lra.
  - assert (HD2' : (0 < D2)%Q) by lra.
    assert (T2 : (1 - t2 == r / D2)%Q).
    { assert (E : ((1 - t2) * D2 == r)%Q)
        by (unfold D2, r; rewrite E2 at 1; ring).
      rewrite <- E. field. lra. }
    assert (U2 : (t2 == 1 - r / D2)%Q) by lra.
    destruct (Qeq_dec r 0) as [Z | NZ].
    + exists 0%Q. split; [lra|].
      assert (Z0 : (w0 * D1 == 0)%Q) by lra.
      assert (Z1 : (w1 * D2 == 0)%Q) by lra.
      apply Qmult_integral in Z0. apply Qmult_integral in Z1.
      assert (V0 : (w0 == 0)%Q) by (destruct Z0; [assumption | lra]).
      assert (V1 : (w1 == 0)%Q) by (destruct Z1; [assumption | lra]).
      rewrite Ex, P1, E0, U1, V0, V1, Z. field. lra.
    + assert (Hrp : (0 < r)%Q) by lra.
      exists (w1 * D2 / r)%Q. split.
      * split; [apply Qle_shift_div_l | apply Qle_shift_div_r]; lra.
      * assert (V0 : (w0 == (r - w1 * D2) / D1)%Q).
        { assert (E : (w0 * D1 == r - w1 * D2)%Q) by lra.
          rewrite <- E. field. lra. }
        rewrite Ex, P1, P2, E0, U1, U2, V0. field. lra.
Qed.

Lemma param_between (p1 p2 s x : Q) :
  (0 <= s <= 1)%Q -> (x == (1 - s) * p1 + s * p2)%Q ->
  ((p1 <= p2 -> p1 <= x <= p2) /\ (p2 <= p1 -> p2 <= x <= p1))%Q.
Proof.
  intros Hs Ex. split; intros Hle.
  - assert (0 <= s * (p2 - p1))%Q by (apply Qmult_le_0_compat; lra).
    assert (0 <= (1 - s) * (p2 - p1))%Q by (apply Qmult_le_0_compat; lra).
    split; lra.
  - assert (0 <= s * (p1 - p2))%Q by (apply Qmult_le_0_compat; lra).
    assert (0 <= (1 - s) * (p1 - p2))%Q by (apply Qmult_le_0_compat; lra).
    split; lra.
Qed.

(** A pixel of the screen in the triangle is visited on its scanline. *)
Lemma scanline_complete (w : Z) (a b c : ScreenVertex)
      (xa ya xb yb xc yc row : Q) (k : Z) :
  ScreenVertex.x a = Fin xa -> ScreenVertex.y a = Fin ya ->
  ScreenVertex.x b = Fin xb -> ScreenVertex.y b = Fin yb ->
  ScreenVertex.x c = Fin xc -> ScreenVertex.y c = Fin yc ->
  (ya <= yb)%Q -> (yb <= yc)%Q -> (ya < yc)%Q -> (ya <= row <= yc)%Q ->
  0 <= k < w -> insideTriangle a b c (inject_Z k) row ->
  exists qx z,
    In (Fin qx, Fin row, z)
       (scanline w b (precomputeEdge a c) (precomputeEdge a b)
                 (precomputeEdge b c) (Fin row))
    /\ (qx == inject_Z k)%Q.
Proof.
  intros Exa Eya Exb Eyb Exc Eyc Hab Hbc Hac Hrow Hk
         (x0 & y0 & x1 & y1 & x2 & y2 & w0 & w1 & w2 & E0 & E1 & E2 & E3
          & E4 & E5 & N0 & N1 & N2 & S & Ex & Ey).
  rewrite Exa in E0. rewrite Eya in E1. rewrite Exb in E2. rewrite Eyb in E3.
  rewrite Exc in E4. rewrite Eyc in E5.
  injection E0 as <-. injection E1 as <-. injection E2 as <-.
  injection E3 as <-. injection E4 as <-. injection E5 as <-.
  unfold scanline.
  destruct (interpolateEdge_point a c xa ya xc yc row Exa Eya Exc Eyc Hrow)
    as (p1 & t1 & -> & Ht1 & Ep1 & Er1 & _).
  assert (H2 : exists p2 s : Q,
             (if (Fin row <? ScreenVertex.y b)%num
              then interpolateEdge (precomputeEdge a b) (Fin row)
              else interpolateEdge (precomputeEdge b c) (Fin row)) = Fin p2
             /\ (0 <= s <= 1)%Q
             /\ (inject_Z k == (1 - s) * p1 + s * p2)%Q).
  { rewrite Eyb. cbn [num_lt]. destruct (Qle_bool yb row) eqn:E; cbn [negb].
    - apply Qle_bool_iff in E.
      destruct (interpolateEdge_point b c xb yb xc yc row Exb Eyb Exc Eyc
                  ltac:(lra)) as (p2 & t2 & -> & Ht2 & Ep2 & Er2 & Hflat).
      destruct (section_upper xa ya xb yb xc yc w0 w1 w2 (inject_Z k) row
                  t1 t2 p1 p2) as (s & Hs & Es); try assumption; try lra.
      exists p2, s. auto.
    - assert (Hlt : (row < yb)%Q).
      { apply Qnot_le_lt. intros N. apply Qle_bool_iff in N. congruence. }
      destruct (interpolateEdge_point a b xa ya xb yb row Exa Eya Exb Eyb
                  ltac:(lra)) as (p2 & t2 & -> & Ht2 & Ep2 & Er2 & _).
      destruct (section_lower xa ya xb yb xc yc w0 w1 w2 (inject_Z k) row
                  t1 t2 p1 p2) as (s & Hs & Es); try assumption; try lra.
      exists p2, s. auto. }
  destruct H2 as (p2 & s & -> & Hs & Es).
  destruct (param_between p1 p2 s (inject_Z k) Hs Es) as (B1 & B2).
  assert (exists lo hi,
             (if (Fin p1 >? Fin p2)%num then (Fin p2, Fin p1)
              else (Fin p1, Fin p2)) = (Fin lo, Fin hi)
             /\ (lo <= inject_Z k <= hi)%Q)
    as (lo & hi & -> & Hlh).
  { unfold num_gt, num_lt. destruct (Qle_bool p1 p2) eqn:E; cbn [negb].
    - apply Qle_bool_iff in E. exists p1, p2. auto.
    - apply Qle_bool_total, Qle_bool_iff in E. exists p2, p1. auto. }
  destruct (span_complete w lo hi k Hlh Hk) as (q & Hin & Hq).
  exists q. eexists. split; [|exact Hq].
  apply in_map_iff. exists (Fin q). split; [reflexivity | exact Hin].
Qed.

Lemma min3_max3_bounds (p q r : Q) :
  exists m M,
    Math_min3 (Fin p) (Fin q) (Fin r) = Fin m
    /\ Math_max3 (Fin p) (Fin q) (Fin r) = Fin M
    /\ (m <= p /\ m <= q /\ m <= r)%Q /\ (p <= M /\ q <= M /\ r <= M)%Q.
Proof.
  unfold Math_min3, Math_max3.
  destruct (Math_min_fin p q) as (m1 & -> & A1 & A2 & _).
  destruct (Math_min_fin m1 r) as (m & -> & A3 & A4 & _).
  destruct (Math_max_fin p q) as (M1 & -> & B1 & B2 & _).
  destruct (Math_max_fin M1 r) as (M & -> & B3 & B4 & _).
  exists m, M. repeat split; try reflexivity; lra.
Qed.

Lemma convex_height (ya yb yc w0 w1 w2 y : Q) :
  (ya <= yb)%Q -> (yb <= yc)%Q ->
  (0 <= w0)%Q -> (0 <= w1)%Q -> (0 <= w2)%Q -> (w0 + w1 + w2 == 1)%Q ->
  (y == w0 * ya + w1 * yb + w2 * yc)%Q -> (ya <= y <= yc)%Q.
Proof.
  intros Hab Hbc N0 N1 N2 S Ey.
  assert (0 <= w1 * (yb - ya))%Q by (apply Qmult_le_0_compat; lra).
  assert (0 <= w2 * (yc - ya))%Q by (apply Qmult_le_0_compat; lra).
  assert (0 <= w0 * (yc - ya))%Q by (apply Qmult_le_0_compat; lra).
  assert (0 <= w1 * (yc - yb))%Q by (apply Qmult_le_0_compat; lra).
  assert (E0 : (w0 == 1 - w1 - w2)%Q) by lra.
  split.
  - assert (E : (y - ya == w1 * (yb - ya) + w2 * (yc - ya))%Q)
      by (rewrite Ey, E0; ring).
    lra.
  - assert (E2 : (w2 == 1 - w0 - w1)%Q) by lra.
    assert (E : (yc - y == w0 * (yc - ya) + w1 * (yc - yb))%Q)
      by (rewrite Ey, E2; ring).
    lra.
Qed.

Lemma insideTriangle_Qeq (a b c : ScreenVertex) (x x' y y' : Q) :
  (x == x')%Q -> (y == y')%Q ->
  insideTriangle a b c x y -> insideTriangle a b c x' y'.
Proof.
  intros Hx Hy (x0 & y0 & x1 & y1 & x2 & y2 & w0 & w1 & w2 & E0 & E1 & E2
                & E3 & E4 & E5 & N0 & N1 & N2 & S & Ex & Ey).
  exists x0, y0, x1, y1, x2, y2, w0, w1, w2.
  repeat split; try assumption.
  - rewrite <- Hx. exact Ex.
  - rewrite <- Hy. exact Ey.
Qed.

(** The rows and spans of a triangle given in the order of [y], not all
    of its vertices at one height, cover the pixels of the screen that lie
    in it. *)
Lemma rows_complete (w h : Z) (a b c : ScreenVertex) (kx ky : Z) :
  finiteSV a = true -> finiteSV b = true -> finiteSV c = true ->
  (ScreenVertex.y a <=? ScreenVertex.y b)%num = true ->
  (ScreenVertex.y b <=? ScreenVertex.y c)%num = true ->
  (ScreenVertex.y a <? ScreenVertex.y c)%num = true ->
  0 <= kx < w -> 0 <= ky < h ->
  insideTriangle a b c (inject_Z kx) (inject_Z ky) ->
  visits
    (flat_map (scanline w b (precomputeEdge a c) (precomputeEdge a b)
                        (precomputeEdge b c))
       (for_range
          (Math_max zero
             (Math_ceil (Math_min3 (ScreenVertex.y a) (ScreenVertex.y b)
                                   (ScreenVertex.y c))))
          (Math_min (ofZ h - one)%num
             (Math_floor (Math_max3 (ScreenVertex.y a) (ScreenVertex.y b)
                                    (ScreenVertex.y c))))))
    kx ky.
Proof.
  intros Ha Hb Hc Hab Hbc Hac Hkx Hky Hi.
  destruct (finiteSV_inv a Ha) as (xa & ya & za & Exa & Eya & _).
  destruct (finiteSV_inv b Hb) as (xb & yb & zb & Exb & Eyb & _).
  destruct (finiteSV_inv c Hc) as (xc & yc & zc & Exc & Eyc & _).
  rewrite Eya, Eyb in Hab. rewrite Eyb, Eyc in Hbc. rewrite Eya, Eyc in Hac.
  apply Qle_bool_iff in Hab. apply Qle_bool_iff in Hbc.
  cbn [num_lt] in Hac. apply negb_true_iff in Hac.
  assert (Lac : (ya < yc)%Q).
  { apply Qnot_le_lt. intros N. apply Qle_bool_iff in N. congruence. }
  assert (Hr : (ya <= inject_Z ky <= yc)%Q).
  { destruct Hi as (x0 & y0 & x1 & y1 & x2 & y2 & w0 & w1 & w2 & E0 & E1
                    & E2 & E3 & E4 & E5 & N0 & N1 & N2 & S & Ex & Ey).
    rewrite Eya in E1. rewrite Eyb in E3. rewrite Eyc in E5.
    injection E1 as <-. injection E3 as <-. injection E5 as <-.
    exact (convex_height ya yb yc w0 w1 w2 _ Hab Hbc N0 N1 N2 S Ey). }
  rewrite Eya, Eyb, Eyc.
  destruct (min3_max3_bounds ya yb yc) as (m & M & -> & -> & Hm & HM).
  destruct (span_complete h m M ky ltac:(lra) Hky) as (qy & Hrow & Hqy).
  assert (Hi' : insideTriangle a b c (inject_Z kx) qy).
  { apply (insideTriangle_Qeq a b c (inject_Z kx) _ (inject_Z ky));
      [reflexivity | symmetry; exact Hqy | exact Hi]. }
  destruct (scanline_complete w a b c xa ya xb yb xc yc qy kx
              Exa Eya Exb Eyb Exc Eyc Hab Hbc Lac ltac:(rewrite Hqy; exact Hr)
              Hkx Hi') as (qx & z & Hin & Hqx).
  exists qx, qy, z. split; [|split; assumption].
  apply in_flat_map. exists (Fin qy). split; assumption.
Qed.

Lemma cmp_y_pos_Q (u v : ScreenVertex) (yu yv : Q) :
  ScreenVertex.y u = Fin yu -> ScreenVertex.y v = Fin yv ->
  (cmp_y_pos u v = false -> (yu <= yv)%Q)
  /\ (cmp_y_pos u v = true -> (yv <= yu)%Q).
Proof.
  intros Eu Ev. unfold cmp_y_pos, num_gt, zero. rewrite Eu, Ev.
  cbn [num_sub num_neg num_add num_lt].
  split; intros H.
  - apply negb_false_iff, Qle_bool_iff in H. lra.
  - apply negb_true_iff in H.
    destruct (Qlt_le_dec yu yv) as [Hlt | Hge]; [|exact Hge].
    exfalso. assert (N : (yu + - yv <= 0)%Q) by lra.
    apply Qle_bool_iff in N. congruence.
Qed.

Lemma num_le_fin (p q : Q) : (p <= q)%Q -> (Fin p <=? Fin q)%num = true.
Proof. intros H. apply Qle_bool_iff. exact H. Qed.

Lemma num_lt_fin (p q : Q) : (p < q)%Q -> (Fin p <? Fin q)%num = true.
Proof.
  intros H. cbn [num_lt]. apply negb_true_iff.
  destruct (Qle_bool q p) eqn:E; [|reflexivity].
  apply Qle_bool_iff in E. lra.
Qed.

(** Every pixel of the screen that lies in a triangle with finite vertices
    is visited by the fill, unless the three vertices are at one height. *)
Lemma inside_visits
      (this : Renderer) (v0 v1 v2 : ScreenVertex) (x y : Z) :
  finiteSV v0 = true -> finiteSV v1 = true -> finiteSV v2 = true ->
  (ScreenVertex.y v0 =? ScreenVertex.y v1)%num
  && (ScreenVertex.y v1 =? ScreenVertex.y v2)%num = false ->
  0 <= x < width this -> 0 <= y < height this ->
  insideTriangle v0 v1 v2 (inject_Z x) (inject_Z y) ->
  visits (fragments (width this) (height this) v0 v1 v2) x y.
Proof.
  intros H0 H1 H2 Hflat Hx Hy Hi.
  destruct (finiteSV_inv v0 H0) as (x0 & y0 & z0 & _ & E0 & _).
  destruct (finiteSV_inv v1 H1) as (x1 & y1 & z1 & _ & E1 & _).
  destruct (finiteSV_inv v2 H2) as (x2 & y2 & z2 & _ & E2 & _).
  assert (N : ~ (y0 == y1 /\ y1 == y2)%Q).
  { intros [A B]. rewrite E0, E1, E2 in Hflat. cbn [num_eqb] in Hflat.
    apply Qeq_bool_iff in A. apply Qeq_bool_iff in B.
    rewrite A, B in Hflat. discriminate. }
  destruct (cmp_y_pos_Q v0 v1 y0 y1 E0 E1) as (A01 & B01).
  destruct (cmp_y_pos_Q v1 v2 y1 y2 E1 E2) as (A12 & B12).
  destruct (cmp_y_pos_Q v0 v2 y0 y2 E0 E2) as (A02 & B02).
  unfold fragments, sort_by_y. cbn [fold_left sort_insert].
  destruct (cmp_y_pos v0 v1); cbn [sort_insert];
    destruct (cmp_y_pos v1 v2), (cmp_y_pos v0 v2); cbn [sort_insert];
    repeat match goal with
           | H : ?b = ?b -> _ |- _ => specialize (H eq_refl)
           | H : true = false -> _ |- _ => clear H
           | H : false = true -> _ |- _ => clear H
           end;
    apply rows_complete; try assumption;
    try (rewrite ?E0, ?E1, ?E2;
         first [ apply num_le_fin; lra
               | apply num_lt_fin; apply Qnot_le_lt; intros L; apply N;
                 split; lra ]);
    auto using inside_swap, inside_rotate.
Qed.

(** Every pixel visited by the fill of a triangle with finite vertices has
    a finite depth. *)
Lemma fragments_fin_depth (w h : Z) (v0 v1 v2 : ScreenVertex) :
  finiteSV v0 = true -> finiteSV v1 = true -> finiteSV v2 = true ->
  Forall (fun f => finite f.2 = true) (fragments w h v0 v1 v2).
Proof.
  intros H0 H1 H2. apply Forall_forall. intros [[x y] z] Hin.
  apply list_elem_of_In in Hin. revert Hin.
  unfold fragments, sort_by_y. cbn [fold_left sort_insert].
  destruct (cmp_y_pos v0 v1); cbn [sort_insert];
    destruct (cmp_y_pos v1 v2), (cmp_y_pos v0 v2); cbn [sort_insert];
    intros Hin;
    apply rows_depth in Hin as (t & q & za & zc & _ & _ & -> & _);
    try assumption; reflexivity.
Qed.

(** A pixel of the fill that passes its depth test holds the colour of the
    fill after the rest of the fill. *)
Lemma fold_plot_hit (c : Vec3) (rest : list (num * num * num))
      (r : Renderer) (qx qy : Q) (kx ky : Z) (z : num) :
  sized r -> (qx == inject_Z kx)%Q -> (qy == inject_Z ky)%Q ->
  0 <= kx < width r -> 0 <= ky < height r ->
  (depthTest r (Fin qx) (Fin qy) z).1 = true ->
  pixel_at (fold_left (plot c) ((Fin qx, Fin qy, z) :: rest) r) kx ky
  = Some (packedColor r c).
Proof.
  intros Hs Hqx Hqy Hkx Hky Hpass. cbn [fold_left]. unfold plot at 2.
  destruct (depthTest_fields r (Fin qx) (Fin qy) z) as (Hw & Hh & Hle & Hd).
  pose proof (depthTest_frame r (Fin qx) (Fin qy) z) as (_ & _ & _ & Hzl & _).
  destruct (depthTest r (Fin qx) (Fin qy) z) as [pass r1].
  cbn [fst snd] in *. subst pass.
  assert (Hs1 : sized r1) by (apply (sized_frame r); assumption).
  rewrite (setPixel_at r1 qx qy kx ky) by (rewrite ?Hw, ?Hh; assumption).
  rewrite (packRGBA_ext r r1) by exact Hle. fold (packedColor r c).
  set (k := Z.to_nat (ky * width r1 + kx)).
  set (r2 := set_data32 r1 (<[k := packedColor r c]> (data32 r1))).
  assert (Hk : (k < length (data32 r1))%nat).
  { destruct Hs1 as (_ & _ & _ & Hlen). rewrite Hlen. subst k.
    rewrite Hw, Hh. pose proof (pixel_in_buffer _ _ kx ky Hkx Hky). lia. }
  assert (Hle2 : littleEndian r2 = littleEndian r) by exact Hle.
  assert (Hk2 : data32 r2 !! k = Some (packedColor r2 c)).
  { rewrite (packedColor_ext r r2 c Hle2). subst r2. cbn [data32 set_data32].
    apply list_lookup_insert_eq. exact Hk. }
  destruct (fold_plot_keeps c rest r2 k Hk2) as (Hw' & Hk').
  unfold pixel_at. rewrite Hw'.
  change (width r2) with (width r1). fold k.
  rewrite Hk'. rewrite (packedColor_ext r r2 c Hle2). reflexivity.
Qed.

(** A pixel that the fill visits and whose depth is [+Infinity] holds the
    colour of the fill afterwards. *)
Lemma fold_paints_visited (c : Vec3) (fs : list (num * num * num))
      (r : Renderer) (kx ky : Z) :
  sized r -> depth_defined r -> depth_binary32 r ->
  Forall (plottable (width r) (height r)) fs ->
  Forall (fun f => finite f.2 = true) fs ->
  0 <= kx < width r -> 0 <= ky < height r ->
  visits fs kx ky -> depth_at r kx ky = PInf ->
  pixel_at (fold_left (plot c) fs r) kx ky = Some (packedColor r c).
Proof.
  revert r. induction fs as [|f fs IH];
    intros r Hs Hdef Hb32 Hfs Hfin Hkx Hky Hv Hd.
  { destruct Hv as (qx & qy & z & [] & _). }
  inversion Hfs as [|f' fs' Hf Hfs' E]; subst f' fs'.
  inversion Hfin as [|f' fs' Hz Hfin' E]; subst f' fs'.
  destruct f as [[fx fy] fz].
  destruct Hf as (qx & qy & jx & jy & Ex & Ey & Hqx & Hqy & Hjx & Hjy & Hn).
  cbn [fst snd] in Ex, Ey, Hn, Hz. subst fx fy.
  destruct (decide ((jx, jy) = (kx, ky))) as [E | Hne].
  - injection E as -> ->.
    apply fold_plot_hit; try assumption.
    rewrite (depthTest_Qeq r qx qy kx ky fz Hqx Hqy).
    destruct (depthTest_at_pixel r kx ky fz Hs Hkx Hky) as (Er & _).
    rewrite Er, Hd. destruct fz; try discriminate. reflexivity.
  - assert (Hv' : visits fs kx ky).
    { destruct Hv as (px & py & z & [Hin | Hin] & Hpx & Hpy).
      - exfalso. apply Hne. injection Hin as <- <- _.
        f_equal; apply inject_Z_injective.
        + rewrite <- Hqx, Hpx. reflexivity.
        + rewrite <- Hqy, Hpy. reflexivity.
      - exists px, py, z. auto. }
    destruct (plot_step c r qx qy jx jy fz Hs Hdef Hb32 Hn Hqx Hqy Hjx Hjy)
      as (Hc1 & Hd1 & Hb1 & Hp1).
    cbn [fold_left].
    set (r1 := plot c r (Fin qx, Fin qy, fz)) in *.
    pose proof Hc1 as (Cw & Ch & Cle & _).
    assert (Hs1 : sized r1) by (apply (same_canvas_sized r); assumption).
    rewrite <- Cw, <- Ch in Hfs'.
    destruct (Hp1 kx ky Hkx Hky) as [[E1 E2] | [_ P1]].
    + rewrite <- (packedColor_ext r r1 c Cle).
      apply IH; try assumption.
      * rewrite Cw. exact Hkx.
      * rewrite Ch. exact Hky.
      * rewrite E1. exact Hd.
    + unfold pixel_at in P1.
      rewrite <- (packedColor_ext r r1 c Cle) in P1.
      destruct (fold_plot_keeps c fs r1 _ P1) as (Hw' & Hk').
      unfold pixel_at. rewrite Hw', Hk'.
      rewrite (packedColor_ext r r1 c Cle). reflexivity.
Qed.

Lemma insideBy_inside (m X : Q) (v0 v1 v2 : ScreenVertex) (kx ky : Z) :
  insideBy m X v0 v1 v2 kx ky ->
  insideTriangle v0 v1 v2 (inject_Z kx) (inject_Z ky).
Proof.
  intros (_ & _ & _ & _ & Hl & Hr).
  destruct Hl as (x0 & y0 & x1 & y1 & x2 & y2 & a0 & a1 & a2 & E0 & E1 & E2
                  & E3 & E4 & E5 & N0 & N1 & N2 & S & Ex & Ey).
  destruct Hr as (x0' & y0' & x1' & y1' & x2' & y2' & b0 & b1 & b2
                  & E0' & E1' & E2' & E3' & E4' & E5' & M0 & M1 & M2 & S'
                  & Ex' & Ey').
  rewrite E0 in E0'. rewrite E1 in E1'. rewrite E2 in E2'.
  rewrite E3 in E3'. rewrite E4 in E4'. rewrite E5 in E5'.
  injection E0' as <-. injection E1' as <-. injection E2' as <-.
  injection E3' as <-. injection E4' as <-. injection E5' as <-.
  exists x0, y0, x1, y1, x2, y2,
    ((a0 + b0) * (1 # 2))%Q, ((a1 + b1) * (1 # 2))%Q,
    ((a2 + b2) * (1 # 2))%Q.
  repeat split; try assumption; lra.
Qed.

(** X24.  The fill paints the pixels well inside the triangle.  For a
    triangle whose vertices are finite and of magnitude at most [2^1000],
    not all three at one height, on a renderer whose buffers have one cell
    per pixel and whose depth buffer holds binary32 values other than NaN:
    a pixel [(kx, ky)] of the screen whose stored depth is [+Infinity] and
    which lies in the triangle together with the two points at the distance
    [m] to its left and right, [m] being at least [2^-40 * (1 + X)] for a
    bound [X] on the [x] of the vertices, holds the colour of the fill
    after [drawTriangleScanline].  The margin [m] is far above the rounding
    error of the edge intersections in binary64 (a few units in the last
    place of [X]); a pixel on an edge itself can be missed. *)
Theorem drawTriangleScanline_paints_interior
        (this : Renderer) (v0 v1 v2 : ScreenVertex) (color : option Vec3)
        (kx ky : Z) (m X : Q) :
  sized this -> depth_defined this -> depth_binary32 this ->
  boundedSV v0 = true -> boundedSV v1 = true -> boundedSV v2 = true ->
  (ScreenVertex.y v0 =? ScreenVertex.y v1)%num
  && (ScreenVertex.y v1 =? ScreenVertex.y v2)%num = false ->
  0 <= kx < width this -> 0 <= ky < height this ->
  insideBy m X v0 v1 v2 kx ky ->
  depth_at this kx ky = PInf ->
  pixel_at (drawTriangleScanline this v0 v1 v2 color) kx ky
  = Some (packedColor this (default defaultColor color)).
Proof.
  intros Hs Hdef Hb32 B0 B1 B2 Hflat Hkx Hky Hin Hd.
  pose proof (boundedSV_finite _ B0) as F0.
  pose proof (boundedSV_finite _ B1) as F1.
  pose proof (boundedSV_finite _ B2) as F2.
  unfold drawTriangleScanline.
  apply fold_paints_visited; try assumption.
  - apply fragments_plottable; assumption.
  - apply fragments_fin_depth; assumption.
  - apply inside_visits; try assumption.
    exact (insideBy_inside m X v0 v1 v2 kx ky Hin).
Qed.

Lemma drawTriangleScanline_paints_interior_witness :
  sized canvas4 /\ depth_defined (clearZ canvas4)
  /\ insideBy (pow2 (-38)) 3 (sv 0 0 (1 # 2)) (sv 0 3 (1 # 4))
              (sv 3 1 (3 # 4)) 1 1
  /\ depth_at (clearZ canvas4) 1 1 = PInf
  /\ pixel_at (drawTriangleScanline (clearZ canvas4) (sv 0 0 (1 # 2))
                                    (sv 0 3 (1 # 4)) (sv 3 1 (3 # 4)) None)
              1 1
     = Some (packedColor (clearZ canvas4) defaultColor).
Proof.
  assert (Hs0 : sized canvas4) by (repeat split; reflexivity).
  assert (Hs : sized (clearZ canvas4)) by (apply clearZ_sized; exact Hs0).
  assert (Hdef : depth_defined (clearZ canvas4)) by apply clearZ_defined.
  assert (Hb : depth_binary32 (clearZ canvas4)) by apply clearZ_binary32.
  assert (Hx : 0 <= 1 < width (clearZ canvas4)) by (simpl; lia).
  assert (Hy : 0 <= 1 < height (clearZ canvas4)) by (simpl; lia).
  assert (Hd : depth_at (clearZ canvas4) 1 1 = PInf) by reflexivity.
  assert (Hin : insideBy (pow2 (-38)) 3 (sv 0 0 (1 # 2)) (sv 0 3 (1 # 4))
                         (sv 3 1 (3 # 4)) 1 1).
  { split; [reflexivity|]. split; [reflexivity|]. split; [reflexivity|].
    split; [apply Qle_bool_iff; vm_compute; reflexivity|].
    split.
    - exists 0%Q, 0%Q, 0%Q, 3%Q, 3%Q, 1%Q,
        (1 - (1 - (1 - pow2 (-38)) / 3) / 3 - (1 - pow2 (-38)) / 3)%Q,
        ((1 - (1 - pow2 (-38)) / 3) / 3)%Q, ((1 - pow2 (-38)) / 3)%Q.
      repeat split; try reflexivity;
        first [ apply Qle_bool_iff; vm_compute; reflexivity
              | apply Qeq_bool_iff; vm_compute; reflexivity ].
    - exists 0%Q, 0%Q, 0%Q, 3%Q, 3%Q, 1%Q,
        (1 - (1 - (1 + pow2 (-38)) / 3) / 3 - (1 + pow2 (-38)) / 3)%Q,
        ((1 - (1 + pow2 (-38)) / 3) / 3)%Q, ((1 + pow2 (-38)) / 3)%Q.
      repeat split; try reflexivity;
        first [ apply Qle_bool_iff; vm_compute; reflexivity
              | apply Qeq_bool_iff; vm_compute; reflexivity ]. }
  split; [exact Hs0|]. split; [exact Hdef|]. split; [exact Hin|].
  split; [exact Hd|].
  exact (drawTriangleScanline_paints_interior (clearZ canvas4)
           (sv 0 0 (1 # 2)) (sv 0 3 (1 # 4)) (sv 3 1 (3 # 4)) None 1 1
           (pow2 (-38)) 3 Hs Hdef Hb eq_refl eq_refl eq_refl eq_refl Hx Hy
           Hin Hd).
Defined.

(** ** The off-screen test and the pixels of an on-screen triangle *)







Lemma max3_fin (p q r : Q) :
  exists M,
    Math_max3 (Fin p) (Fin q) (Fin r) = Fin M
    /\ (p <= M /\ q <= M /\ r <= M)%Q /\ (M = p \/ M = q \/ M = r).
Proof.
  unfold Math_max3.
  destruct (Math_max_fin p q) as (M1 & -> & B1 & B2 & C1).
  destruct (Math_max_fin M1 r) as (M & -> & B3 & B4 & C2).
  exists M. split; [reflexivity|]. split; [repeat split; lra|].
  destruct C2 as [-> | ->]; [destruct C1 as [-> | ->]|]; auto.
Qed.










Section OffscreenReject.

Variable Math_hypot : num -> num -> num -> num.


End OffscreenReject.



Section PipelineProperties.

Variable Math_hypot : num -> num -> num -> num.

(** The three outcomes of the shading stage. *)
Lemma shadeTriangle_cases
      (this : Renderer) (s0 s1 s2 : ScreenVertex) (idx : list num) (i : num)
      (v0 v1 v2 : Vec3) (normals : list num) (uvs : option (list num))
      (modelMat : Mat4) :
  (sceneSet this = false
   /\ shadeTriangle Math_hypot this (s0, s1, s2) idx i v0 v1 v2 normals uvs
                    modelMat = TypeError)
  \/ (sceneSet this = true
      /\ shadeTriangle Math_hypot this (s0, s1, s2) idx i v0 v1 v2 normals uvs
                       modelMat = Ok this)
  \/ (sceneSet this = true
      /\ exists sv0 sv1 sv2 color,
          shadeTriangle Math_hypot this (s0, s1, s2) idx i v0 v1 v2 normals
                        uvs modelMat
          = Ok (drawTriangleScanline this sv0 sv1 sv2 color)
          /\ ScreenVertex.toVec3 sv0 = ScreenVertex.toVec3 s0
          /\ ScreenVertex.toVec3 sv1 = ScreenVertex.toVec3 s1
          /\ ScreenVertex.toVec3 sv2 = ScreenVertex.toVec3 s2).
Proof.
  unfold sceneSet, shadeTriangle.
  destruct (shading (options this)) as [[| |]|]; try (right; left; auto; fail).
  - unfold renderFlatShading.
    destruct (mainDirectionalLight this) as [l|]; cbn [deref bind].
    + right. right. split; [reflexivity|].
      do 4 eexists. split; [reflexivity|]. repeat split.
    + left. split; reflexivity.
  - unfold renderBlinnPhongShading.
    destruct (mainCamera this) as [c|]; cbn [deref bind].
    + right. right. split; [reflexivity|].
      do 4 eexists. split; [reflexivity|]. repeat split.
    + left. split; reflexivity.
Qed.

(** The outcomes of [renderTriangle]. *)
Lemma renderTriangle_cases
      (this : Renderer) (idx : list num) (i : num) (pos normals : list num)
      (uvs : option (list num)) (mvp modelMat : Mat4) :
  renderTriangle Math_hypot this idx i pos normals uvs mvp modelMat = Ok this
  \/ exists t,
      screenTriangle this idx i pos mvp = Some t
      /\ clipped this t = false /\ backFacing t = false
      /\ ((sceneSet this = false
           /\ renderTriangle Math_hypot this idx i pos normals uvs mvp
                             modelMat = TypeError)
          \/ (sceneSet this = true
              /\ exists sv0 sv1 sv2 color,
                  renderTriangle Math_hypot this idx i pos normals uvs mvp
                                 modelMat
                  = Ok (drawTriangleScanline this sv0 sv1 sv2 color)
                  /\ ScreenVertex.toVec3 sv0 = ScreenVertex.toVec3 t.1.1
                  /\ ScreenVertex.toVec3 sv1 = ScreenVertex.toVec3 t.1.2
                  /\ ScreenVertex.toVec3 sv2 = ScreenVertex.toVec3 t.2)).
Proof.
  destruct (screenTriangle this idx i pos mvp) as [t|] eqn:Ht.
  - rewrite (renderTriangle_screen _ _ _ _ _ _ _ _ _ _ Ht).
    destruct (clipped this t) eqn:Hc; [left; reflexivity|].
    destruct (backFacing t) eqn:Hb; [left; reflexivity|].
    destruct t as [[s0 s1] s2].
    destruct (triangleVertices idx i pos) as [[v0 v1] v2].
    destruct (shadeTriangle_cases this s0 s1 s2 idx i v0 v1 v2 normals uvs
                modelMat) as [[Hs E] | [[Hs E] | [Hs E]]].
    + right. exists (s0, s1, s2). repeat split; try assumption.
      left. split; assumption.
    + left. exact E.
    + right. exists (s0, s1, s2). repeat split; try assumption.
      right. split; assumption.
  - left. apply renderTriangle_unprojectable. exact Ht.
Qed.

End PipelineProperties.

Lemma min3_nan (a b c : num) :
  a = NaN \/ b = NaN \/ c = NaN -> Math_min3 a b c = NaN.
Proof.
  unfold Math_min3, Math_min.
  intros [-> | [-> | ->]]; [reflexivity | destruct a; reflexivity |].
  destruct a, b; try reflexivity; destruct (_ <? _)%num; reflexivity.
Qed.

(** A vertex whose [y] is NaN empties the fill. *)
Lemma fragments_nan_y (w h : Z) (v0 v1 v2 : ScreenVertex) :
  ScreenVertex.y v0 = NaN \/ ScreenVertex.y v1 = NaN
  \/ ScreenVertex.y v2 = NaN ->
  fragments w h v0 v1 v2 = [].
Proof.
  intros H. unfold fragments, sort_by_y. cbn [fold_left sort_insert].
  destruct (cmp_y_pos v0 v1); cbn [sort_insert];
    destruct (cmp_y_pos v1 v2), (cmp_y_pos v0 v2); cbn [sort_insert];
    rewrite min3_nan by tauto; reflexivity.
Qed.

Lemma finiteSV_ext (u s : ScreenVertex) :
  ScreenVertex.toVec3 u = ScreenVertex.toVec3 s -> finiteSV u = finiteSV s.
Proof.
  unfold ScreenVertex.toVec3, finiteSV. intros [= -> -> ->]. reflexivity.
Qed.

Lemma fillable_ext (u s : ScreenVertex) :
  ScreenVertex.toVec3 u = ScreenVertex.toVec3 s -> fillable s -> fillable u.
Proof.
  intros E. unfold fillable. rewrite (finiteSV_ext u s E).
  unfold ScreenVertex.toVec3 in E. injection E as _ -> _. tauto.
Qed.

Lemma num_le_refl (a : num) : is_nan a = false -> (a <=? a)%num = true.
Proof.
  destruct a; try discriminate; try reflexivity.
  intros _. apply Qle_bool_iff, Qle_refl.
Qed.

Lemma kept_or_painted_not_raised (c : Z) (r r' : Renderer) (x y : Z) :
  is_nan (depth_at r x y) = false ->
  kept_or_painted c r r' x y -> not_raised r r' x y.
Proof.
  unfold kept_or_painted, not_raised. intros Hn [[-> _] | [H _]];
    [apply num_le_refl; exact Hn | exact H].
Qed.

Lemma not_raised_trans (r1 r2 r3 : Renderer) (x y : Z) :
  not_raised r1 r2 x y -> not_raised r2 r3 x y -> not_raised r1 r3 x y.
Proof.
  unfold not_raised. intros H1 H2.
  apply (num_le_trans _ (depth_at r2 x y)); assumption.
Qed.

(** The fill of a triangle whose vertices are finite or carry a NaN. *)
Lemma fill_outcome (this : Renderer) (v0 v1 v2 : ScreenVertex)
      (color : option Vec3) :
  sized this -> depth_defined this -> depth_binary32 this ->
  fillable v0 -> fillable v1 -> fillable v2 ->
  same_canvas this (drawTriangleScanline this v0 v1 v2 color)
  /\ depth_defined (drawTriangleScanline this v0 v1 v2 color)
  /\ depth_binary32 (drawTriangleScanline this v0 v1 v2 color)
  /\ forall x y, 0 <= x < width this -> 0 <= y < height this ->
       kept_or_painted (packedColor this (default defaultColor color)) this
                       (drawTriangleScanline this v0 v1 v2 color) x y.
Proof.
  intros Hs Hdef Hb [H0 | N0]; [intros [H1 | N1]; [intros [H2 | N2] |] |].
  - unfold drawTriangleScanline.
    apply fold_plot_steps; try assumption.
    apply fragments_plottable; assumption.
  - unfold drawTriangleScanline. rewrite fragments_nan_y by tauto.
    cbn [fold_left]. split; [apply same_canvas_refl|]. split; [exact Hdef|].
    split; [exact Hb|]. intros x y _ _. left. auto.
  - intros _. unfold drawTriangleScanline. rewrite fragments_nan_y by tauto.
    cbn [fold_left]. split; [apply same_canvas_refl|]. split; [exact Hdef|].
    split; [exact Hb|]. intros x y _ _. left. auto.
  - intros _ _. unfold drawTriangleScanline. rewrite fragments_nan_y by tauto.
    cbn [fold_left]. split; [apply same_canvas_refl|]. split; [exact Hdef|].
    split; [exact Hb|]. intros x y _ _. left. auto.
Qed.

Lemma num_mul_nan_r (a : num) : (a * NaN)%num = NaN.
Proof. destruct a; reflexivity. Qed.

(** A vertex read through a missing index projects to a screen vertex of
    NaNs. *)
Lemma projectVertex_nan (mvp : Mat4) (W H : num) :
  exists p, projectVertex (Vec3.mk NaN NaN NaN) mvp W H = Some p
            /\ ScreenVertex.y (toScreenVertex p) = NaN.
Proof.
  unfold projectVertex, mat4MulVec4. cbn [Vec3.x Vec3.y Vec3.z Vec4.x Vec4.y
    Vec4.z Vec4.w]. rewrite !num_mul_nan_r. cbn [num_add num_eqb].
  eexists. split; [reflexivity|]. reflexivity.
Qed.

Lemma projectVertex_finite (v : Vec3) (mvp : Mat4) (W H : Z) :
  finiteMat mvp = true -> finiteVec3 v = true ->
  projectVertex v mvp (ofZ W) (ofZ H) = None
  \/ exists p, projectVertex v mvp (ofZ W) (ofZ H) = Some p
               /\ finiteSV (toScreenVertex p) = true.
Proof.
  intros Hm Hv.
  destruct (finiteMat_inv mvp Hm)
    as (q0 & q1 & q2 & q3 & q4 & q5 & q6 & q7 & q8 & q9 & q10 & q11 & q12
        & q13 & q14 & q15 & ->).
  destruct (finiteVec3_inv v Hv) as (x & y & z & ->).
  unfold projectVertex. cbn [Vec3.x Vec3.y Vec3.z]. mat_reduce.
  unfold zero. cbn [num_eqb].
  match goal with
  | |- context [Qeq_bool ?w 0] => destruct (Qeq_bool w 0) eqn:Ew
  end; [left; reflexivity | right].
  eexists. split; [reflexivity|].
  unfold toScreenVertex, finiteSV, half, ofZ.
  cbn [Projected.screenX Projected.screenY Projected.screenZ ScreenVertex.x
       ScreenVertex.y ScreenVertex.z Vec3.x Vec3.y Vec3.z num_div].
  rewrite Ew. reflexivity.
Qed.

Lemma ta_get_finite (pos : list num) (q : Q) (k : Z) :
  Forall (fun v => finite v = true) pos ->
  (q == inject_Z k)%Q -> 0 <= k < Z.of_nat (length pos) ->
  finite (ta_get pos (Fin q)) = true.
Proof.
  intros Hpos Hq Hk. unfold ta_get. rewrite (ta_index_int _ q k Hq Hk).
  assert (Hlt : (Z.to_nat k < length pos)%nat) by lia.
  destruct (lookup_lt_is_Some_2 _ _ Hlt) as [v Hv]. rewrite Hv.
  exact (proj1 (Forall_lookup _ _) Hpos _ _ Hv).
Qed.

(** A vertex read through the index buffer is finite, or all NaN when the
    index is missing. *)
Lemma vertex_at_cases (idx pos : list num) (k : num) :
  Forall (fun v => finite v = true) pos -> Forall (validIndex pos) idx ->
  vertex_at pos (ta_get idx k * Fin 3)%num = Vec3.mk NaN NaN NaN
  \/ finiteVec3 (vertex_at pos (ta_get idx k * Fin 3)%num) = true.
Proof.
  intros Hpos Hidx.
  assert (Hj : ta_get idx k = NaN \/ validIndex pos (ta_get idx k)).
  { unfold ta_get. destruct (ta_index (length idx) k) as [j|]; [|left; reflexivity].
    destruct (idx !! j) as [e|] eqn:Ej; [|left; reflexivity].
    right. exact (proj1 (Forall_lookup _ _) Hidx _ _ Ej). }
  destruct Hj as [-> | (n & -> & Hn0 & Hn)]; [left; reflexivity | right].
  unfold vertex_at, finiteVec3, ofZ.
  cbn [num_mul num_add Vec3.x Vec3.y Vec3.z].
  rewrite (ta_get_finite pos _ (3 * n) Hpos),
          (ta_get_finite pos _ (3 * n + 1) Hpos),
          (ta_get_finite pos _ (3 * n + 2) Hpos);
    try lia; try reflexivity;
    rewrite ?inject_Z_plus, inject_Z_mult;
    change (inject_Z 3) with 3%Q; change (inject_Z 1) with 1%Q;
    change (inject_Z 2) with 2%Q; ring.
Qed.

Lemma projected_fillable (idx pos : list num) (k : num) (mvp : Mat4)
      (W H : Z) :
  finiteMat mvp = true ->
  Forall (fun v => finite v = true) pos -> Forall (validIndex pos) idx ->
  match projectVertex (vertex_at pos (ta_get idx k * Fin 3)%num) mvp
                      (ofZ W) (ofZ H) with
  | Some p => fillable (toScreenVertex p)
  | None => True
  end.
Proof.
  intros Hm Hpos Hidx.
  destruct (vertex_at_cases idx pos k Hpos Hidx) as [-> | Hv].
  - destruct (projectVertex_nan mvp (ofZ W) (ofZ H)) as (p & -> & Hp).
    right. exact Hp.
  - destruct (projectVertex_finite _ mvp W H Hm Hv) as [-> | (p & -> & Hp)];
      [exact I | left; exact Hp].
Qed.

Lemma snapVertexToGrid_fillable (s : ScreenVertex) :
  fillable s -> fillable (snapVertexToGrid s (Fin 5)).
Proof.
  intros [Hf | Hn].
  - left. destruct (finiteSV_inv s Hf) as (x & y & z & Ex & Ey & Ez).
    unfold finiteSV, snapVertexToGrid.
    cbn [ScreenVertex.x ScreenVertex.y ScreenVertex.z].
    rewrite Ex, Ey, Ez. reflexivity.
  - right. unfold snapVertexToGrid. cbn [ScreenVertex.y]. rewrite Hn.
    reflexivity.
Qed.

Lemma screenTriangle_fillable
      (this : Renderer) (idx : list num) (i : num) (pos : list num)
      (mvp : Mat4) (t : ScreenVertex * ScreenVertex * ScreenVertex) :
  finiteMat mvp = true ->
  Forall (fun v => finite v = true) pos -> Forall (validIndex pos) idx ->
  screenTriangle this idx i pos mvp = Some t ->
  fillable t.1.1 /\ fillable t.1.2 /\ fillable t.2.
Proof.
  intros Hm Hpos Hidx.
  unfold screenTriangle, projectedTriangle, triangleVertices,
    transformTriangleToScreen.
  pose proof (projected_fillable idx pos i mvp (width this) (height this)
                Hm Hpos Hidx) as P0.
  pose proof (projected_fillable idx pos (i + Fin 1)%num mvp (width this)
                (height this) Hm Hpos Hidx) as P1.
  pose proof (projected_fillable idx pos (i + Fin 2)%num mvp (width this)
                (height this) Hm Hpos Hidx) as P2.
  destruct (projectVertex (vertex_at pos (ta_get idx i * Fin 3)%num) _ _ _)
    as [p0|]; [|discriminate].
  destruct (projectVertex (vertex_at pos (ta_get idx (i + Fin 1) * Fin 3)%num)
                          _ _ _) as [p1|]; [|discriminate].
  destruct (projectVertex (vertex_at pos (ta_get idx (i + Fin 2) * Fin 3)%num)
                          _ _ _) as [p2|]; [|discriminate].
  intros [= <-]. unfold snapped.
  destruct (snapVertices (options this)); cbn [fst snd];
    auto using snapVertexToGrid_fillable.
Qed.

Lemma moderate_finite (a : num) : moderate a = true -> finite a = true.
Proof. destruct a; try discriminate; reflexivity. Qed.

Lemma moderateMat_finite (m : Mat4) : moderateMat m = true -> finiteMat m = true.
Proof.
  unfold moderateMat, finiteMat. rewrite !andb_true_iff.
  intros [Hl Hm]. split; [exact Hl|].
  apply forallb_forall. intros a Ha.
  apply moderate_finite. exact (proj1 (forallb_forall _ _) Hm a Ha).
Qed.

Section MeshProperties.

Variable Math_hypot : num -> num -> num -> num.

(** [renderTriangle] returns a renderer of the same canvas, or throws with
    the scene object of the shading mode missing. *)
Lemma renderTriangle_canvas
      (this : Renderer) (idx : list num) (i : num) (pos normals : list num)
      (uvs : option (list num)) (mvp modelMat : Mat4) :
  match renderTriangle Math_hypot this idx i pos normals uvs mvp modelMat with
  | Ok r' => same_canvas this r'
  | TypeError => sceneSet this = false
  end.
Proof.
  destruct (renderTriangle_cases Math_hypot this idx i pos normals uvs mvp
              modelMat)
    as [-> | (t & _ & _ & _ & [[Hs ->] | [_ (sv0 & sv1 & sv2 & c & -> & _)]])].
  - apply same_canvas_refl.
  - exact Hs.
  - apply drawTriangleScanline_same_canvas.
Qed.

Lemma renderTriangle_outcome
      (this : Renderer) (idx : list num) (i : num) (pos normals : list num)
      (uvs : option (list num)) (mvp modelMat : Mat4) :
  sized this -> depth_defined this -> depth_binary32 this ->
  finiteMat mvp = true ->
  Forall (fun v => finite v = true) pos -> Forall (validIndex pos) idx ->
  match renderTriangle Math_hypot this idx i pos normals uvs mvp modelMat with
  | Ok r' =>
      same_canvas this r' /\ depth_defined r' /\ depth_binary32 r'
      /\ forall x y, 0 <= x < width this -> 0 <= y < height this ->
           not_raised this r' x y
  | TypeError => sceneSet this = false
  end.
Proof.
  intros Hs Hdef Hb Hm Hpos Hidx.
  assert (Hkept : forall x y, 0 <= x < width this -> 0 <= y < height this ->
                    not_raised this this x y).
  { intros x y Hx Hy. apply num_le_refl.
    apply (depth_at_cell this x y (fun v => is_nan v = false)); assumption. }
  destruct (renderTriangle_cases Math_hypot this idx i pos normals uvs mvp
              modelMat)
    as [-> | (t & Ht & _ & _
              & [[Hsc ->] | [_ (sv0 & sv1 & sv2 & c & -> & E0 & E1 & E2)]])].
  - split; [apply same_canvas_refl|]. split; [exact Hdef|].
    split; [exact Hb | exact Hkept].
  - exact Hsc.
  - destruct (screenTriangle_fillable this idx i pos mvp t Hm Hpos Hidx Ht)
      as (F0 & F1 & F2).
    destruct (fill_outcome this sv0 sv1 sv2 c Hs Hdef Hb
                (fillable_ext _ _ E0 F0) (fillable_ext _ _ E1 F1)
                (fillable_ext _ _ E2 F2)) as (Hc & Hd & Hb' & Hp).
    split; [exact Hc|]. split; [exact Hd|]. split; [exact Hb'|].
    intros x y Hx Hy. eapply kept_or_painted_not_raised; [|apply Hp; assumption].
    apply (depth_at_cell this x y (fun v => is_nan v = false)); assumption.
Qed.

Lemma sceneSet_same_canvas (r r' : Renderer) :
  same_canvas r r' -> sceneSet r' = sceneSet r.
Proof.
  unfold same_canvas, sceneSet. intros (_ & _ & _ & -> & -> & -> & _).
  reflexivity.
Qed.

Lemma fold_TypeError (mesh : MeshData) (mvp modelMat : Mat4) (l : list num) :
  fold_left
    (fun acc i =>
       bind acc (fun this =>
         renderTriangle Math_hypot this (indices_of mesh) i
                        (positions_of mesh) (normals_of mesh) (uvs_of mesh)
                        mvp modelMat))
    l TypeError = TypeError.
Proof. induction l as [|i l IH]; [reflexivity | exact IH]. Qed.

(** The loop of [renderMesh] over any list of triangle starts. *)
Lemma renderMesh_loop_canvas (mesh : MeshData) (mvp modelMat : Mat4)
      (l : list num) (this : Renderer) :
  match fold_left
          (fun acc i =>
             bind acc (fun this =>
               renderTriangle Math_hypot this (indices_of mesh) i
                              (positions_of mesh) (normals_of mesh)
                              (uvs_of mesh) mvp modelMat))
          l (Ok this) with
  | Ok r' => same_canvas this r'
  | TypeError => sceneSet this = false
  end.
Proof.
  revert this. induction l as [|i l IH]; intros this; cbn [fold_left bind].
  - apply same_canvas_refl.
  - pose proof (renderTriangle_canvas this (indices_of mesh) i
                  (positions_of mesh) (normals_of mesh) (uvs_of mesh)
                  mvp modelMat) as H1.
    destruct (renderTriangle _ _ _ _ _ _ _ _ _) as [r1|].
    + specialize (IH r1).
      destruct (fold_left _ l (Ok r1)) as [r2|].
      * apply (same_canvas_trans _ r1); assumption.
      * rewrite <- (sceneSet_same_canvas this r1 H1). exact IH.
    + rewrite fold_TypeError. exact H1.
Qed.

Lemma renderMesh_loop_outcome (mesh : MeshData) (mvp modelMat : Mat4)
      (l : list num) (this : Renderer) :
  sized this -> depth_defined this -> depth_binary32 this ->
  finiteMat mvp = true ->
  Forall (fun v => finite v = true) (positions_of mesh) ->
  Forall (validIndex (positions_of mesh)) (indices_of mesh) ->
  match fold_left
          (fun acc i =>
             bind acc (fun this =>
               renderTriangle Math_hypot this (indices_of mesh) i
                              (positions_of mesh) (normals_of mesh)
                              (uvs_of mesh) mvp modelMat))
          l (Ok this) with
  | Ok r' =>
      same_canvas this r' /\ depth_defined r' /\ depth_binary32 r'
      /\ forall x y, 0 <= x < width this -> 0 <= y < height this ->
           not_raised this r' x y
  | TypeError => sceneSet this = false
  end.
Proof.
  intros Hs Hdef Hb Hm Hpos Hidx. revert this Hs Hdef Hb.
  induction l as [|i l IH]; intros this Hs Hdef Hb; cbn [fold_left bind].
  - split; [apply same_canvas_refl|]. split; [exact Hdef|].
    split; [exact Hb|].
    intros x y Hx Hy. apply num_le_refl.
    apply (depth_at_cell this x y (fun v => is_nan v = false)); assumption.
  - pose proof (renderTriangle_outcome this (indices_of mesh) i
                  (positions_of mesh) (normals_of mesh) (uvs_of mesh)
                  mvp modelMat Hs Hdef Hb Hm Hpos Hidx) as H1.
    destruct (renderTriangle _ _ _ _ _ _ _ _ _) as [r1|].
    + destruct H1 as (Hc1 & Hd1 & Hb1 & Hp1).
      pose proof Hc1 as (Cw & Ch & _).
      specialize (IH r1 (same_canvas_sized _ _ Hc1 Hs) Hd1 Hb1).
      destruct (fold_left _ l (Ok r1)) as [r2|].
      * destruct IH as (Hc2 & Hd2 & Hb2 & Hp2).
        split; [apply (same_canvas_trans _ r1); assumption|].
        split; [exact Hd2|]. split; [exact Hb2|].
        intros x y Hx Hy. apply (not_raised_trans _ r1).
        -- apply Hp1; assumption.
        -- apply Hp2; [rewrite Cw | rewrite Ch]; assumption.
      * rewrite <- (sceneSet_same_canvas this r1 Hc1). exact IH.
    + rewrite fold_TypeError. exact H1.
Qed.


(** X13.  [renderMesh] on a renderer whose scene object for the shading mode is
    set (the light for flat shading, the camera for Blinn-Phong shading; no
    object for wireframe or no mode) does not throw, whatever the mesh and
    the matrices, and returns a renderer with the same dimensions, options,
    camera, light and buffer sizes. *)
Theorem renderMesh_returns_same_canvas
        (this : Renderer) (mesh : MeshData) (mvp modelMat : Mat4) :
  sceneSet this = true ->
  exists r', renderMesh Math_hypot this mesh mvp modelMat = Ok r'
             /\ same_canvas this r'.
Proof.
  intros Hs. unfold renderMesh.
  pose proof (renderMesh_loop_canvas mesh mvp modelMat
                (triangleStarts (length (indices_of mesh))) this) as H.
  destruct (fold_left _ _ (Ok this)) as [r'|]; [|congruence].
  exists r'. auto.
Qed.

(** X14.  [renderMesh] never raises a depth.  With a matrix [mvp] and
    positions whose entries are zero or of magnitude between [2^-100] and
    [2^100], indices that all name a vertex of the position array, and a
    renderer whose buffers have one cell per pixel and whose depth buffer
    holds binary32 values other than NaN: if it returns, the canvas is the
    same, the depth buffer still holds binary32 values other than NaN, and
    no pixel of the screen has a depth above the one it had; if it throws,
    the scene object of the shading mode is missing. *)
Theorem renderMesh_never_raises_depth
        (this : Renderer) (mesh : MeshData) (mvp modelMat : Mat4) :
  sized this -> depth_defined this -> depth_binary32 this ->
  moderateMat mvp = true ->
  Forall (fun v => moderate v = true) (positions_of mesh) ->
  Forall (validIndex (positions_of mesh)) (indices_of mesh) ->
  match renderMesh Math_hypot this mesh mvp modelMat with
  | Ok r' =>
      same_canvas this r' /\ sized r' /\ depth_defined r'
      /\ depth_binary32 r'
      /\ forall x y, 0 <= x < width this -> 0 <= y < height this ->
           not_raised this r' x y
  | TypeError => sceneSet this = false
  end.
Proof.
  intros Hs Hdef Hb Hm Hpos Hidx. unfold renderMesh.
  pose proof (renderMesh_loop_outcome mesh mvp modelMat
                (triangleStarts (length (indices_of mesh))) this
                Hs Hdef Hb (moderateMat_finite mvp Hm)
                (Forall_impl _ _ _ Hpos moderate_finite) Hidx) as H.
  destruct (fold_left _ _ (Ok this)) as [r'|]; [|exact H].
  destruct H as (Hc & Hd & Hb' & Hp).
  split; [exact Hc|]. split; [exact (same_canvas_sized _ _ Hc Hs)|].
  split; [exact Hd|]. split; [exact Hb' | exact Hp].
Qed.

End MeshProperties.

Lemma renderMesh_returns_same_canvas_witness :
  exists r',
    renderMesh hypot_run flatCanvas4 cornerMesh mat4Identity mat4Identity
    = Ok r'
    /\ same_canvas flatCanvas4 r'.
Proof.
  assert (Hs : sceneSet flatCanvas4 = true) by (vm_compute; reflexivity).
  exact (renderMesh_returns_same_canvas hypot_run flatCanvas4 cornerMesh
           mat4Identity mat4Identity Hs).
Defined.

Lemma renderMesh_never_raises_depth_witness :
  match renderMesh hypot_run flatCanvas4 cornerMesh mat4Identity
                   mat4Identity with
  | Ok r' =>
      same_canvas flatCanvas4 r' /\ sized r' /\ depth_defined r'
      /\ depth_binary32 r'
      /\ forall x y, 0 <= x < width flatCanvas4 -> 0 <= y < height flatCanvas4 ->
           not_raised flatCanvas4 r' x y
  | TypeError => sceneSet flatCanvas4 = false
  end.
Proof.
  assert (Hs : sized flatCanvas4) by (vm_compute; repeat split; reflexivity).
  assert (Hd : depth_defined flatCanvas4) by (repeat constructor).
  assert (Hb : depth_binary32 flatCanvas4) by (repeat constructor).
  assert (Hm : moderateMat mat4Identity = true) by (vm_compute; reflexivity).
  assert (Hpos : Forall (fun v => moderate v = true) (positions_of cornerMesh))
    by (repeat constructor).
  assert (Hidx : Forall (validIndex (positions_of cornerMesh))
                        (indices_of cornerMesh)).
  { repeat constructor; [exists 0 | exists 1 | exists 2];
      (split; [reflexivity | cbn; lia]). }
  exact (renderMesh_never_raises_depth hypot_run flatCanvas4 cornerMesh
           mat4Identity mat4Identity Hs Hd Hb Hm Hpos Hidx).
Defined.

(** ** Lighting *)

Section NormProperties.

Variable Math_hypot : num -> num -> num -> num.

(** X18.  Each channel returned by [computeBlinnPhongLighting] is NaN or lies
    between 0 and 255, whatever the arguments; without a light the colour
    is the ambient (30, 18, 9); and the [vertex] argument is not used. *)
Theorem computeBlinnPhongLighting_range
        (vertex vertex' normal viewDir : Vec3)
        (light : option DirectionalLight) :
  channel_ok (Vec3.x (computeBlinnPhongLighting Math_hypot vertex normal
                                                viewDir light)) = true
  /\ channel_ok (Vec3.y (computeBlinnPhongLighting Math_hypot vertex normal
                                                   viewDir light)) = true
  /\ channel_ok (Vec3.z (computeBlinnPhongLighting Math_hypot vertex normal
                                                   viewDir light)) = true
  /\ vec3_eqb (computeBlinnPhongLighting Math_hypot vertex normal viewDir None)
              (Vec3.mk (Fin 30) (Fin 18) (Fin 9)) = true
  /\ computeBlinnPhongLighting Math_hypot vertex' normal viewDir light
     = computeBlinnPhongLighting Math_hypot vertex normal viewDir light.
Proof.
  assert (Hc : forall c, channel_ok (clamp255 c) = true).
  { intros [| | |q]; try reflexivity.
    unfold clamp255, channel_ok, zero.
    destruct (Math_min_fin 255 q) as (m & -> & M1 & _ & _).
    destruct (Math_max_fin 0 m) as (c & -> & C1 & _ & [-> | ->]);
      cbn [is_nan orb]; apply between_intro; lra. }
  unfold computeBlinnPhongLighting.
  destruct light as [l|]; cbn [Vec3.x Vec3.y Vec3.z];
    repeat split; try apply Hc; reflexivity.
Qed.

End NormProperties.

(** ** Attribute interpolation *)

Lemma within_inv (e : Z) (a : num) :
  within e a = true -> exists q, a = Fin q.
Proof. destruct a; try discriminate. eauto. Qed.

(** X19.  [interpolateAttrs] between two vertices with finite [y], depth and
    reciprocal [w] of magnitude at most [2^1000].  When the two [y] differ,
    at the [y] of the start vertex it returns the depth and the reciprocal
    [w] of the start vertex, and at any [y] it returns a normal exactly
    when both vertices carry one, a uv pair exactly when both carry one,
    and white unless both carry a colour.  When the two [y] are equal it
    returns the attributes of the start vertex at any [y], white standing
    for a missing colour. *)
Theorem interpolateAttrs_start_row (s e : ScreenVertex) (y : num) :
  within 1000 (ScreenVertex.y s) = true ->
  within 1000 (ScreenVertex.y e) = true ->
  within 1000 (ScreenVertex.z s) = true ->
  within 1000 (ScreenVertex.z e) = true ->
  within 1000 (ScreenVertex.recipW s) = true ->
  within 1000 (ScreenVertex.recipW e) = true ->
  ((ScreenVertex.y e =? ScreenVertex.y s)%num = false ->
   (at_z (interpolateAttrs s e (ScreenVertex.y s)) =? ScreenVertex.z s)%num
   = true
   /\ (at_recipW (interpolateAttrs s e (ScreenVertex.y s))
       =? ScreenVertex.recipW s)%num = true
   /\ (is_Some (at_normal (interpolateAttrs s e y))
       <-> is_Some (ScreenVertex.normal s) /\ is_Some (ScreenVertex.normal e))
   /\ (is_Some (at_uv (interpolateAttrs s e y))
       <-> is_Some (ScreenVertex.uv s) /\ is_Some (ScreenVertex.uv e))
   /\ (ScreenVertex.color s = None \/ ScreenVertex.color e = None ->
       at_color (interpolateAttrs s e y) = white))
  /\ ((ScreenVertex.y e =? ScreenVertex.y s)%num = true ->
      interpolateAttrs s e y
      = mkAttrs (ScreenVertex.z s) (ScreenVertex.recipW s)
                (default white (ScreenVertex.color s))
                (ScreenVertex.normal s) (ScreenVertex.uv s)).
Proof.
  intros Hys Hye Hzs Hze Hws Hwe.
  destruct (within_inv _ _ Hys) as [ys Eys].
  destruct (within_inv _ _ Hye) as [ye Eye].
  destruct (within_inv _ _ Hzs) as [zs Ezs].
  destruct (within_inv _ _ Hze) as [ze Eze].
  destruct (within_inv _ _ Hws) as [ws Ews].
  destruct (within_inv _ _ Hwe) as [we Ewe].
  unfold interpolateAttrs. split.
  - intros Hne. rewrite Hne. rewrite Eys, Eye in Hne |- *.
    cbn [num_eqb] in Hne.
    assert (Hd : Qeq_bool (ye + - ys) 0 = false).
    { apply Qeq_bool_false. intros E. apply not_true_iff_false in Hne.
      apply Hne. apply Qeq_bool_iff. lra. }
    cbn [at_z at_recipW at_normal at_uv at_color].
    rewrite Ezs, Eze, Ews, Ewe.
    cbn [num_sub num_neg num_add num_div]. rewrite Hd.
    cbn [num_mul num_add num_eqb].
    split; [apply Qeq_bool_iff; field; intros E; rewrite E in Hd; discriminate|].
    split; [apply Qeq_bool_iff; field; intros E; rewrite E in Hd; discriminate|].
    split.
    { destruct (ScreenVertex.normal s), (ScreenVertex.normal e);
        split; try (intros [[? H] [? H']]; discriminate);
        try (intros [? H]; discriminate); eauto. }
    split.
    { destruct (ScreenVertex.uv s) as [[? ?]|],
               (ScreenVertex.uv e) as [[? ?]|];
        split; try (intros [[? H] [? H']]; discriminate);
        try (intros [? H]; discriminate); eauto. }
    intros [-> | ->]; [reflexivity|].
    destruct (ScreenVertex.color s) as [[[? ?] ?]|]; reflexivity.
  - intros ->. reflexivity.
Qed.

Lemma interpolateAttrs_start_row_witness :
  (at_z (interpolateAttrs (sv 0 1 (1 # 10)) (sv 2 5 (3 # 4)) (Fin 1))
   =? Fin (1 # 10))%num = true.
Proof.
  exact (proj1 (proj1 (interpolateAttrs_start_row
                  (sv 0 1 (1 # 10)) (sv 2 5 (3 # 4)) (Fin 3)
                  eq_refl eq_refl eq_refl eq_refl eq_refl eq_refl) eq_refl)).
Defined.

(** ** The camera *)

Section CameraProperties.

Variable Math_hypot : num -> num -> num -> num.
Variable Math_cos : num -> num.
Variable Math_sin : num -> num.

(** X20.  What the keys change.  The movement keys [w], [s], [a] and [d] keep
    yaw, pitch, speed and up vector; the arrow keys keep position, pitch,
    speed and up vector; any other key leaves the camera as it is. *)
Theorem keydown_dispatch (c : CameraClass.t) (key : String.string) :
  (In key ["w"; "s"; "a"; "d"]%string ->
   CameraClass.yaw (keydown Math_hypot Math_cos Math_sin key c)
   = CameraClass.yaw c
   /\ CameraClass.pitch (keydown Math_hypot Math_cos Math_sin key c)
      = CameraClass.pitch c
   /\ CameraClass.speed (keydown Math_hypot Math_cos Math_sin key c)
      = CameraClass.speed c
   /\ CameraClass.up (keydown Math_hypot Math_cos Math_sin key c)
      = CameraClass.up c)
  /\ (In key ["ArrowRight"; "ArrowLeft"]%string ->
      CameraClass.position (keydown Math_hypot Math_cos Math_sin key c)
      = CameraClass.position c
      /\ CameraClass.pitch (keydown Math_hypot Math_cos Math_sin key c)
         = CameraClass.pitch c
      /\ CameraClass.speed (keydown Math_hypot Math_cos Math_sin key c)
         = CameraClass.speed c
      /\ CameraClass.up (keydown Math_hypot Math_cos Math_sin key c)
         = CameraClass.up c)
  /\ (~ In key ["w"; "s"; "a"; "d"; "ArrowRight"; "ArrowLeft"]%string ->
      keydown Math_hypot Math_cos Math_sin key c = c).
Proof.
  unfold keydown. split.
  { cbn [In]. intros [<- | [<- | [<- | [<- | []]]]]; cbn; auto. }
  split.
  { cbn [In]. intros [<- | [<- | []]]; cbn; auto. }
  intros Hn. cbn [In] in Hn.
  repeat match goal with
         | |- context [String.eqb key ?k] =>
             destruct (String.eqb_spec key k) as [-> | _]; [exfalso; tauto|]
         end.
  reflexivity.
Qed.

End CameraProperties.

(** ** Coordinates and indices outside the buffers *)

Lemma ta_index_outside (len : nat) (q : Q) (k : Z) :
  (q == inject_Z k)%Q -> ~ (0 <= k < Z.of_nat len) ->
  ta_index len (Fin q) = None.
Proof.
  intros Hq Hk. unfold ta_index.
  assert (Hf : Qfloor q = k) by (rewrite Hq; apply Qfloor_Z).
  rewrite Hf.
  destruct (Qeq_bool (inject_Z k) q); cbn [andb]; [|reflexivity].
  destruct (Z.leb_spec 0 k); cbn [andb]; [|reflexivity].
  destruct (Z.ltb_spec k (Z.of_nat len)); [lia | reflexivity].
Qed.

(** X21.  [depthTest] on a column of the screen but above the first or below the
    last row reads outside the depth buffer: it returns true whatever the
    depth [z] (the comparison with [undefined] is false), and the write is
    dropped, so both buffers stay as they are.  [setPixel] then rejects the
    position, so a zero-length line drawn there changes nothing. *)
Theorem depthTest_outside_buffer
        (st : Renderer) (x y : Z) (z : num) (r g b a : num) :
  sized st -> 0 <= x < width st -> ~ (0 <= y < height st) ->
  (depthTest st (ofZ x) (ofZ y) z).1 = true
  /\ zBuffer (depthTest st (ofZ x) (ofZ y) z).2 = zBuffer st
  /\ data32 (depthTest st (ofZ x) (ofZ y) z).2 = data32 st
  /\ forall q : Q,
       exists st',
         drawLine3DEFLA st (ofZ x) (ofZ y) (Fin q) (ofZ x) (ofZ y) (Fin q)
                        r g b a = Some st'
         /\ zBuffer st' = zBuffer st /\ data32 st' = data32 st.
Proof.
  intros (Hw & Hh & Hzl & Hdl) Hx Hy.
  assert (Hout : ta_index (length (zBuffer st))
                          (ofZ y * ofZ (width st) + ofZ x)%num = None).
  { rewrite pixel_index_eq.
    apply (ta_index_outside _ _ (y * width st + x)); [apply pixel_index_Qeq|].
    rewrite Hzl. intros Hk.
    apply Hy. split; [nia|].
    destruct (Z_lt_le_dec y (height st)) as [Hlt | Hge]; [exact Hlt|].
    exfalso. assert (height st * width st <= y * width st) by nia. lia. }
  assert (Ht : forall z0, depthTest st (ofZ x) (ofZ y) z0
                          = (true, set_zBuffer st (zBuffer st))).
  { intros z0. unfold depthTest, ta_get, ta_set. rewrite Hout.
    destruct z0; reflexivity. }
  rewrite Ht. cbn [fst snd zBuffer data32 set_zBuffer].
  repeat split.
  intros q.
  pose proof (drawLine3DEFLA_point st (inject_Z x) (inject_Z y) q r g b a)
    as E.
  change (Fin (inject_Z x)) with (ofZ x) in E.
  change (Fin (inject_Z y)) with (ofZ y) in E.
  rewrite E, Ht.
  eexists. split; [reflexivity|].
  rewrite setPixel_out_of_range by (cbn [width height set_zBuffer]; tauto).
  split; reflexivity.
Qed.

Lemma depthTest_outside_buffer_witness :
  (depthTest canvas4 (ofZ 2) (ofZ 4) (Fin 9)).1 = true
  /\ zBuffer (depthTest canvas4 (ofZ 2) (ofZ 4) (Fin 9)).2 = zBuffer canvas4.
Proof.
  assert (Hs : sized canvas4) by (vm_compute; repeat split; reflexivity).
  assert (Hx : 0 <= 2 < width canvas4) by (vm_compute; split; congruence).
  assert (Hy : ~ (0 <= 4 < height canvas4))
    by (vm_compute; intros [_ N]; discriminate N).
  destruct (depthTest_outside_buffer canvas4 2 4 (Fin 9) zero zero zero zero
              Hs Hx Hy) as (H1 & H2 & _).
  split; assumption.
Defined.

Lemma num_add_nan_r (a : num) : (a + NaN)%num = NaN.
Proof. destruct a; reflexivity. Qed.

Lemma row_nan (a b c d x y z : num) :
  is_nan x || is_nan y || is_nan z = true ->
  (a * x + b * y + c * z + d * one)%num = NaN.
Proof.
  destruct x; [rewrite num_mul_nan_r; reflexivity | | |];
    (destruct y; [rewrite (num_mul_nan_r b), num_add_nan_r; reflexivity | | |]);
    (destruct z; [rewrite (num_mul_nan_r c), num_add_nan_r; reflexivity | | |]);
    discriminate.
Qed.

(** A position with a NaN coordinate projects to a screen vertex of NaNs. *)
Lemma projectVertex_hasNaN (v : Vec3) (mvp : Mat4) (W H : num) :
  hasNaN v = true ->
  exists p, projectVertex v mvp W H = Some p
            /\ ScreenVertex.y (toScreenVertex p) = NaN.
Proof.
  intros Hv. unfold projectVertex, mat4MulVec4.
  cbn [Vec4.x Vec4.y Vec4.z Vec4.w].
  rewrite !(row_nan _ _ _ _ _ _ _ Hv). cbn [num_eqb].
  eexists. split; reflexivity.
Qed.

Lemma snapped_nan_y (this : Renderer) (s0 s1 s2 : ScreenVertex) :
  ScreenVertex.y s0 = NaN \/ ScreenVertex.y s1 = NaN
  \/ ScreenVertex.y s2 = NaN ->
  ScreenVertex.y (snapped this (s0, s1, s2)).1.1 = NaN
  \/ ScreenVertex.y (snapped this (s0, s1, s2)).1.2 = NaN
  \/ ScreenVertex.y (snapped this (s0, s1, s2)).2 = NaN.
Proof.
  unfold snapped. destruct (snapVertices (options this)); cbn [fst snd];
    [|tauto].
  unfold snapVertexToGrid. cbn [ScreenVertex.y].
  intros [-> | [-> | ->]]; auto.
Qed.

Section MissingVertex.

Variable Math_hypot : num -> num -> num -> num.

(** X22.  A triangle with a NaN among the coordinates of its vertices, as when an
    index is missing from the index buffer or names a vertex outside the
    position array, draws nothing: [renderTriangle] returns the renderer as
    it is, or throws because the scene object of the shading mode is
    missing. *)
Theorem renderTriangle_nan_vertex
        (this : Renderer) (idx : list num) (i : num) (pos normals : list num)
        (uvs : option (list num)) (mvp modelMat : Mat4) :
  hasNaN (triangleVertices idx i pos).1.1
  || hasNaN (triangleVertices idx i pos).1.2
  || hasNaN (triangleVertices idx i pos).2 = true ->
  renderTriangle Math_hypot this idx i pos normals uvs mvp modelMat = Ok this
  \/ (renderTriangle Math_hypot this idx i pos normals uvs mvp modelMat
      = TypeError
      /\ sceneSet this = false).
Proof.
  intros Hv.
  destruct (renderTriangle_cases Math_hypot this idx i pos normals uvs mvp
              modelMat)
    as [E | (t & Ht & _ & _
             & [[Hs E] | [_ (sv0 & sv1 & sv2 & c & E & E0 & E1 & E2)]])].
  - left. exact E.
  - right. split; assumption.
  - left. rewrite E. f_equal. unfold drawTriangleScanline.
    rewrite (fragments_ext _ _ _ _ _ _ _ _ E0 E1 E2).
    rewrite fragments_nan_y; [reflexivity|].
    revert Ht. unfold screenTriangle, projectedTriangle,
      transformTriangleToScreen.
    unfold triangleVertices in *. cbn [fst snd] in Hv.
    set (w0 := vertex_at pos (ta_get idx i * Fin 3)%num) in *.
    set (w1 := vertex_at pos (ta_get idx (i + Fin 1) * Fin 3)%num) in *.
    set (w2 := vertex_at pos (ta_get idx (i + Fin 2) * Fin 3)%num) in *.
    pose proof (projectVertex_hasNaN w0 mvp (ofZ (width this))
                                     (ofZ (height this))) as P0.
    pose proof (projectVertex_hasNaN w1 mvp (ofZ (width this))
                                     (ofZ (height this))) as P1.
    pose proof (projectVertex_hasNaN w2 mvp (ofZ (width this))
                                     (ofZ (height this))) as P2.
    destruct (projectVertex w0 _ _ _) as [p0|]; [|discriminate].
    destruct (projectVertex w1 _ _ _) as [p1|]; [|discriminate].
    destruct (projectVertex w2 _ _ _) as [p2|]; [|discriminate].
    intros [= <-]. apply snapped_nan_y.
    apply orb_true_iff in Hv as [Hv | Hv];
      [apply orb_true_iff in Hv as [Hv | Hv]|].
    + left. destruct (P0 Hv) as (p & [= <-] & Hp). exact Hp.
    + right. left. destruct (P1 Hv) as (p & [= <-] & Hp). exact Hp.
    + right. right. destruct (P2 Hv) as (p & [= <-] & Hp). exact Hp.
Qed.

End MissingVertex.

Lemma renderTriangle_nan_vertex_witness :
  renderTriangle hypot_run flatCanvas4 (indices_of shortMesh) zero
                 (positions_of shortMesh) (normals_of shortMesh) None
                 mat4Identity mat4Identity = Ok flatCanvas4
  \/ (renderTriangle hypot_run flatCanvas4 (indices_of shortMesh) zero
                     (positions_of shortMesh) (normals_of shortMesh) None
                     mat4Identity mat4Identity = TypeError
      /\ sceneSet flatCanvas4 = false).
Proof.
  assert (Hv : hasNaN (triangleVertices (indices_of shortMesh) zero
                                        (positions_of shortMesh)).1.1
               || hasNaN (triangleVertices (indices_of shortMesh) zero
                                           (positions_of shortMesh)).1.2
               || hasNaN (triangleVertices (indices_of shortMesh) zero
                                           (positions_of shortMesh)).2 = true)
    by (vm_compute; reflexivity).
  exact (renderTriangle_nan_vertex hypot_run flatCanvas4
           (indices_of shortMesh) zero (positions_of shortMesh)
           (normals_of shortMesh) None mat4Identity mat4Identity Hv).
Defined.

(** ** The line rasteriser *)

Lemma efla_body_same_canvas
      (longLen dx dy xs ys zs decInc1 decInc2 r g b a : num) (s : LineState) :
  same_canvas (ls_this s)
    (ls_this (efla_body longLen dx dy xs ys zs decInc1 decInc2 r g b a s)).
Proof.
  unfold efla_body.
  pose proof (depthTest_same_canvas (ls_this s) (ls_x0 s) (ls_y0 s) (ls_z0 s))
    as H.
  destruct (depthTest (ls_this s) (ls_x0 s) (ls_y0 s) (ls_z0 s))
    as [pass r1]. cbn [snd] in H.
  assert (H' : same_canvas (ls_this s)
                 (if pass then setPixel r1 (ls_x0 s) (ls_y0 s) r g b a
                  else r1)).
  { destruct pass; [|exact H].
    apply (same_canvas_trans _ r1); [exact H | apply setPixel_same_canvas]. }
  destruct (longLen =? dx)%num; [exact H'|].
  destruct (longLen =? dy)%num; exact H'.
Qed.

Lemma efla_loop_same_canvas
      (longLen dx dy xs ys zs decInc1 decInc2 r g b a : num) (n : nat)
      (s : LineState) :
  same_canvas (ls_this s)
    (ls_this (Nat.iter n
                (efla_body longLen dx dy xs ys zs decInc1 decInc2 r g b a)
                s)).
Proof.
  induction n as [|n IH]; cbn [Nat.iter nat_rect].
  - apply same_canvas_refl.
  - eapply same_canvas_trans; [exact IH | apply efla_body_same_canvas].
Qed.

Lemma max3_nan (a b c : num) :
  a = NaN \/ b = NaN \/ c = NaN -> Math_max3 a b c = NaN.
Proof.
  unfold Math_max3, Math_max.
  intros [-> | [-> | ->]]; [reflexivity | destruct a; reflexivity |].
  destruct a, b; try reflexivity; destruct (_ <? _)%num; reflexivity.
Qed.

Lemma abs_diff_nan (p q : num) :
  is_nan p || is_nan q = true -> Math_abs (q - p) = NaN.
Proof. destruct p, q; try discriminate; reflexivity. Qed.

(** X25.  [drawLine3DEFLA] between two points with finite coordinates that
    differ by at most [2^52] in each coordinate returns, with the
    dimensions, options, camera, light and buffer sizes kept.  With a NaN
    among the coordinates the loop body never runs and the renderer is
    returned as it is.  With finite coordinates of which one pair differs by
    [2^53] or more, or with an infinite [x1], the loop does not end: its
    counter stops growing at [2^53]. *)
Theorem drawLine3DEFLA_returns
        (this : Renderer) (x0 y0 z0 x1 y1 z1 : Q) (r g b a : num) :
  ((Qabs (x1 - x0) <= inject_Z (2 ^ 52))%Q ->
   (Qabs (y1 - y0) <= inject_Z (2 ^ 52))%Q ->
   (Qabs (z1 - z0) <= inject_Z (2 ^ 52))%Q ->
   exists st',
     drawLine3DEFLA this (Fin x0) (Fin y0) (Fin z0) (Fin x1) (Fin y1)
                    (Fin z1) r g b a = Some st'
     /\ same_canvas this st')
  /\ (forall p0 q0 r0 p1 q1 r1 : num,
        is_nan p0 || is_nan q0 || is_nan r0
        || is_nan p1 || is_nan q1 || is_nan r1 = true ->
        drawLine3DEFLA this p0 q0 r0 p1 q1 r1 r g b a = Some this)
  /\ ((inject_Z (2 ^ 53) <= Qabs (x1 - x0))%Q
      \/ (inject_Z (2 ^ 53) <= Qabs (y1 - y0))%Q
      \/ (inject_Z (2 ^ 53) <= Qabs (z1 - z0))%Q ->
      drawLine3DEFLA this (Fin x0) (Fin y0) (Fin z0) (Fin x1) (Fin y1)
                     (Fin z1) r g b a = None)
  /\ drawLine3DEFLA this (Fin x0) (Fin y0) (Fin z0) PInf (Fin y1) (Fin z1)
                    r g b a = None
  /\ drawLine3DEFLA this (Fin x0) (Fin y0) (Fin z0) NInf (Fin y1) (Fin z1)
                    r g b a = None.
Proof.
  split; [|split; [|split; [|split]]].
  - intros Hx Hy Hz. unfold drawLine3DEFLA.
    cbn [num_sub num_neg num_add Math_abs].
    destruct (max3_fin (Qabs (x1 + - x0)) (Qabs (y1 + - y0))
                       (Qabs (z1 + - z0)))
      as (M & -> & _ & HM).
    assert (Hbig : Qle_bool (inject_Z (2 ^ 53)) M = false).
    { apply not_true_iff_false. intros H. apply Qle_bool_iff in H.
      assert (Hlt : (inject_Z (2 ^ 52) < inject_Z (2 ^ 53))%Q) by reflexivity.
      unfold Qminus in Hx, Hy, Hz.
      destruct HM as [-> | [-> | ->]]; lra. }
    destruct (_ =? _)%num; [|destruct (_ =? _)%num];
      cbn [efla_iterations]; rewrite Hbig; eexists; (split; [reflexivity|]);
      apply efla_loop_same_canvas.
  - intros p0 q0 r0 p1 q1 r1 Hn. unfold drawLine3DEFLA.
    assert (Hm : Math_max3 (Math_abs (p1 - p0)) (Math_abs (q1 - q0))
                           (Math_abs (r1 - r0)) = NaN).
    { apply max3_nan. repeat rewrite orb_true_iff in Hn.
      destruct Hn as [[[[[H | H] | H] | H] | H] | H];
        [left | right; left | right; right | left | right; left
         | right; right];
        apply abs_diff_nan; rewrite H; auto using orb_true_r. }
    rewrite Hm. cbn [num_eqb efla_iterations Nat.iter nat_rect ls_this].
    reflexivity.
  - intros Hfar. unfold drawLine3DEFLA.
    cbn [num_sub num_neg num_add Math_abs].
    destruct (max3_fin (Qabs (x1 + - x0)) (Qabs (y1 + - y0))
                       (Qabs (z1 + - z0)))
      as (M & -> & (M1 & M2 & M3) & _).
    assert (Hbig : Qle_bool (inject_Z (2 ^ 53)) M = true).
    { apply Qle_bool_iff. unfold Qminus in Hfar.
      destruct Hfar as [H | [H | H]]; lra. }
    destruct (_ =? _)%num; [|destruct (_ =? _)%num];
      cbn [efla_iterations]; rewrite Hbig; reflexivity.
  - unfold drawLine3DEFLA.
    cbn [num_sub num_neg num_add Math_abs Math_max3 Math_max num_lt].
    destruct (negb _); reflexivity.
  - unfold drawLine3DEFLA.
    cbn [num_sub num_neg num_add Math_abs Math_max3 Math_max num_lt].
    destruct (negb _); reflexivity.
Qed.

(** ** Attribute lookup and the bounding box *)

(** X26.  [getScreenVertex] with normal and uv arrays of finite entries and
    offsets that are non-negative integers attaches a normal exactly when
    the three entries from offset [vi] on are inside the normal array, and
    a uv pair exactly when the two entries from offset [uvIdx] on are
    inside the uv array; what it attaches is finite, so no read falls
    outside an array.  The screen position, depth and reciprocal [w] are
    kept and the colour is dropped. *)
Theorem getScreenVertex_reads_in_bounds
        (s : ScreenVertex) (vi ui : Z) (ns us : list num) :
  0 <= vi -> 0 <= ui ->
  Forall (fun v => finite v = true) ns ->
  Forall (fun v => finite v = true) us ->
  match ScreenVertex.normal
          (getScreenVertex s (ofZ vi) (ofZ ui) (Some ns) (Some us)) with
  | Some n => vi + 2 < Z.of_nat (length ns) /\ finiteVec3 n = true
  | None => Z.of_nat (length ns) <= vi + 2
  end
  /\ match ScreenVertex.uv
             (getScreenVertex s (ofZ vi) (ofZ ui) (Some ns) (Some us)) with
     | Some (u, v) =>
         ui + 1 < Z.of_nat (length us) /\ finite u = true /\ finite v = true
     | None => Z.of_nat (length us) <= ui + 1
     end
  /\ ScreenVertex.toVec3
       (getScreenVertex s (ofZ vi) (ofZ ui) (Some ns) (Some us))
     = ScreenVertex.toVec3 s
  /\ ScreenVertex.recipW
       (getScreenVertex s (ofZ vi) (ofZ ui) (Some ns) (Some us))
     = ScreenVertex.recipW s
  /\ ScreenVertex.color
       (getScreenVertex s (ofZ vi) (ofZ ui) (Some ns) (Some us)) = None.
Proof.
  intros Hvi Hui Hns Hus. unfold getScreenVertex.
  cbn [ScreenVertex.normal ScreenVertex.uv ScreenVertex.toVec3
       ScreenVertex.recipW ScreenVertex.color ScreenVertex.x ScreenVertex.y
       ScreenVertex.z].
  split; [|split; [|auto]].
  - change (ofZ vi + Fin 2)%num with (Fin (inject_Z vi + 2)).
    change (ofZ vi + Fin 1)%num with (Fin (inject_Z vi + 1)).
    unfold num_gt, ofZ. cbn [num_lt].
    assert (E2 : (inject_Z vi + 2 == inject_Z (vi + 2))%Q)
      by (rewrite inject_Z_plus; reflexivity).
    assert (E1 : (inject_Z vi + 1 == inject_Z (vi + 1))%Q)
      by (rewrite inject_Z_plus; reflexivity).
    destruct (Qle_bool (inject_Z (Z.of_nat (length ns))) (inject_Z vi + 2))
      eqn:E; cbn [negb].
    + apply Qle_bool_iff in E. rewrite E2, <- Zle_Qle in E. exact E.
    + assert (Hlt : vi + 2 < Z.of_nat (length ns)).
      { destruct (Z_lt_le_dec (vi + 2) (Z.of_nat (length ns))) as [L | G];
          [exact L|].
        exfalso. rewrite Zle_Qle, <- E2 in G. apply Qle_bool_iff in G.
        congruence. }
      split; [exact Hlt|]. unfold finiteVec3. cbn [Vec3.x Vec3.y Vec3.z].
      rewrite (ta_get_finite ns _ vi Hns ltac:(reflexivity) ltac:(lia)).
      rewrite (ta_get_finite ns _ (vi + 1) Hns E1 ltac:(lia)).
      rewrite (ta_get_finite ns _ (vi + 2) Hns E2 ltac:(lia)).
      reflexivity.
  - change (ofZ ui + Fin 1)%num with (Fin (inject_Z ui + 1)).
    unfold num_gt, ofZ. cbn [num_lt].
    assert (E1 : (inject_Z ui + 1 == inject_Z (ui + 1))%Q)
      by (rewrite inject_Z_plus; reflexivity).
    destruct (Qle_bool (inject_Z (Z.of_nat (length us))) (inject_Z ui + 1))
      eqn:E; cbn [negb].
    + apply Qle_bool_iff in E. rewrite E1, <- Zle_Qle in E. exact E.
    + assert (Hlt : ui + 1 < Z.of_nat (length us)).
      { destruct (Z_lt_le_dec (ui + 1) (Z.of_nat (length us))) as [L | G];
          [exact L|].
        exfalso. rewrite Zle_Qle, <- E1 in G. apply Qle_bool_iff in G.
        congruence. }
      split; [exact Hlt|].
      rewrite (ta_get_finite us _ ui Hus ltac:(reflexivity) ltac:(lia)).
      rewrite (ta_get_finite us _ (ui + 1) Hus E1 ltac:(lia)).
      auto.
Qed.

Lemma getScreenVertex_reads_in_bounds_witness :
  match ScreenVertex.normal
          (getScreenVertex (sv 1 2 (1 # 2)) (ofZ 6) (ofZ 4)
                           (Some normalsAway) (Some [zero; one; zero])) with
  | Some n =>
      6 + 2 < Z.of_nat (length normalsAway) /\ finiteVec3 n = true
  | None => Z.of_nat (length normalsAway) <= 6 + 2
  end.
Proof.
  assert (Hns : Forall (fun v => finite v = true) normalsAway)
    by (repeat constructor).
  assert (Hus : Forall (fun v => finite v = true) [zero; one; zero])
    by (repeat constructor).
  exact (proj1 (getScreenVertex_reads_in_bounds (sv 1 2 (1 # 2)) 6 4
                  normalsAway [zero; one; zero]
                  ltac:(lia) ltac:(lia) Hns Hus)).
Defined.

(** X27.  [boundingBoxCenter] of a box whose corners are finite and of
    magnitude at most [2^1000] lies between the two corners in each
    coordinate in which the minimum is not above the maximum. *)
Theorem boundingBoxCenter_between (bmin bmax : Vec3) :
  within 1000 (Vec3.x bmin) && within 1000 (Vec3.y bmin)
  && within 1000 (Vec3.z bmin) = true ->
  within 1000 (Vec3.x bmax) && within 1000 (Vec3.y bmax)
  && within 1000 (Vec3.z bmax) = true ->
  ((Vec3.x bmin <=? Vec3.x bmax)%num = true ->
   between (Vec3.x bmin) (Vec3.x (boundingBoxCenter bmin bmax))
           (Vec3.x bmax) = true)
  /\ ((Vec3.y bmin <=? Vec3.y bmax)%num = true ->
      between (Vec3.y bmin) (Vec3.y (boundingBoxCenter bmin bmax))
              (Vec3.y bmax) = true)
  /\ ((Vec3.z bmin <=? Vec3.z bmax)%num = true ->
      between (Vec3.z bmin) (Vec3.z (boundingBoxCenter bmin bmax))
              (Vec3.z bmax) = true).
Proof.
  intros Hmin Hmax.
  apply andb_prop in Hmin as [Hmin Hz1]. apply andb_prop in Hmin as [Hx1 Hy1].
  apply andb_prop in Hmax as [Hmax Hz2]. apply andb_prop in Hmax as [Hx2 Hy2].
  destruct bmin as [ax ay az], bmax as [bx b_y bz].
  cbn [Vec3.x Vec3.y Vec3.z] in *.
  destruct (within_inv _ _ Hx1) as [? ->].
  destruct (within_inv _ _ Hy1) as [? ->].
  destruct (within_inv _ _ Hz1) as [? ->].
  destruct (within_inv _ _ Hx2) as [? ->].
  destruct (within_inv _ _ Hy2) as [? ->].
  destruct (within_inv _ _ Hz2) as [? ->].
  unfold boundingBoxCenter.
  cbn [Vec3.x Vec3.y Vec3.z num_add num_div].
  change (Qeq_bool 2 0) with false.
  cbn [num_le].
  repeat split; intros H; apply Qle_bool_iff in H; apply between_intro;
    split; apply Qle_shift_div_l || apply Qle_shift_div_r; lra.
Qed.

Lemma boundingBoxCenter_between_witness :
  between (Fin (1 # 10))
          (Vec3.x (boundingBoxCenter (Vec3.mk (Fin (1 # 10)) (Fin 0) (Fin 2))
                                     (Vec3.mk (Fin (4 # 10)) (Fin 5) (Fin 2))))
          (Fin (4 # 10)) = true.
Proof.
  exact (proj1 (boundingBoxCenter_between
                  (Vec3.mk (Fin (1 # 10)) (Fin 0) (Fin 2))
                  (Vec3.mk (Fin (4 # 10)) (Fin 5) (Fin 2)) eq_refl eq_refl)
               eq_refl).
Defined.

(** ** One frame *)

Section FrameProperties.

Variable Math_hypot : num -> num -> num -> num.
Variable Math_cos : num -> num.
Variable Math_sin : num -> num.

Lemma renderMeshes_canvas (ms : list MeshData) (mvp modelMat : Mat4)
      (this : Renderer) :
  match fold_left
          (fun acc mesh =>
             bind acc (fun this =>
               renderMesh Math_hypot this mesh mvp modelMat))
          ms (Ok this) with
  | Ok r' => same_canvas this r'
  | TypeError => sceneSet this = false
  end.
Proof.
  revert this. induction ms as [|m ms IH]; intros this; cbn [fold_left bind].
  - apply same_canvas_refl.
  - pose proof (renderMesh_loop_canvas Math_hypot m mvp modelMat
                  (triangleStarts (length (indices_of m))) this) as H1.
    fold (renderMesh Math_hypot this m mvp modelMat) in H1.
    destruct (renderMesh Math_hypot this m mvp modelMat) as [r1|].
    + specialize (IH r1).
      destruct (fold_left _ ms (Ok r1)) as [r2|].
      * apply (same_canvas_trans _ r1); assumption.
      * rewrite <- (sceneSet_same_canvas this r1 H1). exact IH.
    + assert (E : forall l,
                 fold_left
                   (fun acc mesh =>
                      bind acc (fun this =>
                        renderMesh Math_hypot this mesh mvp modelMat))
                   l TypeError = TypeError)
        by (induction l; [reflexivity | assumption]).
      rewrite E. exact H1.
Qed.

(** X28.  [renderPixel] throws when no camera is set, whatever the shading mode
    and the models.  With a camera, and with the light set when the mode is
    flat shading, it does not throw and returns a renderer with the same
    dimensions, options, camera, light and buffer sizes. *)
Theorem renderPixel_needs_camera (sc : Scene) (time : num) :
  (sc_camera sc = None ->
   renderPixel Math_hypot Math_cos Math_sin sc time = TypeError)
  /\ (is_Some (sc_camera sc) -> sceneSet (rendererOf sc) = true ->
      exists r',
        renderPixel Math_hypot Math_cos Math_sin sc time = Ok r'
        /\ same_canvas (rendererOf sc) r').
Proof.
  unfold renderPixel. split.
  - intros ->. reflexivity.
  - intros [cam Hc] Hs. rewrite Hc. cbn [deref bind].
    pose proof (renderMeshes_canvas (concat (sc_objModels sc))
                  (frameMvp Math_hypot Math_cos Math_sin (sc_projMatrix sc)
                            cam time)
                  (mat4RotateY Math_cos Math_sin time) (rendererOf sc)) as H.
    destruct (fold_left _ _ (Ok (rendererOf sc))) as [r'|]; [|congruence].
    exists r'. auto.
Qed.

End FrameProperties.

Lemma renderPixel_needs_camera_witness :
  exists r',
    renderPixel hypot_run cos_run sin_run sampleScene (Fin (1 # 10)) = Ok r'
    /\ same_canvas (rendererOf sampleScene) r'.
Proof.
  assert (Hc : is_Some (sc_camera sampleScene)) by (eexists; reflexivity).
  assert (Hs : sceneSet (rendererOf sampleScene) = true)
    by (vm_compute; reflexivity).
  exact (proj2 (renderPixel_needs_camera hypot_run cos_run sin_run
                  sampleScene (Fin (1 # 10))) Hc Hs).
Defined.
